(** * Cognate discovery pipeline: a shallow embedding and its properties

    The development follows three scripts of the repository:
    - [find_near_cognates_fuzzy.py]  (module [Fuzzy]),
    - [find_perfect_cognates.py]     (module [PerfectDetector]),
    - [recreate_master_cognate.py]   (modules [Master] and [Frame]).

    [Master] is the merge on the records of the two detectors, every
    column holding what its name says: texts, an integer rank, a score.
    [Frame] is the script from its two files, on the values that
    [pd.read_csv] returns for their fields, with the exceptions that end
    it.

    Python strings are sequences of Unicode code points; they are modelled
    as lists of code points ([N]), so that [len] is [length] and slicing is
    [take]/[drop].  Python [int]s are [Z]; loop counters and lengths, which
    the code only ever increments from zero, are [nat]. *)

From Stdlib Require Import QArith Qround Lqa.
From stdpp Require Import base tactics option list numbers strings gmap sorting.

#[local] Open Scope nat_scope.
#[local] Open Scope list_scope.

(** ** Python strings *)

Abbreviation str := (list N).

(** A string literal of the source, as a list of code points. *)
Definition lit (s : String.string) : str :=
  Ascii.N_of_ascii <$> String.list_ascii_of_string s.

(** [l[lo:hi]] for non-negative bounds: out-of-range bounds are clamped and
    an empty slice results when [hi <= lo]. *)
Definition slice {A} (l : list A) (lo hi : nat) : list A :=
  take (hi - lo) (drop lo l).

(** [a[i] == b[j]] for in-range non-negative indices (the callers guard the
    range before indexing, as the source does). *)
Definition index_eqb (a : str) (i : nat) (b : str) (j : nat) : bool :=
  match a !! i, b !! j with
  | Some x, Some y => bool_decide (x = y)
  | _, _ => false
  end.

(** [a[-k]] for [k >= 1]: the k-th element from the end. *)
Definition neg_index (a : str) (k : nat) : option N :=
  if bool_decide (1 ≤ k ≤ length a) then a !! (length a - k) else None.

Definition neg_index_eqb (a b : str) (k : nat) : bool :=
  match neg_index a k, neg_index b k with
  | Some x, Some y => bool_decide (x = y)
  | _, _ => false
  end.

(** Unicode whitespace, as [str.isspace] has it; [str.strip()] removes it
    from both ends. *)
Definition is_space (c : N) : bool :=
  bool_decide (9 ≤ c ≤ 13)%N || bool_decide (28 ≤ c ≤ 32)%N ||
  bool_decide (c = 133)%N || bool_decide (c = 160)%N ||
  bool_decide (c = 5760)%N || bool_decide (8192 ≤ c ≤ 8202)%N ||
  bool_decide (c = 8232)%N || bool_decide (c = 8233)%N ||
  bool_decide (c = 8239)%N || bool_decide (c = 8287)%N ||
  bool_decide (c = 12288)%N.

Fixpoint lstrip (s : str) : str :=
  match s with
  | [] => []
  | c :: s' => if is_space c then lstrip s' else s
  end.

Definition rstrip (s : str) : str := reverse (lstrip (reverse s)).

Definition strip (s : str) : str := rstrip (lstrip s).

(** Comparison of strings: lexicographic on code points. *)
Fixpoint str_leb (a b : str) : bool :=
  match a, b with
  | [], _ => true
  | _ :: _, [] => false
  | x :: a', y :: b' =>
      if bool_decide (x = y) then str_leb a' b' else bool_decide (x < y)%N
  end.

Definition str_le (a b : str) : Prop := str_leb a b = true.

#[global] Instance str_le_dec a b : Decision (str_le a b).
Proof. unfold str_le. apply _. Defined.

(** [sorted(l)] on a list of strings. *)
Definition sorted (l : list str) : list str := merge_sort str_le l.

(** [sep.join(l)] *)
Fixpoint join (sep : str) (l : list str) : str :=
  match l with
  | [] => []
  | [x] => x
  | x :: l' => x ++ sep ++ join sep l'
  end.

(** [s.split(c)] for a separator of one character. *)
Fixpoint split (c : N) (s : str) : list str :=
  match s with
  | [] => [[]]
  | x :: s' =>
      if bool_decide (x = c) then [] :: split c s'
      else match split c s' with
           | h :: t => (x :: h) :: t
           | [] => [[x]]
           end
  end.

Definition comma : N := 44.
Definition hyphen : N := 45.

(** [range(lo, hi)] *)
Definition range (lo hi : Z) : list Z := seqZ lo (hi - lo).

(** [itertools.combinations(l, 2)] *)
Fixpoint combinations2 {A} (l : list A) : list (A * A) :=
  match l with
  | [] => []
  | x :: l' => (pair x <$> l') ++ combinations2 l'
  end.

(** ** What the scripts take from libraries

    [difflib.SequenceMatcher(None, a, b).ratio()] and the rendering
    [f"{x:.3f}"] belong to Python, [DataFrame.sort_values] to pandas.  The
    scripts are embedded over any implementation of them; the laws the
    proofs rely on are stated apart, in [NumericLaws] and [SortLaws].

    A float is modelled by the rational it stands for.  The ratio is
    [2.0 * matches / length], whose distance to 0.7 or 1.0, when it is not
    zero, is at least [1 / (10 * length)]: rounding to a double cannot move
    it across either bound for strings that fit in memory.

    [format_3f x] is the text of [f"{x:.3f}"] read as a number of
    thousandths: 0.70046 is rendered "0.700", which is 700. *)
Class Numeric := {
  ratio : str → str → Q;
  format_3f : Q → Z
}.

Class NumericLaws (E : Numeric) : Prop := {
  format_3f_nearest q :
    (- (1 # 2) <= 1000 * q - inject_Z (format_3f q) <= 1 # 2)%Q
}.

(** [df.sort_values(col, ascending=...)] with the order on the column given
    as a boolean comparison of rows.  The default sort kind of pandas is
    not stable: the order of rows with equal keys is not fixed. *)
Class Sort := {
  sort_values : ∀ {A}, (A → A → bool) → list A → list A
}.

Class SortLaws (S : Sort) : Prop := {
  sort_values_perm A (leb : A → A → bool) l : sort_values leb l ≡ₚ l;
  sort_values_sorted A (leb : A → A → bool) l :
    (∀ x y, leb x y = true ∨ leb y x = true) →
    (∀ x y z, leb x y = true → leb y z = true → leb x z = true) →
    StronglySorted (λ x y, leb x y = true) (sort_values leb l)
}.

(** The characters at which [str.splitlines()] ends a line. *)
Definition is_linebreak (c : N) : bool :=
  bool_decide (10 ≤ c ≤ 13)%N || bool_decide (28 ≤ c ≤ 30)%N ||
  bool_decide (c = 133)%N || bool_decide (c = 8232)%N ||
  bool_decide (c = 8233)%N.

(** [s.splitlines()]: the lines without their ends; a carriage return
    followed by a line feed ends one line, and the end of the string does
    not open a last, empty line.  [cur] is the line being read. *)
Fixpoint splitlines_from (cur : str) (s : str) : list str :=
  match s with
  | [] => if bool_decide (cur = []) then [] else [cur]
  | c :: s' =>
      if is_linebreak c then
        cur :: match s' with
               | c' :: s'' =>
                   if bool_decide (c = 13%N) && bool_decide (c' = 10%N)
                   then splitlines_from [] s''
                   else splitlines_from [] s'
               | [] => splitlines_from [] s'
               end
      else splitlines_from (cur ++ [c]) s'
  end.

Definition splitlines (s : str) : list str := splitlines_from [] s.

(** What [download_english] returns for the text of the response:
    [[ln.strip() for ln in text.strip().splitlines() if ln.strip()]]. *)
Definition english_lines (text : str) : list str :=
  strip <$> filter (λ ln, strip ln ≠ []) (splitlines (strip text)).

Module Fuzzy.

(** *** [longest_common_prefix]

    [while i < n and a[i] == b[i]: i += 1].  The counter grows by one per
    iteration and the guard needs [i < n], so [n] iterations of fuel are
    exactly enough. *)
Fixpoint prefix_loop (fuel : nat) (a b : str) (n i : nat) : nat :=
  match fuel with
  | 0 => i
  | S fuel' =>
      if bool_decide (i < n) && index_eqb a i b i
      then prefix_loop fuel' a b n (i + 1)
      else i
  end.

Definition longest_common_prefix (a b : str) : nat :=
  let n := length a `min` length b in
  prefix_loop n a b n 0.

(** *** [longest_common_suffix]

    [while i < n and a[-1 - i] == b[-1 - i]: i += 1]. *)
Fixpoint suffix_loop (fuel : nat) (a b : str) (n i : nat) : nat :=
  match fuel with
  | 0 => i
  | S fuel' =>
      if bool_decide (i < n) && neg_index_eqb a b (1 + i)
      then suffix_loop fuel' a b n (i + 1)
      else i
  end.

Definition longest_common_suffix (a b : str) : nat :=
  let n := length a `min` length b in
  suffix_loop n a b n 0.

(** *** [detect_delta] *)

(** The prefix length and the suffix length after the overlap clamp.
    [max(0, max_common - prefix_len)] is written with the truncated
    subtraction of [nat], which is that expression. *)
Definition delta_lengths (a b : str) : nat * nat :=
  let prefix_len := longest_common_prefix a b in
  let suffix_len := longest_common_suffix a b in
  let max_common := length a `min` length b in
  let suffix_len :=
    if bool_decide (max_common < prefix_len + suffix_len)
    then 0 `max` (max_common - prefix_len)
    else suffix_len in
  (prefix_len, suffix_len).

(** [w[prefix_len : len(w) - suffix_len if suffix_len > 0 else len(w)]] *)
Definition middle (w : str) (prefix_len suffix_len : nat) : str :=
  slice w prefix_len
    (if bool_decide (0 < suffix_len) then length w - suffix_len else length w).

(** The return statements of [detect_delta], before formatting. *)
Inductive delta_result :=
  | NoDelta                         (* return "" *)
  | Delta (a_mid b_mid : str)       (* return f"delta: '{a_mid}' vs '{b_mid}'" *)
  | DeltaWhole (a b : str).         (* return f"delta_whole: '{a}' vs '{b}'" *)

Definition detect_delta_result (a b : str) : delta_result :=
  if bool_decide (a = []) || bool_decide (b = []) then NoDelta
  else
    let '(prefix_len, suffix_len) := delta_lengths a b in
    let a_mid := middle a prefix_len suffix_len in
    let b_mid := middle b prefix_len suffix_len in
    if negb (bool_decide (a_mid = [])) || negb (bool_decide (b_mid = []))
    then Delta a_mid b_mid
    else if negb (bool_decide (a = b)) then DeltaWhole a b
    else NoDelta.

Definition format_delta (r : delta_result) : str :=
  match r with
  | NoDelta => []
  | Delta a_mid b_mid =>
      lit "delta: '" ++ a_mid ++ lit "' vs '" ++ b_mid ++ lit "'"
  | DeltaWhole a b =>
      lit "delta_whole: '" ++ a ++ lit "' vs '" ++ b ++ lit "'"
  end.

Definition detect_delta (a b : str) : str :=
  format_delta (detect_delta_result a b).

(** *** [load_raw_data]

    One row of [raw_data.csv] as [csv.DictReader] yields it.  A missing
    cell reads as the empty string ([row.get(..) or ""]); the [rank] cell
    is given with the outcome of [int(..)]: [None] stands for the
    [TypeError]/[ValueError] the source catches. *)
Record raw_row := {
  language : str;
  rank : option Z;
  word : str
}.

Record raw_data := {
  by_lang_rank : gmap (str * Z) str;
  languages : gset str;
  max_rank : Z
}.

Definition load_row (acc : raw_data) (row : raw_row) : raw_data :=
  let lang := strip (language row) in
  if bool_decide (lang = []) then acc
  else match rank row with
       | None => acc
       | Some rank =>
           let word := strip (word row) in
           if bool_decide (word = []) then acc
           else {| by_lang_rank := <[(lang, rank) := word]> (by_lang_rank acc);
                   languages := {[lang]} ∪ languages acc;
                   max_rank := if bool_decide (max_rank acc < rank)%Z
                               then rank else max_rank acc |}
       end.

Definition load_raw_data (rows : list raw_row) : raw_data :=
  foldl load_row {| by_lang_rank := ∅; languages := ∅; max_rank := 0 |} rows.

(** *** [find_near_cognates] *)

(** A row of [near_cognates_discovered.csv].  [Similarity_Score] is the
    number that the text [f"{sim:.3f}"] denotes. *)
Record near_row := {
  Rank : Z;
  English_Meaning : str;
  Language_A : str;
  Word_A : str;
  Language_B : str;
  Word_B : str;
  Similarity_Score : Q;
  Pattern_Detected : str
}.

Section detector.
Context `{Numeric}.

(** [english_by_rank[rank - 1].strip()]; the loop only asks for ranks
    within the list. *)
Definition english_at (english_by_rank : list str) (rank : Z) : str :=
  strip (default [] (english_by_rank !! Z.to_nat (rank - 1))).

(** The entries collected for one rank, before the length filter. *)
Definition collect_entries (english_meaning : str)
    (by_lang_rank : gmap (str * Z) str) (languages : gset str) (rank : Z)
    : list (str * str) :=
  (lit "en", english_meaning) ::
  omap (λ lang_code,
          let word := strip (default [] (by_lang_rank !! (lang_code, rank))) in
          if bool_decide (word = []) then None else Some (lang_code, word))
       (sorted (elements languages)).

(** The body of the loop over [itertools.combinations(entries, 2)]. *)
Definition compare_pair (threshold : Q) (rank : Z) (english_meaning : str)
    (p : (str * str) * (str * str)) : list near_row :=
  let '((lang_a, word_a), (lang_b, word_b)) := p in
  if bool_decide (word_a = word_b) then []
  else if bool_decide (length word_a < 4) || bool_decide (length word_b < 4)
  then []
  else
    let sim := ratio word_a word_b in
    if Qle_bool sim threshold || Qle_bool 1 sim then []
    else
      let pattern := detect_delta word_a word_b in
      [ {| Rank := rank;
           English_Meaning := english_meaning;
           Language_A := lang_a;
           Word_A := word_a;
           Language_B := lang_b;
           Word_B := word_b;
           Similarity_Score := format_3f sim # 1000;
           Pattern_Detected := pattern |} ].

(** The body of the loop over ranks. *)
Definition near_rows_at (english_by_rank : list str)
    (by_lang_rank : gmap (str * Z) str) (languages : gset str)
    (threshold : Q) (rank : Z) : list near_row :=
  let english_meaning := english_at english_by_rank rank in
  if bool_decide (length english_meaning < 1) then []
  else
    let entries := collect_entries english_meaning by_lang_rank languages rank in
    let entries := filter (λ e, 4 ≤ length e.2) entries in
    if bool_decide (length entries < 2) then []
    else combinations2 entries ≫= compare_pair threshold rank english_meaning.

Definition find_near_cognates (english_by_rank : list str)
    (by_lang_rank : gmap (str * Z) str) (languages : gset str)
    (max_rank_data : Z) (threshold : Q) : list near_row :=
  let max_rank := (Z.of_nat (length english_by_rank) `min` max_rank_data)%Z in
  range 1 (max_rank + 1) ≫=
    near_rows_at english_by_rank by_lang_rank languages threshold.

(** [main]: the threshold is 0.7 and the lexicon is what [load_raw_data]
    returns. *)
Definition threshold_default : Q := 7 # 10.

Definition run (english_by_rank : list str) (rows : list raw_row)
    : list near_row :=
  let data := load_raw_data rows in
  find_near_cognates english_by_rank (by_lang_rank data) (languages data)
    (max_rank data) threshold_default.

End detector.

End Fuzzy.

(** The bound on ranks as the specification words it, for comparison with
    [max_rank] of [load_raw_data]: "the minimum of all per-language maximum
    ranks actually used". *)
Definition lang_max_rank (by_lang_rank : gmap (str * Z) str) (lang : str) : Z :=
  foldr Z.max 0%Z
    (snd <$> filter (λ k, k.1 = lang) (elements (dom by_lang_rank))).

Definition spec_maxRank (data : Fuzzy.raw_data) : Z :=
  match lang_max_rank (Fuzzy.by_lang_rank data)
          <$> elements (Fuzzy.languages data) with
  | [] => 0%Z
  | r :: rs => foldr Z.min r rs
  end.

Module PerfectDetector.

(** Target languages. *)
Definition LANGUAGES : list (str * str) :=
  [ (lit "en", lit "English");
    (lit "es", lit "Spanish");
    (lit "fr", lit "French");
    (lit "it", lit "Italian");
    (lit "pt", lit "Portuguese");
    (lit "ro", lit "Romanian");
    (lit "ca", lit "Catalan");
    (lit "gl", lit "Galician") ].

(** A row of [perfect_cognates_universal.csv]. *)
Record perfect_row := {
  Rank : Z;
  English_Meaning : str;
  Word : str;
  Languages_Found : str;
  Count : nat
}.

(** [word_langs[word].append(code)] on a [defaultdict(list)].  A Python
    dict iterates in the order its keys were first inserted, so the dict is
    an association list with one entry per key, new keys at the end. *)
Fixpoint dict_append (word_langs : list (str * list str)) (word code : str)
    : list (str * list str) :=
  match word_langs with
  | [] => [(word, [code])]
  | (w, codes) :: rest =>
      if bool_decide (w = word) then (w, codes ++ [code]) :: rest
      else (w, codes) :: dict_append rest word code
  end.

(** The loop over [LANGUAGES] that fills [word_langs] for one rank. *)
Definition add_language (by_lang_rank : gmap (str * Z) str) (rank : Z)
    (word_langs : list (str * list str)) (l : str * str)
    : list (str * list str) :=
  let '(code, _name) := l in
  if bool_decide (code = lit "en") then word_langs
  else
    let word := strip (default [] (by_lang_rank !! (code, rank))) in
    if bool_decide (word = []) then word_langs
    else dict_append word_langs word code.

Definition build_word_langs (english_meaning : str)
    (by_lang_rank : gmap (str * Z) str) (rank : Z) : list (str * list str) :=
  foldl (add_language by_lang_rank rank)
        (dict_append [] english_meaning (lit "en")) LANGUAGES.

(** The loop over [word_langs.items()]. *)
Definition emit_row (rank : Z) (english_meaning : str)
    (item : str * list str) : list perfect_row :=
  let '(word, codes) := item in
  if bool_decide (length codes < 2) then []
  else
    let languages_found := join [comma] (sorted codes) in
    let count := length codes in
    [ {| Rank := rank;
         English_Meaning := english_meaning;
         Word := word;
         Languages_Found := languages_found;
         Count := count |} ].

(** The body of the loop over ranks. *)
Definition perfect_rows_at (english_by_rank : list str)
    (by_lang_rank : gmap (str * Z) str) (rank : Z) : list perfect_row :=
  let english_meaning :=
    strip (default [] (english_by_rank !! Z.to_nat (rank - 1))) in
  if bool_decide (english_meaning = []) then []
  else build_word_langs english_meaning by_lang_rank rank
         ≫= emit_row rank english_meaning.

Definition find_universal_perfect_cognates (english_by_rank : list str)
    (by_lang_rank : gmap (str * Z) str) : list perfect_row :=
  let max_rank := Z.of_nat (length english_by_rank) in
  range 1 (max_rank + 1) ≫= perfect_rows_at english_by_rank by_lang_rank.

(** [load_raw_data] of this script: the dict alone. *)
Definition load_row (acc : gmap (str * Z) str) (row : Fuzzy.raw_row)
    : gmap (str * Z) str :=
  let lang := strip (Fuzzy.language row) in
  if bool_decide (lang = []) then acc
  else match Fuzzy.rank row with
       | None => acc
       | Some rank =>
           let word := strip (Fuzzy.word row) in
           if bool_decide (word = []) then acc
           else <[(lang, rank) := word]> acc
       end.

Definition load_raw_data (rows : list Fuzzy.raw_row) : gmap (str * Z) str :=
  foldl load_row ∅ rows.

(** [main]: the lexicon is what [load_raw_data] returns. *)
Definition run (english_by_rank : list str) (rows : list Fuzzy.raw_row)
    : list perfect_row :=
  find_universal_perfect_cognates english_by_rank (load_raw_data rows).

(** The word that a language contributes at a rank: the reference list
    gives the word of "en", the lexicon that of any other code. *)
Definition word_at (english_by_rank : list str)
    (by_lang_rank : gmap (str * Z) str) (code : str) (rank : Z) : str :=
  if bool_decide (code = lit "en")
  then strip (default [] (english_by_rank !! Z.to_nat (rank - 1)))
  else strip (default [] (by_lang_rank !! (code, rank))).

(** The first of the target languages, in the order of [LANGUAGES], that
    contributes a given word at a rank, with its position. *)
Definition first_language (english_by_rank : list str)
    (by_lang_rank : gmap (str * Z) str) (rank : Z) (w : str)
    : option (nat * str) :=
  list_find (λ code, word_at english_by_rank by_lang_rank code rank = w)
            (fst <$> LANGUAGES).

(** The order in which rows leave the detector: by rank, and within a rank
    by the position of the first language that contributes the word. *)
Definition emitted_before (english_by_rank : list str)
    (by_lang_rank : gmap (str * Z) str) (r1 r2 : perfect_row) : Prop :=
  (Rank r1 < Rank r2)%Z ∨
  (Rank r1 = Rank r2 ∧
   ∃ i1 c1 i2 c2,
     first_language english_by_rank by_lang_rank (Rank r1) (Word r1) = Some (i1, c1) ∧
     first_language english_by_rank by_lang_rank (Rank r2) (Word r2) = Some (i2, c2) ∧
     i1 < i2).

End PerfectDetector.

Module Master.

Inductive match_type := Perfect | Near.

(** The text in the [Match_Type] column, which [sort_values] compares. *)
Definition match_type_str (m : match_type) : str :=
  match m with
  | Perfect => lit "Perfect"
  | Near => lit "Near"
  end.

Inductive audit_status :=
  | OK                       (* 'OK' *)
  | ManualReviewNeeded.      (* 'Manual Review Needed' *)

(** The eight columns of [combined_df]. *)
Record row := {
  Rank : Z;
  English_Reference : str;
  Word_A : str;
  Word_B : str;
  Lang_A : str;
  Lang_B : str;
  Match_Type : match_type;
  Similarity_Score : Q
}.

(** A row of [MASTER_COGNATE_V2.csv]: the eight columns and [Audit_Status]. *)
Record master_row := {
  cols : row;
  Audit_Status : audit_status
}.

(** The rows that one row of [perfect_df] contributes to
    [perfect_processed]: the two nested loops over indices. *)
Definition expand_perfect (r : PerfectDetector.perfect_row) : list row :=
  let languages := split comma (PerfectDetector.Languages_Found r) in
  let word := PerfectDetector.Word r in
  i ← seq 0 (length languages);
  j ← seq (i + 1) (length languages - (i + 1));
  [ {| Rank := PerfectDetector.Rank r;
       English_Reference := PerfectDetector.English_Meaning r;
       Word_A := word;
       Word_B := word;
       Lang_A := strip (default [] (languages !! i));
       Lang_B := strip (default [] (languages !! j));
       Match_Type := Perfect;
       Similarity_Score := 1 |} ].

Definition perfect_processed (perfect_df : list PerfectDetector.perfect_row)
    : list row :=
  perfect_df ≫= expand_perfect.

(** The renaming of the columns of [near_df] and the new [Match_Type]. *)
Definition near_transform (r : Fuzzy.near_row) : row :=
  {| Rank := Fuzzy.Rank r;
     English_Reference := Fuzzy.English_Meaning r;
     Word_A := Fuzzy.Word_A r;
     Word_B := Fuzzy.Word_B r;
     Lang_A := Fuzzy.Language_A r;
     Lang_B := Fuzzy.Language_B r;
     Match_Type := Near;
     Similarity_Score := Fuzzy.Similarity_Score r |}.

Definition combined_df (perfect_df : list PerfectDetector.perfect_row)
    (near_df : list Fuzzy.near_row) : list row :=
  perfect_processed perfect_df ++ (near_transform <$> near_df).

Definition audit_logic (r : row) : audit_status :=
  match Match_Type r with
  | Perfect => OK
  | Near =>
      let word_a_len := length (Word_A r) in
      let word_b_len := length (Word_B r) in
      let similarity := Similarity_Score r in
      if bool_decide (word_a_len ≤ 2) || bool_decide (word_b_len ≤ 2)
         || negb (Qle_bool (7 # 10) similarity)
      then ManualReviewNeeded
      else OK
  end.

(** [Pair_Key]: the two language codes in sorted order and the reference,
    joined by hyphens in one string. *)
Definition Pair_Key (r : row) : str :=
  let langs := sorted [Lang_A r; Lang_B r] in
  default [] (langs !! 0) ++ [hyphen] ++ default [] (langs !! 1)
    ++ [hyphen] ++ English_Reference r.

(** [drop_duplicates(subset=['Pair_Key'], keep='first')] *)
Fixpoint drop_duplicates_from {A} (key : A → str) (seen : gset str)
    (l : list A) : list A :=
  match l with
  | [] => []
  | x :: l' =>
      if bool_decide (key x ∈ seen) then drop_duplicates_from key seen l'
      else x :: drop_duplicates_from key ({[key x]} ∪ seen) l'
  end.

Definition drop_duplicates {A} (key : A → str) (l : list A) : list A :=
  drop_duplicates_from key ∅ l.

(** Descending order on the [Match_Type] column; ascending on [Rank]. *)
Definition by_match_type_desc (x y : master_row) : bool :=
  str_leb (match_type_str (Match_Type (cols y)))
          (match_type_str (Match_Type (cols x))).

Definition by_rank (x y : master_row) : bool :=
  (Rank (cols x) <=? Rank (cols y))%Z.

(** The pair key as the specification words it: the unordered pair of
    language codes, in sorted order, and the reference. *)
Definition pair_key (r : row) : list str * str :=
  (sorted [Lang_A r; Lang_B r], English_Reference r).

Section pipeline.
Context `{Sort}.

(** [recreate_master_cognate], from the two data frames to the returned
    one.  With no row in [perfect_processed], [pd.DataFrame([])] has no
    column and selecting the eight columns raises [KeyError]: [None]. *)
Definition recreate_master_cognate
    (perfect_df : list PerfectDetector.perfect_row)
    (near_df : list Fuzzy.near_row) : option (list master_row) :=
  match perfect_processed perfect_df with
  | [] => None
  | _ :: _ =>
      let combined := combined_df perfect_df near_df in
      let audited :=
        (λ r, {| cols := r; Audit_Status := audit_logic r |}) <$> combined in
      let by_type := sort_values by_match_type_desc audited in
      let unique := drop_duplicates (λ r, Pair_Key (cols r)) by_type in
      Some (sort_values by_rank unique)
  end.

End pipeline.

End Master.

(** ** Reference implementations of the library functions

    They make the scripts run inside Rocq and show that the laws assumed of
    the libraries can be met.  No property of the scripts below depends on
    them. *)
Module difflib.

(** [autojunk]: when [len(b) >= 200], an element that occurs more than
    [len(b) // 100 + 1] times in [b] is popular and is removed from [b2j]. *)
Definition popular (b : str) (x : N) : bool :=
  bool_decide (200 ≤ length b) &&
  bool_decide (length b / 100 + 1 < length (filter (λ y, y = x) b)).

Fixpoint indices_from (j : nat) (b : str) (x : N) : list nat :=
  match b with
  | [] => []
  | y :: b' =>
      if bool_decide (y = x) then j :: indices_from (S j) b' x
      else indices_from (S j) b' x
  end.

(** [b2j.get(x, [])] *)
Definition b2j (b : str) (x : N) : list nat :=
  if popular b x then [] else indices_from 0 b x.

(** The inner loop of [find_longest_match] over [j]; [m] is
    [(besti, bestj, bestsize)].  [j2len.get(j-1, 0)] is 0 for [j = 0]. *)
Definition scan_j (i blo bhi : nat) (j2len : gmap nat nat)
    (st : (nat * nat * nat) * gmap nat nat) (j : nat)
    : (nat * nat * nat) * gmap nat nat :=
  let '(m, newj2len) := st in
  if bool_decide (j < blo) then st
  else if bool_decide (bhi ≤ j) then st
  else
    let k := match j with
             | 0 => 0
             | S j' => default 0 (j2len !! j')
             end + 1 in
    let newj2len := <[j := k]> newj2len in
    let '(_, _, bestsize) := m in
    if bool_decide (bestsize < k) then ((i + 1 - k, j + 1 - k, k), newj2len)
    else (m, newj2len).

Definition scan_i (a b : str) (blo bhi : nat)
    (st : (nat * nat * nat) * gmap nat nat) (i : nat)
    : (nat * nat * nat) * gmap nat nat :=
  let '(m, j2len) := st in
  match a !! i with
  | None => st
  | Some x => foldl (scan_j i blo bhi j2len) (m, ∅) (b2j b x)
  end.

(** The two loops that extend the match over equal elements on each side
    (the two further loops extend over junk, of which there is none with
    [isjunk=None]). *)
Fixpoint extend_back (fuel : nat) (a b : str) (alo blo : nat)
    (m : nat * nat * nat) : nat * nat * nat :=
  match fuel with
  | 0 => m
  | S fuel' =>
      let '(i, j, k) := m in
      if bool_decide (alo < i) && bool_decide (blo < j)
         && index_eqb a (i - 1) b (j - 1)
      then extend_back fuel' a b alo blo (i - 1, j - 1, k + 1)
      else m
  end.

Fixpoint extend_forward (fuel : nat) (a b : str) (ahi bhi : nat)
    (m : nat * nat * nat) : nat * nat * nat :=
  match fuel with
  | 0 => m
  | S fuel' =>
      let '(i, j, k) := m in
      if bool_decide (i + k < ahi) && bool_decide (j + k < bhi)
         && index_eqb a (i + k) b (j + k)
      then extend_forward fuel' a b ahi bhi (i, j, k + 1)
      else m
  end.

Definition find_longest_match (a b : str) (alo ahi blo bhi : nat)
    : nat * nat * nat :=
  let m := (foldl (scan_i a b blo bhi) ((alo, blo, 0), ∅)
                  (seq alo (ahi - alo))).1 in
  extend_forward (length a) a b ahi bhi
    (extend_back (length a) a b alo blo m).

(** The sum of the sizes of the blocks that [get_matching_blocks] finds.
    Each call removes at least one element of [a] from the ranges it
    passes on, so [len(a) + 1] levels are enough. *)
Fixpoint matches (fuel : nat) (a b : str) (alo ahi blo bhi : nat) : nat :=
  match fuel with
  | 0 => 0
  | S fuel' =>
      let '(i, j, k) := find_longest_match a b alo ahi blo bhi in
      if bool_decide (k = 0) then 0
      else
        k + (if bool_decide (alo < i) && bool_decide (blo < j)
             then matches fuel' a b alo i blo j else 0)
          + (if bool_decide (i + k < ahi) && bool_decide (j + k < bhi)
             then matches fuel' a b (i + k) ahi (j + k) bhi else 0)
  end.

(** [SequenceMatcher(None, a, b).ratio()] *)
Definition ratio (a b : str) : Q :=
  let m := matches (S (length a)) a b 0 (length a) 0 (length b) in
  let len := length a + length b in
  if bool_decide (len = 0) then 1
  else (2 * Z.of_nat m)%Z # Pos.of_nat len.

End difflib.

(** Rounding to the nearest integer, ties to even. *)
Definition round_half_even (x : Q) : Z :=
  let f := Qfloor x in
  match (x - inject_Z f ?= 1 # 2)%Q with
  | Lt => f
  | Gt => (f + 1)%Z
  | Eq => if Z.even f then f else (f + 1)%Z
  end.

Definition python_numeric : Numeric :=
  {| ratio := difflib.ratio;
     format_3f q := round_half_even (1000 * q) |}.

Definition merge_sort_values : Sort :=
  {| sort_values A leb l :=
       merge_sort (H := λ x y, decide (leb x y = true))
                  (λ x y, leb x y = true) l |}.

(** ** The values of a data frame

    [recreate_master_cognate] does not see the text of the two files: it
    sees what [pd.read_csv] makes of it, called without [dtype] and with
    the default missing-value markers.  A cell is then a Python value: the
    text of the field, an integer, a float (a missing value is the float
    [nan]) or a boolean. *)

Inductive float64 :=
  | Finite (x : Q)
  | NegZero
  | Inf (negative : bool)
  | NaN.

Inductive cell :=
  | Text (s : str)
  | Int (z : Z)
  | Float (x : float64)
  | Bool (b : bool).

Definition is_text (v : cell) : bool :=
  match v with Text _ => true | _ => false end.

Definition is_int (v : cell) : bool :=
  match v with Int _ => true | _ => false end.

Definition is_nan (v : cell) : bool :=
  match v with Float NaN => true | _ => false end.

(** The integer part of the binary logarithm of a positive rational. *)
Definition Qlog2 (a : Q) : Z :=
  let e := (Z.log2 (Qnum a) - Z.log2 (Z.pos (Qden a)))%Z in
  if Qle_bool (Qpower 2 e) a then e else (e - 1)%Z.

(** A real number rounded to the nearest double, ties to even: 53
    significant bits, the last of them not below [2^-1074], infinity from
    [2^1024] on, and the zero of its sign for a number too small.  Float
    literals, [float(n)] of an integer and the division of two floats
    round this way. *)
Definition round_double (q : Q) : float64 :=
  if Qeq_bool q 0 then Finite 0
  else
    let negative := negb (Qle_bool 0 q) in
    let a := if negative then (- q)%Q else q in
    let s := ((Qlog2 a - 52) `max` (-1074))%Z in
    let m := round_half_even (a * Qpower 2 (- s)) in
    let v := Qred (inject_Z m * Qpower 2 s) in
    if Qle_bool (Qpower 2 1024) v then Inf negative
    else if negative then (if (m =? 0)%Z then NegZero else Finite (Qred (- v)))
    else Finite v.

(** The float that a sign and a decimal number denote: "-0.0" is the
    negative zero. *)
Definition round_signed (negative : bool) (q : Q) : float64 :=
  if negative then
    if Qeq_bool q 0 then NegZero else round_double (- q)
  else round_double q.

(** [x < y] on floats: false as soon as one side is [nan]; the two zeros
    are equal. *)
Definition float_ltb (x y : float64) : bool :=
  let value x := match x with NegZero => Finite 0 | _ => x end in
  match value x, value y with
  | NaN, _ | _, NaN => false
  | Finite a, Finite b => negb (Qle_bool b a)
  | Inf true, Inf true => false
  | Inf true, _ => true
  | _, Inf true => false
  | Inf false, _ => false
  | _, Inf false => true
  | _, _ => false
  end.

(** The decimal digits of a natural number, and [str(n)] for an [int]. *)
Fixpoint digits_from (fuel : nat) (n : N) (acc : str) : str :=
  match fuel with
  | 0 => acc
  | S fuel' =>
      let acc' := (48 + n `mod` 10)%N :: acc in
      if (n `div` 10 =? 0)%N then acc' else digits_from fuel' (n `div` 10)%N acc'
  end.

Definition str_of_N (n : N) : str :=
  digits_from (S (N.to_nat (N.log2 n))) n [].

Definition str_of_Z (z : Z) : str :=
  if (z <? 0)%Z then hyphen :: str_of_N (Z.to_N (- z)) else str_of_N (Z.to_N z).

(** The text of [f"{x:.3f}"] for a number [x] of [k] thousandths,
    [0 <= k]. *)
Definition format_3f_text (k : Z) : str :=
  let n := Z.to_N k in
  str_of_N (n `div` 1000) ++ [46%N]
    ++ [(48 + (n `div` 100) `mod` 10)%N; (48 + (n `div` 10) `mod` 10)%N;
        (48 + n `mod` 10)%N].

(** What the pipeline takes from Python and pandas on values:
    - [read_column]: the values that [pd.read_csv] gives to the fields of
      one column;
    - [concat_column]: the column that [pd.concat] makes of the columns of
      the two frames, the first frame first;
    - [float_of_str]: [float(s)], [None] when it raises [ValueError];
    - [str_of_float]: [str(x)] for a finite float. *)
Class Values := {
  read_column : list str → list cell;
  concat_column : list cell → list cell → list cell;
  float_of_str : str → option float64;
  str_of_float : Q → str
}.

(** [float(n)] of an integer. *)
Definition float_of_Z (z : Z) : float64 := round_double (inject_Z z).

(** [pd.concat] changes a value in one way only: an integer becomes the
    float of the same value when the column of the other frame holds
    floats. *)
Definition cast_of (c c' : cell) : Prop :=
  c' = c ∨ ∃ z, c = Int z ∧ c' = Float (float_of_Z z).

(** The laws used below.  A field that [read_csv] leaves as text is left
    as it is; a column of three-decimal numbers, which are neither
    integers nor missing-value markers, is a column of floats, each the
    double nearest to its field ([700 / 1000.0] for "0.700"); a float
    prints with three characters at least ("0.0", "1.5", "1e+16"). *)
Class ValuesLaws (V : Values) : Prop := {
  read_column_length fields : length (read_column fields) = length fields;
  read_column_text fields i s :
    read_column fields !! i = Some (Text s) → fields !! i = Some s;
  read_column_3f ks :
    Forall (λ k, 0 ≤ k ≤ 1000)%Z ks →
    read_column (format_3f_text <$> ks)
    = (λ k, Float (round_double (k # 1000))) <$> ks;
  concat_column_cast p n : Forall2 cast_of (p ++ n) (concat_column p n);
  str_of_float_length x : 3 ≤ length (str_of_float x)
}.

Module Frame.

Export Master (match_type, Perfect, Near, match_type_str,
               audit_status, OK, ManualReviewNeeded,
               drop_duplicates_from, drop_duplicates).

Section values.
Context `{Values}.

(** *** Python on cells *)

(** [str(v)] *)
Definition py_str (v : cell) : str :=
  match v with
  | Text s => s
  | Int z => str_of_Z z
  | Float (Finite x) => str_of_float x
  | Float NegZero => lit "-0.0"
  | Float (Inf false) => lit "inf"
  | Float (Inf true) => lit "-inf"
  | Float NaN => lit "nan"
  | Bool true => lit "True"
  | Bool false => lit "False"
  end.

(** [float(v)]; [None] is the [ValueError] of a text that is no number. *)
Definition py_float (v : cell) : option float64 :=
  match v with
  | Text s => float_of_str s
  | Int z => Some (float_of_Z z)
  | Float x => Some x
  | Bool b => Some (Finite (if b then 1 else 0))
  end.

(** The number that a cell stands for in a comparison, a boolean being 0
    or 1; [None] for a text. *)
Definition number_of (v : cell) : option float64 :=
  match v with
  | Text _ => None
  | Int z => Some (Finite (inject_Z z))
  | Float x => Some x
  | Bool b => Some (Finite (if b then 1 else 0))
  end.

(** [a < b]; [None] is the [TypeError] of a text compared with a number.
    Numbers are compared by value, and no comparison with [nan] holds. *)
Definition py_lt (a b : cell) : option bool :=
  match a, b with
  | Text s, Text t => Some (negb (str_leb t s))
  | _, _ =>
      match number_of a, number_of b with
      | Some x, Some y => Some (float_ltb x y)
      | _, _ => None
      end
  end.

(** [sorted([a, b])]: the sort of a list of two elements makes the one
    comparison [b < a] and exchanges the two when it holds. *)
Definition sorted2 (a b : cell) : option (cell * cell) :=
  match py_lt b a with
  | Some true => Some (b, a)
  | Some false => Some (a, b)
  | None => None
  end.

End values.

Inductive exn := KeyError | AttributeError | ValueError | TypeError.

(** The run of a piece of the script: its value, or the exception that
    ends the script. *)
Inductive result (A : Type) :=
  | Ok (a : A)
  | Raise (e : exn).
Arguments Ok {A} a.
Arguments Raise {A} e.

Definition bind {A B} (m : result A) (f : A → result B) : result B :=
  match m with
  | Ok a => f a
  | Raise e => Raise e
  end.

Definition or_raise {A} (e : exn) (o : option A) : result A :=
  match o with
  | Some a => Ok a
  | None => Raise e
  end.

(** A loop over the rows that stops at the first exception. *)
Fixpoint for_each {A B} (f : A → result B) (l : list A) : result (list B) :=
  match l with
  | [] => Ok []
  | x :: l' =>
      bind (f x) (λ y, bind (for_each f l') (λ ys, Ok (y :: ys)))
  end.

(** *** The two files

    A file is taken after its header, as the list of its records, each
    record the texts of its fields: what [csv.writer] wrote of each value,
    and what the parser of [read_csv] takes between two separators. *)
Record perfect_line := {
  line_Rank : str;
  line_English_Meaning : str;
  line_Word : str;
  line_Languages_Found : str;
  line_Count : str
}.

Record near_line := {
  near_Rank : str;
  near_English_Meaning : str;
  near_Language_A : str;
  near_Word_A : str;
  near_Language_B : str;
  near_Word_B : str;
  near_Similarity_Score : str;
  near_Pattern_Detected : str
}.

(** The rows that [csv.writer] writes for the rows of the two detectors:
    [str] of the rank and of the count, the other values being texts
    already. *)
Definition write_perfect (r : PerfectDetector.perfect_row) : perfect_line :=
  {| line_Rank := str_of_Z (PerfectDetector.Rank r);
     line_English_Meaning := PerfectDetector.English_Meaning r;
     line_Word := PerfectDetector.Word r;
     line_Languages_Found := PerfectDetector.Languages_Found r;
     line_Count := str_of_Z (Z.of_nat (PerfectDetector.Count r)) |}.

Definition write_near (r : Fuzzy.near_row) : near_line :=
  {| near_Rank := str_of_Z (Fuzzy.Rank r);
     near_English_Meaning := Fuzzy.English_Meaning r;
     near_Language_A := Fuzzy.Language_A r;
     near_Word_A := Fuzzy.Word_A r;
     near_Language_B := Fuzzy.Language_B r;
     near_Word_B := Fuzzy.Word_B r;
     near_Similarity_Score :=
       format_3f_text (Qfloor (1000 * Fuzzy.Similarity_Score r));
     near_Pattern_Detected := Fuzzy.Pattern_Detected r |}.

(** *** The frames *)

(** A row of [perfect_df]. *)
Record perfect_record := {
  perfect_Rank : cell;
  perfect_English_Meaning : cell;
  perfect_Word : cell;
  perfect_Languages_Found : cell;
  perfect_Count : cell
}.

(** The eight columns of [perfect_transformed], [near_transformed] and
    [combined_df]. *)
Record row := {
  Rank : cell;
  English_Reference : cell;
  Word_A : cell;
  Word_B : cell;
  Lang_A : cell;
  Lang_B : cell;
  Match_Type : match_type;
  Similarity_Score : cell
}.

(** A row of the returned frame: the eight columns and [Audit_Status]. *)
Record master_row := {
  cols : row;
  Audit_Status : audit_status
}.

Section pipeline.
Context `{Values} `{Sort}.

(** The value at row [i] of a column. *)
Definition at_row (column : list cell) (i : nat) : cell :=
  default (Float NaN) (column !! i).

(** [pd.read_csv('perfect_cognates_universal.csv')] *)
Definition read_perfect (file : list perfect_line) : list perfect_record :=
  let rank := read_column (line_Rank <$> file) in
  let english_meaning := read_column (line_English_Meaning <$> file) in
  let word := read_column (line_Word <$> file) in
  let languages_found := read_column (line_Languages_Found <$> file) in
  let count := read_column (line_Count <$> file) in
  (λ i, {| perfect_Rank := at_row rank i;
           perfect_English_Meaning := at_row english_meaning i;
           perfect_Word := at_row word i;
           perfect_Languages_Found := at_row languages_found i;
           perfect_Count := at_row count i |}) <$> seq 0 (length file).

(** [pd.read_csv('near_cognates_discovered.csv')], followed by the
    renaming of the columns, the new column [Match_Type] and the selection
    of the eight columns, which leaves [Pattern_Detected] out. *)
Definition near_transformed (file : list near_line) : list row :=
  let rank := read_column (near_Rank <$> file) in
  let english_meaning := read_column (near_English_Meaning <$> file) in
  let language_a := read_column (near_Language_A <$> file) in
  let word_a := read_column (near_Word_A <$> file) in
  let language_b := read_column (near_Language_B <$> file) in
  let word_b := read_column (near_Word_B <$> file) in
  let similarity_score := read_column (near_Similarity_Score <$> file) in
  (λ i, {| Rank := at_row rank i;
           English_Reference := at_row english_meaning i;
           Word_A := at_row word_a i;
           Word_B := at_row word_b i;
           Lang_A := at_row language_a i;
           Lang_B := at_row language_b i;
           Match_Type := Near;
           Similarity_Score := at_row similarity_score i |})
    <$> seq 0 (length file).

(** The body of the loop over [perfect_df.iterrows()]: the rows that one
    record adds to [perfect_processed].  [.split] exists on a text only:
    on any other value of [Languages_Found] (a missing value is a float)
    the attribute lookup raises [AttributeError]. *)
Definition expand_perfect (r : perfect_record) : result (list row) :=
  match perfect_Languages_Found r with
  | Text languages_found =>
      let languages := split comma languages_found in
      let word := perfect_Word r in
      Ok (i ← seq 0 (length languages);
          j ← seq (i + 1) (length languages - (i + 1));
          [ {| Rank := perfect_Rank r;
               English_Reference := perfect_English_Meaning r;
               Word_A := word;
               Word_B := word;
               Lang_A := Text (strip (default [] (languages !! i)));
               Lang_B := Text (strip (default [] (languages !! j)));
               Match_Type := Perfect;
               Similarity_Score := Float (Finite 1) |} ])
  | _ => Raise AttributeError
  end.

Definition perfect_processed (perfect_df : list perfect_record)
    : result (list row) :=
  bind (for_each expand_perfect perfect_df) (λ ls, Ok (mjoin ls)).

(** [pd.concat([perfect_transformed, near_transformed],
    ignore_index=True)], column by column. *)
Definition concat_frames (p n : list row) : list row :=
  let column (f : row → cell) := concat_column (f <$> p) (f <$> n) in
  let rank := column Rank in
  let english_reference := column English_Reference in
  let word_a := column Word_A in
  let word_b := column Word_B in
  let lang_a := column Lang_A in
  let lang_b := column Lang_B in
  let similarity_score := column Similarity_Score in
  imap (λ i r, {| Rank := at_row rank i;
                  English_Reference := at_row english_reference i;
                  Word_A := at_row word_a i;
                  Word_B := at_row word_b i;
                  Lang_A := at_row lang_a i;
                  Lang_B := at_row lang_b i;
                  Match_Type := Match_Type r;
                  Similarity_Score := at_row similarity_score i |})
       (p ++ n).

(** The literal [0.7]. *)
Definition lit_0_7 : float64 := round_double (7 # 10).

(** [audit_logic]; [float(...)] is evaluated before the test, so that a
    score that is no number raises [ValueError] whatever the words are. *)
Definition audit_logic (r : row) : result audit_status :=
  match Match_Type r with
  | Perfect => Ok OK
  | Near =>
      let word_a_len := length (py_str (Word_A r)) in
      let word_b_len := length (py_str (Word_B r)) in
      bind (or_raise ValueError (py_float (Similarity_Score r)))
        (λ similarity,
           if bool_decide (word_a_len ≤ 2) || bool_decide (word_b_len ≤ 2)
              || float_ltb similarity lit_0_7
           then Ok ManualReviewNeeded
           else Ok OK)
  end.

(** [Pair_Key]; [sorted] raises [TypeError] when one code is a text and
    the other a number. *)
Definition Pair_Key (r : row) : result str :=
  bind (or_raise TypeError (sorted2 (Lang_A r) (Lang_B r)))
    (λ langs,
       Ok (py_str langs.1 ++ [hyphen] ++ py_str langs.2
             ++ [hyphen] ++ py_str (English_Reference r))).

(** A row of [combined_df] with its two new columns. *)
Record keyed_row := {
  keyed : master_row;
  key : str
}.

Definition by_match_type_desc (x y : keyed_row) : bool :=
  str_leb (match_type_str (Match_Type (cols (keyed y))))
          (match_type_str (Match_Type (cols (keyed x)))).

(** The order of [sort_values('Rank')]: numbers by value, texts as
    strings, missing values last. *)
Definition rank_leb (a b : cell) : bool :=
  match a, b with
  | _, Float NaN => true
  | Float NaN, _ => false
  | Text s, Text t => str_leb s t
  | Text _, _ => false
  | _, Text _ => true
  | _, _ =>
      match number_of a, number_of b with
      | Some x, Some y => negb (float_ltb y x)
      | _, _ => true
      end
  end.

Definition by_rank (x y : master_row) : bool :=
  rank_leb (Rank (cols x)) (Rank (cols y)).

(** The values of a column can be sorted when those that are not missing
    are all texts or all numbers. *)
Definition sortable (column : list cell) : bool :=
  let present := filter (λ v, is_nan v = false) column in
  forallb is_text present || forallb (λ v, negb (is_text v)) present.

(** The frame before the audit. *)
Definition combined_df (perfect_file : list perfect_line)
    (near_file : list near_line) : result (list row) :=
  bind (perfect_processed (read_perfect perfect_file))
    (λ processed,
       match processed with
       | [] => Raise KeyError
       | _ :: _ => Ok (concat_frames processed (near_transformed near_file))
       end).

(** [combined_df] with the columns [Audit_Status] and [Pair_Key]. *)
Definition keyed_rows (combined : list row) (statuses : list audit_status)
    (keys : list str) : list keyed_row :=
  zip_with (λ r k, {| keyed := r; key := k |})
    (zip_with (λ r s, {| cols := r; Audit_Status := s |}) combined statuses)
    keys.

(** [recreate_master_cognate], from the two files to the returned frame.
    With no row in [perfect_processed], [pd.DataFrame([])] has no column
    and the selection of the eight columns raises [KeyError]. *)
Definition recreate_master_cognate (perfect_file : list perfect_line)
    (near_file : list near_line) : result (list master_row) :=
  bind (combined_df perfect_file near_file) (λ combined,
  bind (for_each audit_logic combined) (λ statuses,
  bind (for_each Pair_Key combined) (λ keys,
    let by_type :=
      sort_values by_match_type_desc (keyed_rows combined statuses keys) in
    let unique := keyed <$> drop_duplicates key by_type in
    if sortable (Rank ∘ cols <$> unique)
    then Ok (sort_values by_rank unique)
    else Raise TypeError))).

End pipeline.

(** *** Notions used in the statements *)

Section notions.
Context `{Values}.

(** The pair key of a row: the texts of the two language codes, in the
    order that [sorted] gives them, and the text of the reference. *)
Definition pair_key (r : row) : option (str * str * str) :=
  match sorted2 (Lang_A r) (Lang_B r) with
  | Some langs =>
      Some (py_str langs.1, py_str langs.2, py_str (English_Reference r))
  | None => None
  end.

Definition hyphen_free (r : row) : Prop :=
  hyphen ∉ py_str (Lang_A r) ∧ hyphen ∉ py_str (Lang_B r).

#[global] Instance hyphen_free_dec r : Decision (hyphen_free r).
Proof. unfold hyphen_free. apply _. Defined.

End notions.

(** A row of the combined frame against the row of [perfect_transformed]
    or [near_transformed] that it comes from: the same values, up to the
    integers that [pd.concat] has made floats. *)
Definition cast_row (r r' : row) : Prop :=
  Match_Type r' = Match_Type r ∧
  cast_of (Rank r) (Rank r') ∧
  cast_of (English_Reference r) (English_Reference r') ∧
  cast_of (Word_A r) (Word_A r') ∧
  cast_of (Word_B r) (Word_B r') ∧
  cast_of (Lang_A r) (Lang_A r') ∧
  cast_of (Lang_B r) (Lang_B r') ∧
  cast_of (Similarity_Score r) (Similarity_Score r').

(** The row that one pair of the languages of a record adds to
    [perfect_processed]. *)
Definition perfect_pair_row (r : perfect_record) (p : str * str) : row :=
  {| Rank := perfect_Rank r;
     English_Reference := perfect_English_Meaning r;
     Word_A := perfect_Word r;
     Word_B := perfect_Word r;
     Lang_A := Text (strip p.1);
     Lang_B := Text (strip p.2);
     Match_Type := Perfect;
     Similarity_Score := Float (Finite 1) |}.

(** A value whose text has two characters at most: a text that short, or
    an integer from -9 to 99. *)
Definition short_word (v : cell) : Prop :=
  match v with
  | Text s => length s ≤ 2
  | Int z => (-9 ≤ z ≤ 99)%Z
  | _ => False
  end.

#[global] Instance short_word_dec v : Decision (short_word v).
Proof. destruct v; simpl; apply _. Defined.

End Frame.

(** ** Reference implementations of the values

    [pd.read_csv] with its defaults, [pd.concat], [float] and [str] as
    Python and pandas document them; as for [difflib] above, they make the
    scripts run inside Rocq, and show that the laws can be met.  The
    column of [read_column] is that of a file which the parser reads in
    one piece: a long file is read in pieces ([low_memory]), and each
    piece of a column is typed on its own.  The properties of the script
    are proved from the laws, which do not depend on it. *)
Module pandas.

(** The texts that [read_csv] takes for a missing value, by default. *)
Definition na_values : list str :=
  [] :: (lit <$> [ "#N/A"; "#N/A N/A"; "#NA"; "-1.#IND"; "-1.#QNAN"; "-NaN";
                   "-nan"; "1.#IND"; "1.#QNAN"; "<NA>"; "N/A"; "NA"; "NULL";
                   "NaN"; "None"; "n/a"; "nan"; "null" ])%string.

Definition is_na (s : str) : bool := bool_decide (s ∈ na_values).

Fixpoint take_while {A} (p : A → bool) (l : list A) : list A :=
  match l with
  | x :: l' => if p x then x :: take_while p l' else []
  | [] => []
  end.

Fixpoint drop_while {A} (p : A → bool) (l : list A) : list A :=
  match l with
  | x :: l' => if p x then drop_while p l' else l
  | [] => []
  end.

(** The white space of the C parser, and the decimal digits. *)
Definition is_c_space (c : N) : bool :=
  bool_decide (c = 32)%N || bool_decide (9 ≤ c ≤ 13)%N.

Definition is_digit (c : N) : bool := bool_decide (48 ≤ c ≤ 57)%N.

Definition digits_value (ds : str) : Z :=
  foldl (λ acc c, acc * 10 + (Z.of_N c - 48))%Z 0%Z ds.

(** The sign that a number may start with. *)
Definition read_sign (s : str) : bool * str :=
  match s with
  | 45%N :: s' => (true, s')
  | 43%N :: s' => (false, s')
  | _ => (false, s)
  end.

Definition signed (negative : bool) (z : Z) : Z :=
  if negative then (- z)%Z else z.

(** An integer field read against the bounds of its type: white space, a
    sign, digits, white space.  The bounds are checked as the digits are
    read, before what follows them. *)
Inductive int_field := NoInt | TooLarge | IntField (z : Z).

Definition scan_int (lo hi : Z) (s : str) : int_field :=
  let '(negative, s) := read_sign (drop_while is_c_space s) in
  let ds := take_while is_digit s in
  if bool_decide (ds = []) then NoInt
  else
    let z := signed negative (digits_value ds) in
    if bool_decide (lo ≤ z ≤ hi)%Z then
      if forallb is_c_space (drop_while is_digit s) then IntField z else NoInt
    else TooLarge.

(** The exponent of a float field: "e" or "E", a sign, digits.  Without
    digits the "e" is not part of the number. *)
Definition read_exponent (s : str) : Z * str :=
  match s with
  | c :: s' =>
      if bool_decide (c = 101)%N || bool_decide (c = 69)%N then
        let '(negative, s'') := read_sign s' in
        let ds := take_while is_digit s'' in
        if bool_decide (ds = []) then (0%Z, s)
        else (signed negative (digits_value ds), drop_while is_digit s'')
      else (0%Z, s)
  | [] => (0%Z, s)
  end.

(** The float that a decimal text denotes: a sign, digits, a point and
    digits, an exponent; [None] without a digit before the exponent.  The
    text that follows the number is returned with it. *)
Definition read_decimal (s : str) : option (float64 * str) :=
  let '(negative, s) := read_sign s in
  let int_part := take_while is_digit s in
  let s := drop_while is_digit s in
  let '(frac_part, s) :=
    match s with
    | 46%N :: s' => (take_while is_digit s', drop_while is_digit s')
    | _ => ([], s)
    end in
  if bool_decide (int_part ++ frac_part = []) then None
  else
    let '(e, s) := read_exponent s in
    let m := digits_value (int_part ++ frac_part) in
    Some (round_signed negative
            (inject_Z m * Qpower 10 (e - Z.of_nat (length frac_part))), s).

Definition lower (s : str) : str :=
  (λ c, if bool_decide (65 ≤ c ≤ 90)%N then (c + 32)%N else c) <$> s.

(** The names of the infinities, whatever the case of their letters. *)
Definition read_inf (s : str) : option float64 :=
  let '(negative, s') := read_sign s in
  if bool_decide (lower s' = lit "inf") || bool_decide (lower s' = lit "infinity")
  then Some (Inf negative) else None.

(** A float field: a decimal number between white space, rounded to the
    nearest double, or an infinity. *)
Definition read_float (s : str) : option float64 :=
  match read_decimal (drop_while is_c_space s) with
  | Some (x, rest) =>
      if forallb is_c_space rest then Some x else read_inf s
  | None => read_inf s
  end.

Definition read_bool (s : str) : option bool :=
  if bool_decide (s ∈ lit <$> ["True"; "TRUE"; "true"]%string) then Some true
  else if bool_decide (s ∈ lit <$> ["False"; "FALSE"; "false"]%string)
  then Some false
  else None.

Definition INT64_MAX : Z := 2 ^ 63 - 1.
Definition INT64_MIN : Z := - 2 ^ 63.
Definition UINT64_MAX : Z := 2 ^ 64 - 1.

Definition nan : cell := Float NaN.

(** An attempt to read a column with one type.  The fields are read in
    order, and the first that does not fit ends the attempt: the next type
    is tried when it is no number of the type ([Invalid]), and a number
    beyond the bounds is reported apart ([Overflow]). *)
Inductive attempt := Done (column : list cell) | Invalid | Overflow.

Definition and_then (v : cell) (a : attempt) : attempt :=
  match a with
  | Done column => Done (v :: column)
  | _ => a
  end.

Fixpoint try_int64 (fields : list str) : attempt :=
  match fields with
  | [] => Done []
  | s :: fields' =>
      if is_na s then and_then nan (try_int64 fields')
      else match scan_int INT64_MIN INT64_MAX s with
           | IntField z => and_then (Int z) (try_int64 fields')
           | NoInt => Invalid
           | TooLarge => Overflow
           end
  end.

(** A field that starts with a minus sign is passed over by the attempt
    at unsigned integers, and makes it fail at the end. *)
Definition is_signed (s : str) : bool :=
  match drop_while is_c_space s with
  | 45%N :: _ => true
  | _ => false
  end.

Fixpoint try_uint64 (fields : list str) : attempt :=
  match fields with
  | [] => Done []
  | s :: fields' =>
      if is_na s then and_then nan (try_uint64 fields')
      else if is_signed s then and_then (Int 0) (try_uint64 fields')
      else match scan_int 0 UINT64_MAX s with
           | IntField z => and_then (Int z) (try_uint64 fields')
           | NoInt => Invalid
           | TooLarge => Overflow
           end
  end.

Fixpoint try_with {A} (read : str → option A) (value : A → cell)
    (fields : list str) : attempt :=
  match fields with
  | [] => Done []
  | s :: fields' =>
      if is_na s then and_then nan (try_with read value fields')
      else match read s with
           | Some x => and_then (value x) (try_with read value fields')
           | None => Invalid
           end
  end.

(** The column as texts, a missing-value marker being [nan] or, when the
    markers are not looked for, its text. *)
Definition as_text (na_filter : bool) (fields : list str) : list cell :=
  (λ s, if na_filter && is_na s then nan else Text s) <$> fields.

(** An integer column with a missing value becomes a column of floats. *)
Definition to_float (v : cell) : cell :=
  match v with
  | Int z => Float (float_of_Z z)
  | _ => v
  end.

Definition upcast (column : list cell) : list cell :=
  if existsb is_nan column then to_float <$> column else column.

(** The attempts that follow the integers: floats, booleans, texts. *)
Definition read_other (fields : list str) : list cell :=
  match try_with read_float Float fields with
  | Done column => column
  | _ =>
      match try_with read_bool Bool fields with
      | Done column => column
      | _ => as_text true fields
      end
  end.

(** [read_csv] on the fields of one column, no [dtype] being given.  The
    parser tries [int64], then [uint64] when an integer is too large,
    [float64] and [bool], and keeps the texts when nothing else fits; a
    missing-value marker is [nan], which makes floats of integers and
    leaves booleans and texts as they are. *)
Definition read_column (fields : list str) : list cell :=
  match try_int64 fields with
  | Done column => upcast column
  | Invalid => read_other fields
  | Overflow =>
      match try_uint64 fields with
      | Done column =>
          let seen_uint :=
            existsb (λ v, match v with
                          | Int z => bool_decide (INT64_MAX < z)%Z
                          | _ => false
                          end) column in
          let seen_sint := existsb is_signed fields in
          let seen_null := existsb is_na fields in
          if seen_uint && (seen_sint || seen_null) then as_text false fields
          else if seen_sint then as_text true fields
          else column
      | Invalid => read_other fields
      | Overflow => as_text true fields
      end
  end.

(** [pd.concat]: the type of a column of values, and the common type of
    two columns.  Integers and floats together are floats; any other
    mixture keeps the values as they are. *)
Inductive dtype := int64 | uint64 | float64_ | bool_ | object.

Definition dtype_of (column : list cell) : dtype :=
  if forallb (λ v, match v with Int z => bool_decide (z ≤ INT64_MAX)%Z | _ => false end)
       column then int64
  else if forallb (λ v, match v with Int _ => true | _ => false end) column
  then uint64
  else if forallb (λ v, match v with Float _ => true | _ => false end) column
  then float64_
  else if forallb (λ v, match v with Bool _ => true | _ => false end) column
  then bool_
  else object.

Definition is_numeric (d : dtype) : bool :=
  match d with
  | int64 | uint64 | float64_ => true
  | _ => false
  end.

Definition same_dtype (d1 d2 : dtype) : bool :=
  match d1, d2 with
  | int64, int64 | uint64, uint64 | float64_, float64_ | bool_, bool_
  | object, object => true
  | _, _ => false
  end.

Definition concat_column (p n : list cell) : list cell :=
  match p, n with
  | [], _ | _, [] => p ++ n
  | _, _ =>
      let dp := dtype_of p in
      let dn := dtype_of n in
      if is_numeric dp && is_numeric dn && negb (same_dtype dp dn)
      then to_float <$> (p ++ n)
      else p ++ n
  end.

End pandas.

Module python.

(** The integer part of the decimal logarithm of a positive rational. *)
Import pandas (take_while, drop_while, read_sign, read_decimal, lower).

Fixpoint Qlog10_from (fuel : nat) (a : Q) (e : Z) : Z :=
  match fuel with
  | 0 => e
  | S fuel' =>
      if Qle_bool (Qpower 10 (e + 1)) a then Qlog10_from fuel' a (e + 1)%Z else e
  end.

Definition Qlog10 (a : Q) : Z :=
  Qlog10_from 4 a ((Qlog2 a * 30102) `div` 100000 - 1)%Z.

(** The shortest decimal number that [float] reads back as the double
    [a], [0 < a]: its digits and the exponent of the first of them.  With
    [p] digits the two neighbours of [a] are tried, the nearer first, and
    the even one first when [a] is half way. *)
Definition reads_back (a : Q) (c : Z) (scale : Q) : bool :=
  match round_double (inject_Z c * scale) with
  | Finite x => Qeq_bool x a
  | _ => false
  end.

Fixpoint shortest_from (fuel : nat) (a : Q) (e : Z) (p : Z) : Z * Z :=
  let scale := Qpower 10 (e - p + 1) in
  let lo := Qfloor (a / scale) in
  let hi := (lo + 1)%Z in
  let nearer_lo :=
    match (a / scale - inject_Z lo ?= inject_Z hi - a / scale)%Q with
    | Lt => true
    | Eq => Z.even lo
    | Gt => false
    end in
  let first := if nearer_lo then lo else hi in
  let second := if nearer_lo then hi else lo in
  match fuel with
  | 0 => (first, p)
  | S fuel' =>
      if reads_back a first scale then (first, p)
      else if reads_back a second scale then (second, p)
      else shortest_from fuel' a e (p + 1)
  end.

(** The digits of [str(x)], without the zeros that end them after the
    first digit, and the position of the decimal point, counted from the
    first digit. *)
Definition rstrip_zeros (ds : str) : str :=
  reverse (drop_while (λ c, bool_decide (c = 48%N)) (reverse ds)).

Definition shortest_digits (a : Q) : str * Z :=
  let e := Qlog10 a in
  let '(c, p) := shortest_from 17 a e 1 in
  let ds := str_of_N (Z.to_N c) in
  (take 1 ds ++ rstrip_zeros (drop 1 ds),
   (e + 1 + (Z.of_nat (length ds) - p))%Z).

Definition zeros (n : Z) : str := replicate (Z.to_nat n) 48%N.

(** [str(x)] for a finite float: the shortest digits that read back as
    [x], with an exponent when the decimal point is more than 16 places
    to the right of the first digit or more than 3 to its left. *)
Definition str_of_float (x : Q) : str :=
  if Qeq_bool x 0 then lit "0.0"
  else
    let a := if Qle_bool 0 x then x else (- x)%Q in
    let '(ds, decpt) := shortest_digits a in
    let n := Z.of_nat (length ds) in
    let body :=
      if bool_decide (-4 < decpt ≤ 16)%Z then
        if bool_decide (decpt ≤ 0)%Z then lit "0." ++ zeros (- decpt) ++ ds
        else if bool_decide (n ≤ decpt)%Z
        then ds ++ zeros (decpt - n) ++ lit ".0"
        else take (Z.to_nat decpt) ds ++ [46%N] ++ drop (Z.to_nat decpt) ds
      else
        let e := (decpt - 1)%Z in
        let es := str_of_N (Z.to_N (Z.abs e)) in
        take 1 ds
          ++ (if bool_decide (1 < n)%Z then [46%N] ++ drop 1 ds else [])
          ++ [101%N] ++ [if bool_decide (e < 0)%Z then 45%N else 43%N]
          ++ (if bool_decide (length es < 2) then [48%N] else []) ++ es in
    if Qle_bool 0 x then body else hyphen :: body.

(** [float(s)]: white space around a sign and a decimal number, an
    infinity or "nan"; one underscore may stand between two digits. *)
Fixpoint underscores_ok (previous : option N) (s : str) : bool :=
  match s with
  | [] => true
  | 95%N :: s' =>
      match previous, s' with
      | Some p, c :: _ =>
          pandas.is_digit p && pandas.is_digit c && underscores_ok (Some 95%N) s'
      | _, _ => false
      end
  | c :: s' => underscores_ok (Some c) s'
  end.

Definition float_of_str (s : str) : option float64 :=
  let s := strip s in
  if underscores_ok None s then
    let s := filter (λ c, c ≠ 95%N) s in
    let '(negative, s') := read_sign s in
    if bool_decide (lower s' = lit "inf") || bool_decide (lower s' = lit "infinity")
    then Some (Inf negative)
    else if bool_decide (lower s' = lit "nan") then Some NaN
    else
      match read_decimal s with
      | Some (x, []) => Some x
      | _ => None
      end
  else None.

End python.

Definition python_values : Values :=
  {| read_column := pandas.read_column;
     concat_column := pandas.concat_column;
     float_of_str := python.float_of_str;
     str_of_float := python.str_of_float |}.

(** A column that [read_column] has read as numbers or booleans: a value
    for each field, none of them a text. *)
Definition typed_column (fields : list str) (column : list cell) : Prop :=
  length column = length fields ∧ Forall (λ c, is_text c = false) column.

(** The same float, as a test. *)
Definition float64_eqb (x y : float64) : bool :=
  match x, y with
  | Finite a, Finite b =>
      (Qnum a =? Qnum b)%Z && (Qden a =? Qden b)%positive
  | NegZero, NegZero => true
  | Inf a, Inf b => bool_decide (a = b)
  | NaN, NaN => true
  | _, _ => false
  end.

(** The field of [k] thousandths is no missing value and no integer, and
    is read as the double nearest to [k / 1000]. *)
Definition three_decimals_ok (k : Z) : bool :=
  negb (pandas.is_na (format_3f_text k))
  && match pandas.scan_int pandas.INT64_MIN pandas.INT64_MAX
             (format_3f_text k) with
     | pandas.NoInt => true
     | _ => false
     end
  && match pandas.read_float (format_3f_text k) with
     | Some x => float64_eqb x (round_double (k # 1000))
     | None => false
     end.

(** The double nearest to [k / 1000] is not below the literal [0.7]. *)
Definition above_threshold (k : Z) : bool :=
  negb (float_ltb (round_double (k # 1000)) Frame.lit_0_7).



(** ** Notions used in the statements *)

(** [n] characters are shared at the front, resp. at the back. *)
Definition is_common_prefix (a b : str) (n : nat) : Prop :=
  n ≤ length a ∧ n ≤ length b ∧ take n a = take n b.

Definition is_common_suffix (a b : str) (n : nat) : Prop :=
  n ≤ length a ∧ n ≤ length b ∧ drop (length a - n) a = drop (length b - n) b.

Section lexicon_bound.
Import Fuzzy.

(** What [load_raw_data] keeps of the ranks: [max_rank] is the largest
    rank among the loaded entries of all languages, or 0 when none is
    positive. *)
Definition max_rank_observed (data : raw_data) : Prop :=
  (0 ≤ max_rank data)%Z ∧
  (∀ lang r, is_Some (by_lang_rank data !! (lang, r)) →
             (r ≤ max_rank data)%Z ∧ lang ∈ languages data) ∧
  (max_rank data = 0%Z ∨
   ∃ lang, is_Some (by_lang_rank data !! (lang, max_rank data))).

End lexicon_bound.

(** Where the entries of a rank come from, and in which order. *)
Definition entry_order (em : str) (blr : gmap (str * Z) str)
    (langs : gset str) (rank : Z) (e1 e2 : str * str) : Prop :=
  (e2.1 ∈ langs ∧ e2.2 = strip (default [] (blr !! (e2.1, rank)))) ∧
  (e1 = (lit "en", em) ∨
   (e1.1 ∈ langs ∧ e1.2 = strip (default [] (blr !! (e1.1, rank))) ∧
    str_le e1.1 e2.1 ∧ e1.1 ≠ e2.1)).

Definition all_space (s : str) : bool := forallb is_space s.

(** What a row of [raw_data.csv] brings when it is kept: the trimmed
    language, the rank and the trimmed word. *)
Definition parse_row (row : Fuzzy.raw_row) : option (str * Z * str) :=
  let lang := strip (Fuzzy.language row) in
  if bool_decide (lang = []) then None
  else match Fuzzy.rank row with
       | None => None
       | Some rank =>
           let word := strip (Fuzzy.word row) in
           if bool_decide (word = []) then None else Some (lang, rank, word)
       end.

(** The word that a row brings for a given language and rank. *)
Definition row_for (lang : str) (r : Z) (row : Fuzzy.raw_row) : option str :=
  match parse_row row with
  | Some (l, r', w) => if bool_decide (l = lang ∧ r' = r) then Some w else None
  | None => None
  end.


Module WordDict.
Section word_dict.
Import PerfectDetector.

(** The dict [word_langs] filled from a list of codes, each code [c]
    bringing the word [f c] unless it is empty. *)
Variable f : str → str.

Definition dict_step (d : list (str * list str)) (c : str) :=
  if bool_decide (f c = []) then d else dict_append d (f c) c.

(** [w1] first appears among the words of [pre] before [w2] does. *)
Definition first_before (pre : list str) (w1 w2 : str) : Prop :=
  ∃ i1 c1 i2 c2,
    list_find (λ c, f c = w1) pre = Some (i1, c1) ∧
    list_find (λ c, f c = w2) pre = Some (i2, c2) ∧ i1 < i2.

(** The state of the dict after the codes [pre]: one entry per word, with
    the codes that bring it, in the order of their first appearance. *)
Record dict_inv (pre : list str) (d : list (str * list str)) : Prop := {
  dict_nodup : NoDup d.*1;
  dict_codes w cs :
    (w, cs) ∈ d → cs = filter (λ c, f c = w) pre ∧ cs ≠ [] ∧ w ≠ [];
  dict_complete c : c ∈ pre → f c ≠ [] → f c ∈ d.*1;
  dict_order : StronglySorted (first_before pre) d.*1
}.

End word_dict.
End WordDict.

(** ** Concrete inputs *)

Definition nation_english : list str := [lit "nation"; lit "information"].

Definition nation_rows : list Fuzzy.raw_row :=
  [ {| Fuzzy.language := lit "es"; Fuzzy.rank := Some 1%Z; Fuzzy.word := lit "nacion" |};
    {| Fuzzy.language := lit "es"; Fuzzy.rank := Some 2%Z; Fuzzy.word := lit "informacion" |};
    {| Fuzzy.language := lit "fr"; Fuzzy.rank := Some 1%Z; Fuzzy.word := lit "nation" |} ].

Definition nation_data : Fuzzy.raw_data := Fuzzy.load_raw_data nation_rows.

Definition nation_near_rows : list Fuzzy.near_row :=
  Fuzzy.find_near_cognates (H := python_numeric) nation_english
    (Fuzzy.by_lang_rank nation_data) (Fuzzy.languages nation_data)
    (Fuzzy.max_rank nation_data) Fuzzy.threshold_default.

(** Two words of 108 and 109 characters that share their first 76: the
    ratio is 152/217 = 0.70046..., above the threshold, and the score
    written in the row is "0.700". *)
Definition long_word_a : str := replicate 76 120%N ++ replicate 32 121%N.
Definition long_word_b : str := replicate 76 120%N ++ replicate 33 122%N.

Definition long_rows : list Fuzzy.near_row :=
  Fuzzy.run (H := python_numeric) [long_word_a]
    [ {| Fuzzy.language := lit "es"; Fuzzy.rank := Some 1%Z;
         Fuzzy.word := long_word_b |} ].

Definition hotel_lexicon : gmap (str * Z) str :=
  {[ (lit "es", 1%Z) := lit "hotel"; (lit "fr", 1%Z) := lit "hotel" ]}.

Definition dutch_lexicon : gmap (str * Z) str :=
  {[ (lit "de", 1%Z) := lit "hotel"; (lit "nl", 1%Z) := lit "hotel" ]}.

Definition zebra_lexicon : gmap (str * Z) str :=
  {[ (lit "es", 1%Z) := lit "zebra";
     (lit "fr", 1%Z) := lit "apple"; (lit "it", 1%Z) := lit "apple" ]}.

Definition hotel_record : PerfectDetector.perfect_row :=
  {| PerfectDetector.Rank := 1;
     PerfectDetector.English_Meaning := lit "hotel";
     PerfectDetector.Word := lit "hotel";
     PerfectDetector.Languages_Found := lit "en,es,fr";
     PerfectDetector.Count := 3 |}.

(** A Near row on the pair (es, en) and the reference "hotel", which the
    record [hotel_record] covers as well. *)
Definition hotel_near_row : Fuzzy.near_row :=
  {| Fuzzy.Rank := 1;
     Fuzzy.English_Meaning := lit "hotel";
     Fuzzy.Language_A := lit "es";
     Fuzzy.Word_A := lit "hostel";
     Fuzzy.Language_B := lit "en";
     Fuzzy.Word_B := lit "hotel";
     Fuzzy.Similarity_Score := 909 # 1000;
     Fuzzy.Pattern_Detected := lit "delta: 's' vs ''" |}.

Definition hotel_master : option (list Master.master_row) :=
  Master.recreate_master_cognate (H := merge_sort_values)
    [hotel_record] [hotel_near_row].

Definition blank_row : Fuzzy.raw_row :=
  {| Fuzzy.language := lit "es"; Fuzzy.rank := None; Fuzzy.word := lit "casa" |}.

Definition hotel_perfect_rows_list : list PerfectDetector.perfect_row :=
  PerfectDetector.find_universal_perfect_cognates [lit "hotel"] hotel_lexicon.


(** The file of the Perfect detector with the record of "hotel" in
    Spanish and French. *)
Definition hotel_perfect_file : list Frame.perfect_line :=
  [ {| Frame.line_Rank := lit "1";
       Frame.line_English_Meaning := lit "hotel";
       Frame.line_Word := lit "hotel";
       Frame.line_Languages_Found := lit "es,fr";
       Frame.line_Count := lit "2" |} ].

(** A Near file whose first record has the two-letter word "NA". *)
Definition na_near_file : list Frame.near_line :=
  [ {| Frame.near_Rank := lit "2";
       Frame.near_English_Meaning := lit "in the";
       Frame.near_Language_A := lit "pt";
       Frame.near_Word_A := lit "NA";
       Frame.near_Language_B := lit "gl";
       Frame.near_Word_B := lit "nata";
       Frame.near_Similarity_Score := lit "0.900";
       Frame.near_Pattern_Detected := lit "delta: 'NA' vs 'nata'" |};
    {| Frame.near_Rank := lit "3";
       Frame.near_English_Meaning := lit "house";
       Frame.near_Language_A := lit "es";
       Frame.near_Word_A := lit "casa";
       Frame.near_Language_B := lit "it";
       Frame.near_Word_B := lit "cassa";
       Frame.near_Similarity_Score := lit "0.889";
       Frame.near_Pattern_Detected := lit "delta: '' vs 's'" |} ].

(** A lexicon in which Spanish and French have the words "0001" and
    "0002" at rank 2, and share "hotel" with English at rank 1. *)
Definition numbers_english : list str := [lit "hotel"; lit "zero"].

Definition numbers_rows : list Fuzzy.raw_row :=
  [ {| Fuzzy.language := lit "es"; Fuzzy.rank := Some 1%Z; Fuzzy.word := lit "hotel" |};
    {| Fuzzy.language := lit "fr"; Fuzzy.rank := Some 1%Z; Fuzzy.word := lit "hotel" |};
    {| Fuzzy.language := lit "es"; Fuzzy.rank := Some 2%Z; Fuzzy.word := lit "0001" |};
    {| Fuzzy.language := lit "fr"; Fuzzy.rank := Some 2%Z; Fuzzy.word := lit "0002" |} ].

(** Two files on the language codes "a", "b-c", "a-b" and "c": the pairs
    (a, b-c) and (a-b, c) are different, and each has a Perfect and a Near
    row for the reference "d". *)
Definition collision_perfect_file : list Frame.perfect_line :=
  [ {| Frame.line_Rank := lit "1";
       Frame.line_English_Meaning := lit "d";
       Frame.line_Word := lit "word";
       Frame.line_Languages_Found := lit "a,b-c";
       Frame.line_Count := lit "2" |};
    {| Frame.line_Rank := lit "1";
       Frame.line_English_Meaning := lit "d";
       Frame.line_Word := lit "word";
       Frame.line_Languages_Found := lit "a-b,c";
       Frame.line_Count := lit "2" |} ].

Definition collision_near_file : list Frame.near_line :=
  [ {| Frame.near_Rank := lit "1";
       Frame.near_English_Meaning := lit "d";
       Frame.near_Language_A := lit "a";
       Frame.near_Word_A := lit "word";
       Frame.near_Language_B := lit "b-c";
       Frame.near_Word_B := lit "ward";
       Frame.near_Similarity_Score := lit "0.750";
       Frame.near_Pattern_Detected := lit "delta: 'o' vs 'a'" |};
    {| Frame.near_Rank := lit "1";
       Frame.near_English_Meaning := lit "d";
       Frame.near_Language_A := lit "a-b";
       Frame.near_Word_A := lit "word";
       Frame.near_Language_B := lit "c";
       Frame.near_Word_B := lit "ward";
       Frame.near_Similarity_Score := lit "0.750";
       Frame.near_Pattern_Detected := lit "delta: 'o' vs 'a'" |} ].

Definition collision_row (lang_a lang_b : String.string) (word_b : String.string)
    (match_type : Master.match_type) (score : Q) : Frame.row :=
  {| Frame.Rank := Int 1;
     Frame.English_Reference := Text (lit "d");
     Frame.Word_A := Text (lit "word");
     Frame.Word_B := Text (lit word_b);
     Frame.Lang_A := Text (lit lang_a);
     Frame.Lang_B := Text (lit lang_b);
     Frame.Match_Type := match_type;
     Frame.Similarity_Score := Float (Finite score) |}.

Definition numbers_near_rows : list Fuzzy.near_row :=
  Fuzzy.run (H := python_numeric) numbers_english numbers_rows.

Definition numbers_perfect_rows : list PerfectDetector.perfect_row :=
  PerfectDetector.run numbers_english numbers_rows.

(** A Near file with one row on French and Spanish for the reference
    "hotel", the pair of the record of [hotel_perfect_file]. *)
Definition hotel_near_file : list Frame.near_line :=
  [ {| Frame.near_Rank := lit "1";
       Frame.near_English_Meaning := lit "hotel";
       Frame.near_Language_A := lit "fr";
       Frame.near_Word_A := lit "hostel";
       Frame.near_Language_B := lit "es";
       Frame.near_Word_B := lit "hotel";
       Frame.near_Similarity_Score := lit "0.909";
       Frame.near_Pattern_Detected := lit "delta: 's' vs ''" |} ].

(** A Near row whose two words were read as the integers 1 and 2. *)
Definition integers_row : Frame.row :=
  {| Frame.Rank := Int 2;
     Frame.English_Reference := Text (lit "zero");
     Frame.Word_A := Int 1;
     Frame.Word_B := Int 2;
     Frame.Lang_A := Text (lit "es");
     Frame.Lang_B := Text (lit "fr");
     Frame.Match_Type := Master.Near;
     Frame.Similarity_Score := Float (Finite (3 # 4)) |}.

(** * Properties *)

Example delta_nacion_nacao :
  Fuzzy.detect_delta (lit "nacion") (lit "nacao") = lit "delta: 'ion' vs 'ao'".
Proof. vm_compute. reflexivity. Qed.

Example ratio_nacion_nacao : difflib.ratio (lit "nacion") (lit "nacao") = 8 # 11.
Proof. vm_compute. reflexivity. Qed.

(** ** Pattern delta: prefix, suffix and middles *)

Section delta.
Import Fuzzy.

Lemma index_eqb_true (a b : str) i j :
  index_eqb a i b j = true ↔ ∃ x, a !! i = Some x ∧ b !! j = Some x.
Proof.
  unfold index_eqb.
  destruct (a !! i) as [x|], (b !! j) as [y|]; try naive_solver.
  rewrite bool_decide_eq_true. naive_solver.
Qed.

Lemma index_eqb_in_range (a b : str) i j :
  i < length a → j < length b →
  index_eqb a i b j = true ↔ a !! i = b !! j.
Proof.
  intros [x Hx]%lookup_lt_is_Some_2 [y Hy]%lookup_lt_is_Some_2.
  rewrite index_eqb_true, Hx, Hy. naive_solver.
Qed.

Lemma neg_index_in_range (a : str) k :
  1 ≤ k ≤ length a → neg_index a k = a !! (length a - k).
Proof. intros Hk. unfold neg_index. by rewrite bool_decide_eq_true_2. Qed.

Lemma neg_index_eqb_in_range (a b : str) k :
  1 ≤ k ≤ length a → k ≤ length b →
  neg_index_eqb a b k = true ↔ a !! (length a - k) = b !! (length b - k).
Proof.
  intros Ha Hb. unfold neg_index_eqb.
  rewrite !neg_index_in_range by lia.
  destruct (lookup_lt_is_Some_2 a (length a - k)) as [x Hx]; [lia|].
  destruct (lookup_lt_is_Some_2 b (length b - k)) as [y Hy]; [lia|].
  rewrite Hx, Hy, bool_decide_eq_true. naive_solver.
Qed.

Lemma take_eq_lookup (a b : str) n :
  n ≤ length a → n ≤ length b →
  take n a = take n b ↔ ∀ k, k < n → a !! k = b !! k.
Proof.
  intros Ha Hb. split.
  - intros Heq k Hk.
    rewrite <-(lookup_take_lt a n k), <-(lookup_take_lt b n k) by done.
    by rewrite Heq.
  - intros Hlk. apply list_eq. intros k.
    destruct (decide (k < n)) as [Hk|Hk].
    + rewrite !lookup_take_lt by done. auto.
    + rewrite !lookup_take_ge by lia. done.
Qed.

Lemma drop_eq_lookup (a b : str) n :
  n ≤ length a → n ≤ length b →
  drop (length a - n) a = drop (length b - n) b ↔
  ∀ k, 1 ≤ k ≤ n → a !! (length a - k) = b !! (length b - k).
Proof.
  intros Ha Hb. split.
  - intros Heq k Hk.
    pose proof (f_equal (λ l, l !! (n - k)) Heq) as Hlk. simpl in Hlk.
    rewrite !lookup_drop in Hlk.
    replace (length a - n + (n - k)) with (length a - k) in Hlk by lia.
    by replace (length b - n + (n - k)) with (length b - k) in Hlk by lia.
  - intros Hlk. apply list_eq. intros i. rewrite !lookup_drop.
    destruct (decide (i < n)) as [Hi|Hi].
    + specialize (Hlk (n - i)).
      replace (length a - (n - i)) with (length a - n + i) in Hlk by lia.
      replace (length b - (n - i)) with (length b - n + i) in Hlk by lia.
      apply Hlk. lia.
    + rewrite !lookup_ge_None_2 by lia. done.
Qed.

(** The loops stop where their guard fails: the fuel is never what ends
    them. *)
Lemma prefix_loop_spec fuel (a b : str) n i :
  n ≤ length a → n ≤ length b → i ≤ n → n - i ≤ fuel →
  (∀ k, k < i → a !! k = b !! k) →
  let r := prefix_loop fuel a b n i in
  i ≤ r ≤ n ∧ (∀ k, k < r → a !! k = b !! k) ∧ (r < n → a !! r ≠ b !! r).
Proof.
  intros Ha Hb. revert i.
  induction fuel as [|fuel IH]; intros i Hi Hfuel Hpre; simpl.
  - split; [lia|]. split; [done|lia].
  - destruct (decide (i < n)) as [Hlt|Hge].
    + rewrite bool_decide_eq_true_2 by done. simpl.
      destruct (index_eqb a i b i) eqn:Heq.
      * apply index_eqb_in_range in Heq; [|lia..].
        destruct (IH (i + 1)) as (? & ? & ?); [lia|lia| |].
        { intros k Hk. destruct (decide (k = i)) as [->|]; [done|].
          apply Hpre. lia. }
        split; [lia|done].
      * split; [lia|]. split; [done|]. intros _ Hlk.
        apply index_eqb_in_range in Hlk; [congruence|lia..].
    + rewrite bool_decide_eq_false_2 by done. simpl.
      split; [lia|]. split; [done|lia].
Qed.

Lemma suffix_loop_spec fuel (a b : str) n i :
  n ≤ length a → n ≤ length b → i ≤ n → n - i ≤ fuel →
  (∀ k, 1 ≤ k ≤ i → a !! (length a - k) = b !! (length b - k)) →
  let r := suffix_loop fuel a b n i in
  i ≤ r ≤ n ∧
  (∀ k, 1 ≤ k ≤ r → a !! (length a - k) = b !! (length b - k)) ∧
  (r < n → a !! (length a - (r + 1)) ≠ b !! (length b - (r + 1))).
Proof.
  intros Ha Hb. revert i.
  induction fuel as [|fuel IH]; intros i Hi Hfuel Hsuf; simpl.
  - split; [lia|]. split; [done|lia].
  - destruct (decide (i < n)) as [Hlt|Hge].
    + rewrite bool_decide_eq_true_2 by done. simpl.
      destruct (neg_index_eqb a b (S i)) eqn:Heq.
      * apply neg_index_eqb_in_range in Heq; [|lia..].
        destruct (IH (i + 1)) as (? & ? & ?); [lia|lia| |].
        { intros k Hk. destruct (decide (k = S i)) as [->|]; [done|].
          apply Hsuf. lia. }
        split; [lia|done].
      * split; [lia|]. split; [done|]. intros _ Hlk.
        replace (i + 1) with (S i) in Hlk by lia.
        apply neg_index_eqb_in_range in Hlk; [congruence|lia..].
    + rewrite bool_decide_eq_false_2 by done. simpl.
      split; [lia|]. split; [done|lia].
Qed.

Lemma longest_common_prefix_spec (a b : str) :
  is_common_prefix a b (longest_common_prefix a b) ∧
  ∀ q, is_common_prefix a b q → q ≤ longest_common_prefix a b.
Proof.
  unfold longest_common_prefix.
  set (n := length a `min` length b).
  destruct (prefix_loop_spec n a b n 0) as (Hr & Hlk & Hstop);
    [lia..| |].
  { intros k Hk. lia. }
  set (r := prefix_loop n a b n 0) in *. split.
  - split; [lia|]. split; [lia|]. apply take_eq_lookup; [lia..|done].
  - intros q (Hqa & Hqb & Hq).
    destruct (decide (q ≤ r)) as [|Hgt]; [done|]. exfalso.
    apply Hstop; [lia|].
    apply (proj1 (take_eq_lookup a b q Hqa Hqb)); [done|lia].
Qed.

Lemma longest_common_suffix_spec (a b : str) :
  is_common_suffix a b (longest_common_suffix a b) ∧
  ∀ q, is_common_suffix a b q → q ≤ longest_common_suffix a b.
Proof.
  unfold longest_common_suffix.
  set (n := length a `min` length b).
  destruct (suffix_loop_spec n a b n 0) as (Hr & Hlk & Hstop);
    [lia..| |].
  { intros k Hk. lia. }
  set (r := suffix_loop n a b n 0) in *. split.
  - split; [lia|]. split; [lia|]. apply drop_eq_lookup; [lia..|done].
  - intros q (Hqa & Hqb & Hq).
    destruct (decide (q ≤ r)) as [|Hgt]; [done|]. exfalso.
    apply Hstop; [lia|].
    apply (proj1 (drop_eq_lookup a b q Hqa Hqb)); [done|lia].
Qed.

Lemma is_common_suffix_le (a b : str) n m :
  is_common_suffix a b n → m ≤ n → is_common_suffix a b m.
Proof.
  intros (Ha & Hb & Heq) Hm. split; [lia|]. split; [lia|].
  apply drop_eq_lookup; [lia..|]. intros k Hk.
  apply (proj1 (drop_eq_lookup a b n Ha Hb)); [done|lia].
Qed.

Lemma middle_slice (w : str) p s :
  middle w p s = slice w p (length w - s).
Proof.
  unfold middle. case_bool_decide; [done|].
  replace s with 0 by lia. by rewrite Nat.sub_0_r.
Qed.

Lemma middle_reconstruct (w : str) p s :
  p + s ≤ length w →
  w = take p w ++ middle w p s ++ drop (length w - s) w.
Proof.
  intros Hps. rewrite middle_slice. unfold slice.
  rewrite (assoc (++)), take_take_drop.
  replace (p + (length w - s - p)) with (length w - s) by lia.
  by rewrite take_drop.
Qed.

(** What [delta_lengths] returns: the longest common prefix, and the
    longest common suffix cut back to what the prefix leaves of the shorter
    word. *)
Lemma delta_lengths_spec (a b : str) :
  let p := longest_common_prefix a b in
  let s0 := longest_common_suffix a b in
  let m := length a `min` length b in
  ∃ s, delta_lengths a b = (p, s) ∧
       s = (if decide (p + s0 ≤ m) then s0 else m - p) ∧
       p + s ≤ m ∧ is_common_suffix a b s.
Proof.
  intros p s0 m.
  destruct (longest_common_prefix_spec a b) as [(Hpa & Hpb & _) _].
  destruct (longest_common_suffix_spec a b) as [Hs0 _].
  fold p in Hpa, Hpb. fold s0 in Hs0.
  unfold delta_lengths. fold p s0 m.
  destruct (decide (p + s0 ≤ m)) as [Hle|Hgt].
  - exists s0. rewrite bool_decide_eq_false_2 by lia. done.
  - exists (m - p). rewrite bool_decide_eq_true_2 by lia.
    rewrite Nat.max_0_l. split; [done|]. split; [done|].
    split; [lia|]. apply (is_common_suffix_le a b s0); [done|lia].
Qed.

Lemma detect_delta_result_nonempty (a b : str) :
  a ≠ [] → b ≠ [] →
  detect_delta_result a b =
    let '(p, s) := delta_lengths a b in
    let a_mid := middle a p s in
    let b_mid := middle b p s in
    if negb (bool_decide (a_mid = [])) || negb (bool_decide (b_mid = []))
    then Delta a_mid b_mid
    else if negb (bool_decide (a = b)) then DeltaWhole a b
    else NoDelta.
Proof.
  intros Ha Hb. unfold detect_delta_result.
  by rewrite (bool_decide_eq_false_2 _ Ha), (bool_decide_eq_false_2 _ Hb).
Qed.

(** Empty middles on both sides leave only the shared prefix and suffix. *)
Lemma middles_empty_eq (a b : str) p s :
  p + s ≤ length a → p + s ≤ length b →
  take p a = take p b → is_common_suffix a b s →
  middle a p s = [] → middle b p s = [] → a = b.
Proof.
  intros Ha Hb Hpre (_ & _ & Hsuf) Hma Hmb.
  rewrite (middle_reconstruct a p s Ha), (middle_reconstruct b p s Hb).
  by rewrite Hma, Hmb, Hpre, Hsuf.
Qed.

(** C6: [detect_delta] strips the longest common prefix and the longest
    common suffix of the two words; when the two together are longer than
    the shorter word, the suffix is cut back to what the prefix leaves of
    it, so that the two never overlap.  For non-empty words, the prefix,
    the middle and the suffix put together give back each word, and these
    middles are the ones reported. *)
Theorem delta_extraction_roundtrip (a b : str) :
  a ≠ [] → b ≠ [] →
  let p := longest_common_prefix a b in
  let s0 := longest_common_suffix a b in
  let m := length a `min` length b in
  (is_common_prefix a b p ∧ ∀ q, is_common_prefix a b q → q ≤ p) ∧
  (is_common_suffix a b s0 ∧ ∀ q, is_common_suffix a b q → q ≤ s0) ∧
  ∃ s, delta_lengths a b = (p, s) ∧
       s = (if decide (p + s0 ≤ m) then s0 else m - p) ∧
       p + s ≤ m ∧
       take p a = take p b ∧
       drop (length a - s) a = drop (length b - s) b ∧
       a = take p a ++ middle a p s ++ drop (length a - s) a ∧
       b = take p b ++ middle b p s ++ drop (length b - s) b ∧
       ∀ a_mid b_mid, detect_delta_result a b = Delta a_mid b_mid →
                      a_mid = middle a p s ∧ b_mid = middle b p s.
Proof.
  intros Ha Hb p s0 m.
  pose proof (longest_common_prefix_spec a b) as Hp.
  pose proof (longest_common_suffix_spec a b) as Hs0.
  split; [done|]. split; [done|].
  destruct (delta_lengths_spec a b) as (s & Hlen & Hs & Hps & Hsuf).
  fold p s0 m in Hlen, Hs, Hps.
  exists s. split; [done|]. split; [done|]. split; [done|].
  split; [apply Hp|]. split; [apply Hsuf|].
  split; [apply middle_reconstruct; lia|].
  split; [apply middle_reconstruct; lia|].
  intros a_mid b_mid. rewrite detect_delta_result_nonempty, Hlen by done.
  simpl. repeat case_match; naive_solver.
Qed.

Lemma delta_extraction_roundtrip_witness :
  Fuzzy.detect_delta_result (lit "nacion") (lit "nacao")
    = Fuzzy.Delta (lit "ion") (lit "ao") ∧
  lit "nacion" = lit "nac" ++ lit "ion" ++ [] ∧
  ∃ s, delta_lengths (lit "nacion") (lit "nacao") = (3, s).
Proof.
  destruct (delta_extraction_roundtrip (lit "nacion") (lit "nacao"))
    as (_ & _ & s & Hs & _); [done..|].
  split; [reflexivity|]. split; [reflexivity|]. by exists s.
Defined.

(** C9: for two non-empty words that differ, at least one middle is not
    empty, [detect_delta] returns the "delta: ..." description of the two
    middles, and the "delta_whole: ..." return is not taken. *)
Theorem detect_delta_distinct (a b : str) :
  a ≠ [] → b ≠ [] → a ≠ b →
  ∃ a_mid b_mid,
    (a_mid ≠ [] ∨ b_mid ≠ []) ∧
    detect_delta_result a b = Delta a_mid b_mid ∧
    detect_delta a b = lit "delta: '" ++ a_mid ++ lit "' vs '" ++ b_mid ++ lit "'" ∧
    (∀ x y, detect_delta_result a b ≠ DeltaWhole x y) ∧
    ¬ (lit "delta_whole" `prefix_of` detect_delta a b).
Proof.
  intros Ha Hb Hab.
  destruct (delta_lengths_spec a b) as (s & Hlen & _ & Hps & Hsuf).
  destruct (longest_common_prefix_spec a b) as [(_ & _ & Hpre) _].
  set (p := longest_common_prefix a b) in *.
  exists (middle a p s), (middle b p s).
  assert (middle a p s ≠ [] ∨ middle b p s ≠ []) as Hmid.
  { destruct (decide (middle a p s = [])) as [Hma|]; [|by left].
    destruct (decide (middle b p s = [])) as [Hmb|]; [|by right].
    destruct Hab. apply (middles_empty_eq a b p s); [lia|lia|done..]. }
  assert (detect_delta_result a b = Delta (middle a p s) (middle b p s)) as Hres.
  { rewrite detect_delta_result_nonempty, Hlen by done. simpl.
    destruct Hmid as [Hm|Hm].
    - by rewrite (bool_decide_eq_false_2 _ Hm).
    - rewrite (bool_decide_eq_false_2 _ Hm). by rewrite orb_true_r. }
  split; [done|]. split; [done|].
  unfold detect_delta. rewrite Hres. simpl.
  split; [done|]. split; [done|].
  intros [k Hk]. vm_compute in Hk. congruence.
Qed.

Lemma detect_delta_distinct_witness :
  ∃ a_mid b_mid,
    Fuzzy.detect_delta (lit "nacion") (lit "nacao")
      = lit "delta: '" ++ a_mid ++ lit "' vs '" ++ b_mid ++ lit "'".
Proof.
  destruct (detect_delta_distinct (lit "nacion") (lit "nacao"))
    as (a_mid & b_mid & _ & _ & Heq & _); [done..|].
  by exists a_mid, b_mid.
Defined.

End delta.

(** ** The fuzzy-match detector *)

Section fuzzy.
Import Fuzzy.
Context `{E : Numeric}.

Lemma elem_of_range (lo hi x : Z) : x ∈ range lo hi ↔ (lo ≤ x < hi)%Z.
Proof. unfold range. rewrite elem_of_seqZ. lia. Qed.

(** A row of the output comes from one pass of the loop over ranks. *)
Lemma elem_of_find_near_cognates english blr langs max_rank_data thr row :
  row ∈ find_near_cognates english blr langs max_rank_data thr ↔
  ∃ rank : Z,
    (1 ≤ rank ≤ Z.of_nat (length english) `min` max_rank_data)%Z ∧
    row ∈ near_rows_at english blr langs thr rank.
Proof.
  unfold find_near_cognates. rewrite list_elem_of_bind.
  split; intros (rank & H1 & H2); exists rank.
  - apply elem_of_range in H2. split; [lia|done].
  - split; [done|]. apply elem_of_range. lia.
Qed.

(** What the body of the loop over pairs lets through. *)
Lemma elem_of_compare_pair thr rank english_meaning lang_a word_a lang_b word_b row :
  row ∈ compare_pair thr rank english_meaning ((lang_a, word_a), (lang_b, word_b)) ↔
  word_a ≠ word_b ∧ 4 ≤ length word_a ∧ 4 ≤ length word_b ∧
  (thr < ratio word_a word_b)%Q ∧ (ratio word_a word_b < 1)%Q ∧
  row = {| Rank := rank;
           English_Meaning := english_meaning;
           Language_A := lang_a;
           Word_A := word_a;
           Language_B := lang_b;
           Word_B := word_b;
           Similarity_Score := format_3f (ratio word_a word_b) # 1000;
           Pattern_Detected := detect_delta word_a word_b |}.
Proof.
  unfold compare_pair.
  case_bool_decide as Hab; [rewrite elem_of_nil; naive_solver|].
  destruct (bool_decide (length word_a < 4) || bool_decide (length word_b < 4))
    eqn:Hlen.
  { rewrite elem_of_nil.
    apply orb_true_iff in Hlen as [Hl%bool_decide_eq_true|Hl%bool_decide_eq_true];
      split; try done; intros (_ & ? & ? & _); lia. }
  apply orb_false_iff in Hlen as [Ha%bool_decide_eq_false Hb%bool_decide_eq_false].
  destruct (Qle_bool (ratio word_a word_b) thr || Qle_bool 1 (ratio word_a word_b))
    eqn:Hsim.
  { rewrite elem_of_nil.
    apply orb_true_iff in Hsim as [Hs%Qle_bool_iff|Hs%Qle_bool_iff];
      split; try done; intros (_ & _ & _ & ? & ? & _); lra. }
  apply orb_false_iff in Hsim as [Hlo Hhi].
  assert (¬ (ratio word_a word_b <= thr)%Q) as Hlo'
    by (rewrite <-Qle_bool_iff; congruence).
  assert (¬ (1 <= ratio word_a word_b)%Q) as Hhi'
    by (rewrite <-Qle_bool_iff; congruence).
  rewrite list_elem_of_singleton.
  split; [intros ->|naive_solver].
  repeat split; try done; try lia; lra.
Qed.

Lemma elem_of_combinations2 {A} (l : list A) (x y : A) :
  (x, y) ∈ combinations2 l → x ∈ l ∧ y ∈ l.
Proof.
  induction l as [|z l IH]; simpl; [by rewrite elem_of_nil|].
  rewrite elem_of_app, list_elem_of_fmap, !elem_of_cons.
  intros [(y' & [= -> ->] & Hy)|[? ?]%IH]; auto.
Qed.

(** Every emitted row passed all the guards of the loops. *)
Lemma elem_of_near_rows_at english blr langs thr rank row :
  row ∈ near_rows_at english blr langs thr rank →
  let english_meaning := english_at english rank in
  let entries := collect_entries english_meaning blr langs rank in
  Rank row = rank ∧ English_Meaning row = english_meaning ∧
  english_meaning ≠ [] ∧
  (Language_A row, Word_A row) ∈ entries ∧
  (Language_B row, Word_B row) ∈ entries ∧
  Word_A row ≠ Word_B row ∧
  4 ≤ length (Word_A row) ∧ 4 ≤ length (Word_B row) ∧
  (thr < ratio (Word_A row) (Word_B row))%Q ∧
  (ratio (Word_A row) (Word_B row) < 1)%Q ∧
  Similarity_Score row = format_3f (ratio (Word_A row) (Word_B row)) # 1000 ∧
  Pattern_Detected row = detect_delta (Word_A row) (Word_B row).
Proof.
  intros Hrow english_meaning entries. unfold near_rows_at in Hrow.
  fold english_meaning in Hrow. fold entries in Hrow.
  case_bool_decide as Hen; [by apply elem_of_nil in Hrow|].
  case_bool_decide as Hcnt; [by apply elem_of_nil in Hrow|].
  apply list_elem_of_bind in Hrow as ([[la wa] [lb wb]] & Hrow & Hpair).
  apply elem_of_compare_pair in Hrow as (? & ? & ? & ? & ? & ->). simpl.
  apply elem_of_combinations2 in Hpair as [Ha Hb].
  apply list_elem_of_filter in Ha as [_ Ha].
  apply list_elem_of_filter in Hb as [_ Hb].
  repeat split; try done.
  intros Hnil. rewrite Hnil in Hen. simpl in Hen. lia.
Qed.

(** The rendering of a ratio above 0.7 and below 1.0 is between 0.700 and
    1.000: rounding to thousandths keeps the order but not its strictness. *)
Lemma format_3f_bounds `{!NumericLaws E} (q : Q) :
  (7 # 10 < q)%Q → (q < 1)%Q →
  (7 # 10 <= format_3f q # 1000)%Q ∧ (format_3f q # 1000 <= 1)%Q.
Proof.
  intros Hlo Hhi. destruct (format_3f_nearest q) as [H1 H2].
  set (k := format_3f q) in *.
  assert (700 ≤ k)%Z as Hk1.
  { destruct (decide (700 ≤ k)%Z) as [|Hn]; [done|]. exfalso.
    assert (inject_Z k <= inject_Z 699)%Q as Hq by (rewrite <-Zle_Qle; lia).
    change (inject_Z 699) with (699 # 1)%Q in Hq. lra. }
  assert (k ≤ 1000)%Z as Hk2.
  { destruct (decide (k ≤ 1000)%Z) as [|Hn]; [done|]. exfalso.
    assert (inject_Z 1001 <= inject_Z k)%Q as Hq by (rewrite <-Zle_Qle; lia).
    change (inject_Z 1001) with (1001 # 1)%Q in Hq. lra. }
  unfold Qle. simpl. lia.
Qed.

(** The guards that a row of the output has passed, and its score. *)
Lemma emitted_row_guards `{!NumericLaws E}
    english blr langs max_rank_data row :
  row ∈ find_near_cognates english blr langs max_rank_data threshold_default →
  Word_A row ≠ Word_B row ∧
  4 ≤ length (Word_A row) ∧ 4 ≤ length (Word_B row) ∧
  (7 # 10 < ratio (Word_A row) (Word_B row))%Q ∧
  (ratio (Word_A row) (Word_B row) < 1)%Q ∧
  Similarity_Score row = format_3f (ratio (Word_A row) (Word_B row)) # 1000 ∧
  (7 # 10 <= Similarity_Score row)%Q ∧ (Similarity_Score row <= 1)%Q.
Proof.
  intros (rank & _ & Hrow)%elem_of_find_near_cognates.
  apply elem_of_near_rows_at in Hrow
    as (_ & _ & _ & _ & _ & Hne & Hla & Hlb & Hlo & Hhi & Hscore & _).
  unfold threshold_default in Hlo.
  do 6 (split; [done|]).
  rewrite Hscore. by apply format_3f_bounds.
Qed.

(** C2, as the code has it: every emitted row comes from two different
    words whose similarity ratio is strictly between 0.7 and 1.0, so that
    identical words and pairs with a ratio at most 0.7 or at least 1.0 are
    never emitted.  The score written in the row is that ratio rendered to
    three decimals, which is between 0.700 and 1.000, bounds included. *)
Theorem near_rows_ratio_bounds `{!NumericLaws E}
    english blr langs max_rank_data row :
  row ∈ find_near_cognates english blr langs max_rank_data threshold_default →
  Word_A row ≠ Word_B row ∧
  (7 # 10 < ratio (Word_A row) (Word_B row))%Q ∧
  (ratio (Word_A row) (Word_B row) < 1)%Q ∧
  Similarity_Score row = format_3f (ratio (Word_A row) (Word_B row)) # 1000 ∧
  (7 # 10 <= Similarity_Score row)%Q ∧ (Similarity_Score row <= 1)%Q.
Proof.
  intros Hin.
  destruct (emitted_row_guards _ _ _ _ _ Hin) as (? & _ & _ & ? & ? & ? & ? & ?).
  done.
Qed.

(** *** The ranks that the detector visits *)

Lemma load_row_max_rank acc row :
  max_rank_observed acc → max_rank_observed (load_row acc row).
Proof.
  intros (H0 & Hall & Hmax). unfold load_row.
  case_bool_decide; [done|].
  destruct (rank row) as [r|]; [|done].
  case_bool_decide; [done|].
  split; [|split]; simpl.
  - case_bool_decide; lia.
  - intros lang r' Hsome.
    destruct (decide ((strip (language row), r) = (lang, r'))) as [[= <- <-]|Hne].
    + split; [case_bool_decide; lia|set_solver].
    + rewrite lookup_insert_ne in Hsome by done.
      destruct (Hall _ _ Hsome). split; [case_bool_decide; lia|set_solver].
  - case_bool_decide.
    + right. exists (strip (language row)). by rewrite lookup_insert_eq.
    + destruct Hmax as [?|[lang Hsome]]; [by left|right].
      exists lang.
      destruct (decide ((strip (language row), r) = (lang, max_rank acc)))
        as [->|Hne]; [by rewrite lookup_insert_eq|].
      by rewrite lookup_insert_ne.
Qed.

Lemma load_raw_data_max_rank rows : max_rank_observed (load_raw_data rows).
Proof.
  unfold load_raw_data.
  induction rows as [|row rows IH] using rev_ind.
  - split; [done|]. split; [|by left].
    intros lang r [x Hx]. simpl in Hx. by rewrite lookup_empty in Hx.
  - rewrite foldl_app. simpl. by apply load_row_max_rank.
Qed.

(** C5, as the code has it: the detector runs the body of its loop for
    exactly the ranks from 1 to the smaller of the length of the reference
    list and [max_rank], where [max_rank] is the largest rank loaded for
    any language. *)
Theorem near_ranks_visited english rows :
  let data := load_raw_data rows in
  let bound := (Z.of_nat (length english) `min` max_rank data)%Z in
  max_rank_observed data ∧
  run english rows =
    range 1 (bound + 1) ≫=
      near_rows_at english (by_lang_rank data) (languages data) threshold_default ∧
  (∀ rank, rank ∈ range 1 (bound + 1) ↔ (1 ≤ rank ≤ bound)%Z) ∧
  (∀ row, row ∈ run english rows ↔
          ∃ rank, (1 ≤ rank ≤ bound)%Z ∧
                  row ∈ near_rows_at english (by_lang_rank data)
                          (languages data) threshold_default rank) ∧
  (∀ row, row ∈ run english rows → (1 ≤ Rank row ≤ bound)%Z).
Proof.
  intros data bound.
  split; [apply load_raw_data_max_rank|]. split; [reflexivity|].
  split; [intros rank; rewrite elem_of_range; lia|].
  assert (∀ row, row ∈ run english rows ↔
            ∃ rank, (1 ≤ rank ≤ bound)%Z ∧
                    row ∈ near_rows_at english (by_lang_rank data)
                            (languages data) threshold_default rank) as Hiff.
  { intros row. unfold run. fold data. apply elem_of_find_near_cognates. }
  split; [exact Hiff|].
  intros row Hin. apply Hiff in Hin as (rank & Hrank & Hrow).
  apply elem_of_near_rows_at in Hrow as (Hr & _). rewrite Hr. exact Hrank.
Qed.

End fuzzy.

(** ** The reference implementations meet the laws *)

Lemma round_half_even_nearest (x : Q) :
  (- (1 # 2) <= x - inject_Z (round_half_even x) <= 1 # 2)%Q.
Proof.
  unfold round_half_even.
  pose proof (Qfloor_le x) as Hlo. pose proof (Qlt_floor x) as Hhi.
  rewrite inject_Z_plus in Hhi. change (inject_Z 1) with 1%Q in Hhi.
  set (f := Qfloor x) in *.
  destruct (x - inject_Z f ?= 1 # 2)%Q eqn:Hcmp.
  - apply Qeq_alt in Hcmp. destruct (Z.even f).
    + lra.
    + rewrite inject_Z_plus. change (inject_Z 1) with 1%Q. lra.
  - apply Qlt_alt in Hcmp. lra.
  - apply Qgt_alt in Hcmp.
    rewrite inject_Z_plus. change (inject_Z 1) with 1%Q. lra.
Qed.

Lemma python_numeric_laws : NumericLaws python_numeric.
Proof. split. intros q. apply round_half_even_nearest. Qed.

Lemma merge_sort_values_laws : SortLaws merge_sort_values.
Proof.
  split.
  - intros A leb l. apply merge_sort_Permutation.
  - intros A leb l Htotal Htrans. apply StronglySorted_merge_sort.
    + intros x y z. apply Htrans.
    + intros x y. destruct (Htotal x y); auto.
Qed.

(** ** The detector on concrete lexicons *)

Example nation_near_rows_words :
  (λ r, (Fuzzy.Rank r, Fuzzy.Language_A r, Fuzzy.Language_B r,
         Fuzzy.Similarity_Score r, Fuzzy.Pattern_Detected r)) <$> nation_near_rows
  = [ (1%Z, lit "en", lit "es", 833 # 1000, lit "delta: 't' vs 'c'");
      (1%Z, lit "es", lit "fr", 833 # 1000, lit "delta: 'c' vs 't'");
      (2%Z, lit "en", lit "es", 909 # 1000, lit "delta: 't' vs 'c'") ].
Proof. vm_compute. reflexivity. Qed.

Lemma near_rows_ratio_bounds_witness :
  ∃ row, row ∈ nation_near_rows ∧
         Fuzzy.Word_A row ≠ Fuzzy.Word_B row ∧
         (7 # 10 <= Fuzzy.Similarity_Score row)%Q.
Proof.
  destruct nation_near_rows as [|row rest] eqn:Hrows;
    [vm_compute in Hrows; discriminate|].
  assert (row ∈ nation_near_rows) as Hin by (rewrite Hrows; left).
  exists row. split; [by rewrite <-Hrows|].
  destruct (near_rows_ratio_bounds (E := python_numeric)
              (NumericLaws0 := python_numeric_laws) _ _ _ _ _ Hin)
    as (Hne & _ & _ & _ & Hlo & _).
  by split.
Defined.

Example long_words_ratio :
  difflib.ratio long_word_a long_word_b = 152 # 217.
Proof. vm_compute. reflexivity. Qed.

(** C2, as stated, fails on the score that the row carries: it need not
    be strictly above 0.7. *)
Lemma near_score_not_strict :
  ¬ ∀ row, row ∈ long_rows →
           (7 # 10 < Fuzzy.Similarity_Score row)%Q ∧
           (Fuzzy.Similarity_Score row < 1)%Q ∧
           Fuzzy.Word_A row ≠ Fuzzy.Word_B row.
Proof.
  intros Hall.
  destruct long_rows as [|row rest] eqn:Hrows;
    [vm_compute in Hrows; discriminate|].
  destruct (Hall row) as (Hlo & _); [left|].
  assert (Fuzzy.Similarity_Score row = 700 # 1000) as Hscore.
  { vm_compute in Hrows. by injection Hrows as <- _. }
  rewrite Hscore in Hlo. vm_compute in Hlo. discriminate.
Qed.

(** C5, as stated, fails: with Spanish loaded up to rank 2 and French up
    to rank 1, the smallest of the largest ranks per language is 1, and the
    detector still emits a row at rank 2. *)
Lemma near_ranks_beyond_spec_bound :
  spec_maxRank nation_data = 1%Z ∧
  Fuzzy.max_rank nation_data = 2%Z ∧
  ¬ ∀ row, row ∈ Fuzzy.run (H := python_numeric) nation_english nation_rows →
           (1 ≤ Fuzzy.Rank row ≤
              Z.of_nat (length nation_english) `min` spec_maxRank nation_data)%Z.
Proof.
  split; [vm_compute; reflexivity|]. split; [vm_compute; reflexivity|].
  intros Hall.
  pose proof nation_near_rows_words as Hrows.
  change (Fuzzy.run nation_english nation_rows) with nation_near_rows in Hall.
  destruct nation_near_rows as [|r1 [|r2 [|r3 rest]]]; try discriminate Hrows.
  simpl in Hrows.
  assert (Fuzzy.Rank r3 = 2%Z) as Hr3 by congruence.
  destruct (Hall r3) as [_ Hle]; [do 2 right; left|].
  rewrite Hr3 in Hle. vm_compute in Hle. by apply Hle.
Qed.

(** ** The perfect-match detector *)

Section word_dict.
Import PerfectDetector.

(** The dict [word_langs] filled from a list of codes, each code [c]
    bringing the word [f c] unless it is empty. *)
Variable f : str → str.

#[local] Abbreviation dict_step := (WordDict.dict_step f).
#[local] Abbreviation first_before := (WordDict.first_before f).
#[local] Abbreviation dict_inv := (WordDict.dict_inv f).
#[local] Abbreviation dict_nodup := (WordDict.dict_nodup f).
#[local] Abbreviation dict_codes := (WordDict.dict_codes f).
#[local] Abbreviation dict_complete := (WordDict.dict_complete f).
#[local] Abbreviation dict_order := (WordDict.dict_order f).

Lemma dict_append_keys d w c :
  (dict_append d w c).*1 = if decide (w ∈ d.*1) then d.*1 else d.*1 ++ [w].
Proof.
  induction d as [|[w' cs] d IH]; csimpl; [done|].
  case_bool_decide as Hw; csimpl.
  - subst w'. rewrite decide_True by left. done.
  - rewrite IH. destruct (decide (w ∈ d.*1)) as [Hin|Hin].
    + rewrite decide_True by (by right). done.
    + rewrite decide_False; [done|]. rewrite elem_of_cons. naive_solver.
Qed.

Lemma elem_of_dict_append d w c w' cs :
  NoDup d.*1 →
  (w', cs) ∈ dict_append d w c →
  (w' ≠ w ∧ (w', cs) ∈ d) ∨
  (w' = w ∧ ∃ cs0, (w, cs0) ∈ d ∧ cs = cs0 ++ [c]) ∨
  (w' = w ∧ w ∉ d.*1 ∧ cs = [c]).
Proof.
  induction d as [|[w0 cs0] d IH]; csimpl; intros Hnd Hin.
  - apply list_elem_of_singleton in Hin. injection Hin as -> ->.
    right. right. split; [done|]. split; [|done]. apply not_elem_of_nil.
  - apply NoDup_cons in Hnd as [Hw0 Hnd].
    case_bool_decide as Hw.
    + subst w0. apply elem_of_cons in Hin as [Hin|Hin].
      * injection Hin as -> ->. right. left. split; [done|].
        exists cs0. split; [left|done].
      * left. split; [|by right]. intros ->. apply Hw0.
        apply list_elem_of_fmap. by exists (w, cs).
    + apply elem_of_cons in Hin as [Hin|Hin].
      * injection Hin as -> ->. left. split; [done|left].
      * destruct (IH Hnd Hin) as [[Hne Hd]|[[-> (cs1 & Hd & ->)]|(-> & Hnin & ->)]].
        -- left. split; [done|by right].
        -- right. left. split; [done|]. exists cs1. split; [by right|done].
        -- right. right. split; [done|]. split; [|done].
           apply not_elem_of_cons. split; [congruence|done].
Qed.

Lemma dict_append_NoDup d w c : NoDup d.*1 → NoDup (dict_append d w c).*1.
Proof.
  intros Hnd. rewrite dict_append_keys. case_decide; [done|].
  apply NoDup_app. split; [done|]. split; [|apply NoDup_singleton].
  intros x Hx ->%list_elem_of_singleton. done.
Qed.

Lemma StronglySorted_mono {A} (R R' : relation A) l :
  (∀ x y, x ∈ l → y ∈ l → R x y → R' x y) →
  StronglySorted R l → StronglySorted R' l.
Proof.
  induction l as [|x l IH]; intros Himpl Hs; [constructor|].
  apply StronglySorted_cons in Hs as [Hall Hs].
  apply StronglySorted_cons. split.
  - rewrite Forall_forall in Hall |- *. intros y Hy.
    apply Himpl; [by left|by right|auto].
  - apply IH; [|done]. intros y z Hy Hz. apply Himpl; by right.
Qed.

Lemma first_before_app pre c w1 w2 :
  first_before pre w1 w2 → first_before (pre ++ [c]) w1 w2.
Proof.
  intros (i1 & c1 & i2 & c2 & H1 & H2 & Hlt).
  exists i1, c1, i2, c2. by rewrite !(list_find_app_l _ pre [c] _ _) by done.
Qed.

Lemma key_found pre d w :
  dict_inv pre d → w ∈ d.*1 →
  ∃ i c, list_find (λ c, f c = w) pre = Some (i, c) ∧ i < length pre.
Proof.
  intros Hinv ([w' cs] & -> & Hin)%list_elem_of_fmap. simpl.
  destruct (dict_codes _ _ Hinv _ _ Hin) as (Hcs & Hne & _).
  destruct cs as [|c cs]; [done|].
  assert (c ∈ filter (λ c, f c = w') pre) as [Hc Hpre]%list_elem_of_filter
    by (rewrite <-Hcs; left).
  destruct (list_find_elem_of (λ c, f c = w') pre c Hpre Hc) as [[i c'] Hfind].
  exists i, c'. split; [done|].
  apply list_find_Some in Hfind as (Hlk & _). by eapply lookup_lt_Some.
Qed.

Lemma dict_inv_nil : dict_inv [] [].
Proof.
  split; simpl.
  - constructor.
  - intros w cs Hin. by apply elem_of_nil in Hin.
  - intros c Hin. by apply elem_of_nil in Hin.
  - constructor.
Qed.

Lemma filter_snoc_True {A} (P : A → Prop) `{!∀ x, Decision (P x)} l x :
  P x → filter P (l ++ [x]) = filter P l ++ [x].
Proof.
  intros HP. rewrite filter_app. f_equal.
  rewrite (filter_cons_True P x []) by done. done.
Qed.

Lemma filter_snoc_False {A} (P : A → Prop) `{!∀ x, Decision (P x)} l x :
  ¬ P x → filter P (l ++ [x]) = filter P l.
Proof.
  intros HP. rewrite filter_app.
  rewrite (filter_cons_False P x []) by done. apply app_nil_r.
Qed.

Lemma dict_inv_step pre d c :
  dict_inv pre d → dict_inv (pre ++ [c]) (dict_step d c).
Proof.
  intros Hinv. unfold WordDict.dict_step. case_bool_decide as Hfc.
  - (* the language has no word at this rank *)
    split.
    + apply Hinv.
    + intros w cs Hin.
      destruct (dict_codes _ _ Hinv _ _ Hin) as (-> & Hne & Hw).
      split; [|done]. rewrite filter_snoc_False; [done|congruence].
    + intros c' [Hin| ->%list_elem_of_singleton]%elem_of_app Hne; [|done].
      by apply (dict_complete _ _ Hinv).
    + eapply StronglySorted_mono; [|apply Hinv].
      intros x y _ _. apply first_before_app.
  - (* the language brings [f c] *)
    pose proof (dict_nodup _ _ Hinv) as Hnd. split.
    + by apply dict_append_NoDup.
    + intros w cs Hin%elem_of_dict_append; [|done].
      destruct Hin as [[Hne Hin]|[[-> (cs0 & Hin & ->)]|(-> & Hnin & ->)]].
      * destruct (dict_codes _ _ Hinv _ _ Hin) as (-> & ? & ?).
        split; [|done]. rewrite filter_snoc_False; [done|congruence].
      * destruct (dict_codes _ _ Hinv _ _ Hin) as (-> & ? & ?).
        split; [|split; [|done]].
        -- by rewrite filter_snoc_True.
        -- by intros [? ?]%app_eq_nil.
      * split; [|done]. rewrite filter_snoc_True by done.
        assert (filter (λ c0, f c0 = f c) pre = []) as ->; [|done].
        destruct (filter _ pre) as [|c' cs'] eqn:Hfil; [done|].
        assert (c' ∈ filter (λ c0, f c0 = f c) pre)
          as [Hc' Hpre]%list_elem_of_filter by (rewrite Hfil; left).
        destruct Hnin. rewrite <-Hc'. apply (dict_complete _ _ Hinv); [done|].
        congruence.
    + intros c' Hin Hne. rewrite dict_append_keys.
      assert (f c' ∈ d.*1 ∨ c' = c) as Hcase.
      { apply elem_of_app in Hin as [Hin|Hin%list_elem_of_singleton].
        - left. by apply (dict_complete _ _ Hinv).
        - by right. }
      case_decide as Hkey.
      * by destruct Hcase as [?| ->].
      * apply elem_of_app. destruct Hcase as [?| ->]; [by left|right; left].
    + rewrite dict_append_keys. case_decide as Hkey.
      * eapply StronglySorted_mono; [|apply Hinv].
        intros x y _ _. apply first_before_app.
      * apply StronglySorted_app_2.
        -- intros w1 w2 Hw1 ->%list_elem_of_singleton.
           destruct (key_found pre d w1 Hinv Hw1) as (i1 & c1 & Hfind & Hlt).
           exists i1, c1, (length pre), c.
           split; [by apply list_find_app_l|]. split; [|done].
           rewrite list_find_app_r.
           ++ simpl. rewrite decide_True by done. done.
           ++ apply list_find_None, Forall_forall. intros c' Hc' Heq.
              destruct Hkey. rewrite <-Heq.
              apply (dict_complete _ _ Hinv); [done|congruence].
        -- eapply StronglySorted_mono; [|apply Hinv].
           intros x y _ _. apply first_before_app.
        -- repeat constructor.
Qed.

Lemma dict_inv_foldl cs : dict_inv cs (foldl dict_step [] cs).
Proof.
  induction cs as [|c cs IH] using rev_ind; [apply dict_inv_nil|].
  rewrite foldl_app. simpl. by apply dict_inv_step.
Qed.

End word_dict.

(** [",".join(..)] read back by [.split(',')] *)
Lemma split_no_sep (c : N) (x : str) : c ∉ x → split c x = [x].
Proof.
  induction x as [|y x IH]; simpl; [done|].
  rewrite not_elem_of_cons. intros [Hne Hx].
  rewrite bool_decide_eq_false_2 by done. by rewrite IH.
Qed.

Lemma split_app_sep (c : N) (x s : str) :
  c ∉ x → split c (x ++ c :: s) = x :: split c s.
Proof.
  induction x as [|y x IH]; simpl.
  - intros _. by rewrite bool_decide_eq_true_2.
  - rewrite not_elem_of_cons. intros [Hne Hx].
    rewrite bool_decide_eq_false_2 by done. by rewrite IH.
Qed.

Lemma split_join (c : N) (l : list str) :
  l ≠ [] → Forall (λ x, c ∉ x) l → split c (join [c] l) = l.
Proof.
  induction l as [|x l IH]; [done|]. intros _ [Hx Hl]%Forall_cons.
  destruct l as [|y l]; simpl.
  - by apply split_no_sep.
  - rewrite split_app_sep by done. f_equal. by apply IH.
Qed.

Section perfect.
Import PerfectDetector WordDict.
Variables (english : list str) (blr : gmap (str * Z) str).

Lemma elem_of_find_universal_perfect_cognates row :
  row ∈ find_universal_perfect_cognates english blr ↔
  ∃ rank : Z, (1 ≤ rank ≤ Z.of_nat (length english))%Z ∧
              row ∈ perfect_rows_at english blr rank.
Proof.
  unfold find_universal_perfect_cognates. rewrite list_elem_of_bind.
  split; intros (rank & H1 & H2); exists rank.
  - apply elem_of_range in H2. split; [lia|done].
  - split; [done|]. apply elem_of_range. lia.
Qed.

(** Filling the dict is one pass of [dict_step] over the codes of
    [LANGUAGES], "en" bringing the reference word. *)
Lemma add_language_dict_step rank d code name :
  code ≠ lit "en" →
  add_language blr rank d (code, name)
  = dict_step (λ c, word_at english blr c rank) d code.
Proof.
  intros Hne. unfold add_language, dict_step, word_at.
  by rewrite !(bool_decide_eq_false_2 _ Hne).
Qed.

Lemma foldl_add_language rank d (ls : list (str * str)) :
  Forall (λ l, l.1 ≠ lit "en") ls →
  foldl (add_language blr rank) d ls
  = foldl (dict_step (λ c, word_at english blr c rank)) d ls.*1.
Proof.
  revert d. induction ls as [|[code name] ls IH]; intros d Hall; [done|].
  apply Forall_cons in Hall as [Hne Hall]. rewrite fmap_cons. cbn [foldl fst].
  rewrite add_language_dict_step by done. by apply IH.
Qed.

Lemma build_word_langs_dict rank :
  word_at english blr (lit "en") rank ≠ [] →
  build_word_langs (word_at english blr (lit "en") rank) blr rank
  = foldl (dict_step (λ c, word_at english blr c rank)) [] LANGUAGES.*1.
Proof.
  intros Hen. unfold build_word_langs.
  change LANGUAGES with ((lit "en", lit "English") :: tail LANGUAGES).
  rewrite fmap_cons.
  cbn [foldl]. unfold add_language at 2.
  rewrite bool_decide_eq_true_2 by done.
  rewrite foldl_add_language.
  - f_equal. unfold dict_step. by rewrite bool_decide_eq_false_2.
  - unfold LANGUAGES. simpl. repeat (constructor; [done|]). constructor.
Qed.

Lemma word_at_en rank :
  word_at english blr (lit "en") rank
  = strip (default [] (english !! Z.to_nat (rank - 1))).
Proof. unfold word_at. by rewrite bool_decide_eq_true_2. Qed.

Lemma build_word_langs_inv rank :
  word_at english blr (lit "en") rank ≠ [] →
  dict_inv (λ c, word_at english blr c rank) LANGUAGES.*1
    (build_word_langs (word_at english blr (lit "en") rank) blr rank).
Proof. intros Hen. rewrite build_word_langs_dict by done. apply dict_inv_foldl. Qed.

Lemma elem_of_emit_row rank em w codes row :
  row ∈ emit_row rank em (w, codes) ↔
  2 ≤ length codes ∧
  row = {| Rank := rank; English_Meaning := em; Word := w;
           Languages_Found := join [comma] (sorted codes);
           Count := length codes |}.
Proof.
  unfold emit_row. case_bool_decide as Hlen.
  - rewrite elem_of_nil. split; [done|]. intros [? _]. lia.
  - rewrite list_elem_of_singleton. split; [intros ->; split; [lia|done]|].
    by intros [_ ->].
Qed.

(** The rows of one rank, from the entries of the dict. *)
Lemma elem_of_perfect_rows_at rank row :
  row ∈ perfect_rows_at english blr rank ↔
  let em := word_at english blr (lit "en") rank in
  em ≠ [] ∧
  ∃ w codes, (w, codes) ∈ build_word_langs em blr rank ∧ 2 ≤ length codes ∧
             row = {| Rank := rank; English_Meaning := em; Word := w;
                      Languages_Found := join [comma] (sorted codes);
                      Count := length codes |}.
Proof.
  unfold perfect_rows_at. rewrite <-word_at_en. simpl.
  case_bool_decide as Hen; [rewrite elem_of_nil; naive_solver|].
  rewrite list_elem_of_bind. split.
  - intros ([w codes] & Hrow & Hin). split; [done|]. exists w, codes.
    apply elem_of_emit_row in Hrow as [Hlen ->]. done.
  - intros (_ & w & codes & Hin & Hlen & ->). exists (w, codes).
    split; [|done]. by apply elem_of_emit_row.
Qed.

Lemma languages_comma_free : Forall (λ c, comma ∉ c) LANGUAGES.*1.
Proof. apply (bool_decide_unpack _). vm_compute. exact I. Qed.

Lemma two_distinct_length {A} (l : list A) (x y : A) :
  x ∈ l → y ∈ l → x ≠ y → 2 ≤ length l.
Proof.
  destruct l as [|z [|z' l]]; simpl; [by rewrite elem_of_nil| |lia].
  rewrite !list_elem_of_singleton. congruence.
Qed.

(** C3, as the code has it: at a rank of the reference list whose
    reference word is not empty, two different target languages that have
    the same non-empty word are both in the languages of a record that the
    detector emits for that rank and that word. *)
Theorem perfect_record_has_both rank (a b w : str) :
  (1 ≤ rank ≤ Z.of_nat (length english))%Z →
  word_at english blr (lit "en") rank ≠ [] →
  a ∈ LANGUAGES.*1 → b ∈ LANGUAGES.*1 → a ≠ b →
  w ≠ [] →
  word_at english blr a rank = w → word_at english blr b rank = w →
  ∃ row, row ∈ find_universal_perfect_cognates english blr ∧
         Rank row = rank ∧ Word row = w ∧
         English_Meaning row = word_at english blr (lit "en") rank ∧
         a ∈ split comma (Languages_Found row) ∧
         b ∈ split comma (Languages_Found row).
Proof.
  intros Hrank Hen Ha Hb Hab Hw Hwa Hwb.
  pose proof (build_word_langs_inv rank Hen) as Hinv.
  set (d := build_word_langs _ blr rank) in *.
  assert (w ∈ d.*1) as ([w' codes] & Hw' & Hin)%list_elem_of_fmap.
  { rewrite <-Hwa. apply (dict_complete _ _ _ Hinv); [done|]. by rewrite Hwa. }
  simpl in Hw'. subst w'.
  destruct (dict_codes _ _ _ Hinv _ _ Hin) as (Hcodes & _ & _).
  assert (a ∈ codes) as Hac by (rewrite Hcodes; by apply list_elem_of_filter).
  assert (b ∈ codes) as Hbc by (rewrite Hcodes; by apply list_elem_of_filter).
  assert (split comma (join [comma] (sorted codes)) = sorted codes) as Hsplit.
  { apply split_join.
    - intros Hnil. assert (a ∈ sorted codes) as Hs
        by (unfold sorted; by rewrite merge_sort_Permutation).
      rewrite Hnil in Hs. by apply elem_of_nil in Hs.
    - apply Forall_forall. intros c Hc.
      unfold sorted in Hc. rewrite merge_sort_Permutation in Hc.
      rewrite Hcodes in Hc. apply list_elem_of_filter in Hc as [_ Hc].
      by apply (proj1 (Forall_forall _ _) languages_comma_free). }
  eexists. split.
  - apply elem_of_find_universal_perfect_cognates. exists rank. split; [done|].
    apply elem_of_perfect_rows_at. split; [done|]. exists w, codes.
    split; [done|]. split; [|done]. by apply (two_distinct_length codes a b).
  - simpl. rewrite Hsplit. unfold sorted. rewrite !merge_sort_Permutation.
    done.
Qed.

(** *** The order of the records *)

Lemma seqZ_sorted (m n : Z) : StronglySorted Z.lt (seqZ m n).
Proof.
  remember (Z.to_nat n) as k eqn:Hk. revert m n Hk.
  induction k as [|k IH]; intros m n Hk.
  - rewrite seqZ_nil by lia. constructor.
  - rewrite seqZ_cons by lia. apply StronglySorted_cons. split.
    + apply Forall_forall. intros x Hx%elem_of_seqZ. lia.
    + apply IH. lia.
Qed.

Lemma bind_ranks_sorted (R : relation perfect_row) (ranks : list Z)
    (g : Z → list perfect_row) :
  StronglySorted Z.lt ranks →
  (∀ r row, row ∈ g r → Rank row = r) →
  (∀ r, StronglySorted R (g r)) →
  (∀ r1 r2, (Rank r1 < Rank r2)%Z → R r1 r2) →
  StronglySorted R (ranks ≫= g).
Proof.
  intros Hranks Hrank Hsorted Hlt.
  induction ranks as [|r ranks IH]; [constructor|].
  apply StronglySorted_cons in Hranks as [Hall Hranks].
  change ((r :: ranks) ≫= g) with (g r ++ ranks ≫= g).
  apply StronglySorted_app_2; [|done|by apply IH].
  intros r1 r2 Hr1 (r' & Hr2 & Hr')%list_elem_of_bind.
  apply Hlt. rewrite (Hrank _ _ Hr1), (Hrank _ _ Hr2).
  by apply (proj1 (Forall_forall _ _) Hall).
Qed.

Lemma emit_rows_sorted (R : relation str) rank em (d : list (str * list str)) :
  StronglySorted R d.*1 →
  StronglySorted (λ r1 r2, R (Word r1) (Word r2)) (d ≫= emit_row rank em).
Proof.
  induction d as [|[w codes] d IH]; [constructor|]. simpl.
  intros [Hall Hs]%StronglySorted_cons.
  change (((w, codes) :: d) ≫= emit_row rank em)
    with (emit_row rank em (w, codes) ++ d ≫= emit_row rank em).
  apply StronglySorted_app_2; [| |by apply IH].
  - intros r1 r2 Hr1 ([w' codes'] & Hr2 & Hin)%list_elem_of_bind.
    apply elem_of_emit_row in Hr1 as [_ ->].
    apply elem_of_emit_row in Hr2 as [_ ->]. simpl.
    apply (proj1 (Forall_forall _ _) Hall).
    apply list_elem_of_fmap. by exists (w', codes').
  - unfold emit_row. case_bool_decide; repeat constructor.
Qed.

(** C4, as the code has it: the records are in ascending order of rank,
    and within a rank in the order in which their words first appear when
    the reference word comes first and the target languages follow in the
    order of [LANGUAGES]: es, fr, it, pt, ro, ca, gl. *)
Theorem perfect_records_order :
  StronglySorted (emitted_before english blr)
    (find_universal_perfect_cognates english blr) ∧
  StronglySorted (λ r1 r2, (Rank r1 ≤ Rank r2)%Z)
    (find_universal_perfect_cognates english blr).
Proof.
  assert (StronglySorted (emitted_before english blr)
            (find_universal_perfect_cognates english blr)) as Hsorted.
  { unfold find_universal_perfect_cognates.
    apply bind_ranks_sorted.
    - apply seqZ_sorted.
    - intros r row (_ & w & codes & _ & _ & ->)%elem_of_perfect_rows_at. done.
    - intros r. unfold perfect_rows_at. rewrite <-word_at_en. simpl.
      case_bool_decide as Hen; [constructor|].
      pose proof (build_word_langs_inv r Hen) as Hinv.
      pose proof (emit_rows_sorted _ r (word_at english blr (lit "en") r) _
                    (dict_order _ _ _ Hinv)) as Hs.
      eapply StronglySorted_mono; [|exact Hs]. simpl.
      intros r1 r2 Hr1 Hr2 Hfirst. right.
      apply list_elem_of_bind in Hr1 as ([w1 c1] & Hr1 & _).
      apply list_elem_of_bind in Hr2 as ([w2 c2] & Hr2 & _).
      apply elem_of_emit_row in Hr1 as [_ ->].
      apply elem_of_emit_row in Hr2 as [_ ->].
      split; [done|]. exact Hfirst.
    - intros r1 r2 Hlt. by left. }
  split; [done|].
  eapply StronglySorted_mono; [|exact Hsorted].
  intros r1 r2 _ _ [Hlt|[Heq _]]; lia.
Qed.

End perfect.

(** *** The detector on concrete lexicons *)

Example hotel_perfect_rows :
  PerfectDetector.find_universal_perfect_cognates [lit "hotel"] hotel_lexicon
  = [ {| PerfectDetector.Rank := 1;
         PerfectDetector.English_Meaning := lit "hotel";
         PerfectDetector.Word := lit "hotel";
         PerfectDetector.Languages_Found := lit "en,es,fr";
         PerfectDetector.Count := 3 |} ].
Proof. vm_compute. reflexivity. Qed.

Lemma perfect_record_has_both_witness :
  ∃ row, row ∈ PerfectDetector.find_universal_perfect_cognates
                 [lit "hotel"] hotel_lexicon ∧
         lit "es" ∈ split comma (PerfectDetector.Languages_Found row) ∧
         lit "fr" ∈ split comma (PerfectDetector.Languages_Found row).
Proof.
  destruct (perfect_record_has_both [lit "hotel"] hotel_lexicon 1
              (lit "es") (lit "fr") (lit "hotel"))
    as (row & Hin & _ & _ & _ & Ha & Hb).
  - simpl. lia.
  - vm_compute. discriminate.
  - apply (bool_decide_unpack _). vm_compute. exact I.
  - apply (bool_decide_unpack _). vm_compute. exact I.
  - vm_compute. discriminate.
  - vm_compute. discriminate.
  - vm_compute. reflexivity.
  - vm_compute. reflexivity.
  - by exists row.
Defined.

(** C3, as stated, fails at a rank whose reference word is empty, which
    the detector skips, and for languages that are not target languages,
    which it never reads. *)
Lemma perfect_record_missing :
  (¬ ∀ rank a b w,
       (1 ≤ rank ≤ Z.of_nat (length ([[]] : list str)))%Z → a ≠ b → w ≠ [] →
       PerfectDetector.word_at [[]] hotel_lexicon a rank = w →
       PerfectDetector.word_at [[]] hotel_lexicon b rank = w →
       ∃ row, row ∈ PerfectDetector.find_universal_perfect_cognates [[]] hotel_lexicon ∧
              PerfectDetector.Rank row = rank ∧
              a ∈ split comma (PerfectDetector.Languages_Found row) ∧
              b ∈ split comma (PerfectDetector.Languages_Found row)) ∧
  (¬ ∀ rank a b w,
       (1 ≤ rank ≤ Z.of_nat (length [lit "water"]))%Z → a ≠ b → w ≠ [] →
       PerfectDetector.word_at [lit "water"] dutch_lexicon a rank = w →
       PerfectDetector.word_at [lit "water"] dutch_lexicon b rank = w →
       ∃ row, row ∈ PerfectDetector.find_universal_perfect_cognates
                      [lit "water"] dutch_lexicon ∧
              PerfectDetector.Rank row = rank ∧
              a ∈ split comma (PerfectDetector.Languages_Found row) ∧
              b ∈ split comma (PerfectDetector.Languages_Found row)).
Proof.
  split.
  - intros Hall.
    destruct (Hall 1%Z (lit "es") (lit "fr") (lit "hotel")) as (row & Hin & _).
    + simpl. lia.
    + vm_compute. discriminate.
    + vm_compute. discriminate.
    + vm_compute. reflexivity.
    + vm_compute. reflexivity.
    + vm_compute in Hin. by apply elem_of_nil in Hin.
  - intros Hall.
    destruct (Hall 1%Z (lit "de") (lit "nl") (lit "hotel")) as (row & Hin & _).
    + simpl. lia.
    + vm_compute. discriminate.
    + vm_compute. discriminate.
    + vm_compute. reflexivity.
    + vm_compute. reflexivity.
    + vm_compute in Hin. by apply elem_of_nil in Hin.
Qed.

Example zebra_perfect_rows :
  PerfectDetector.Word <$>
    PerfectDetector.find_universal_perfect_cognates [lit "zebra"] zebra_lexicon
  = [lit "zebra"; lit "apple"].
Proof. vm_compute. reflexivity. Qed.

(** C4, as stated, fails: within rank 1 the record of "zebra", the
    reference word, comes before the record of "apple". *)
Lemma perfect_records_not_lexicographic :
  ¬ StronglySorted
      (λ r1 r2, (PerfectDetector.Rank r1 < PerfectDetector.Rank r2)%Z ∨
                (PerfectDetector.Rank r1 = PerfectDetector.Rank r2 ∧
                 str_le (PerfectDetector.Word r1) (PerfectDetector.Word r2)))
      (PerfectDetector.find_universal_perfect_cognates [lit "zebra"] zebra_lexicon).
Proof.
  intros Hs.
  destruct (PerfectDetector.find_universal_perfect_cognates _ _)
    as [|r1 [|r2 rest]] eqn:Hrows; try (vm_compute in Hrows; discriminate).
  apply StronglySorted_cons in Hs as [Hall _].
  apply Forall_cons in Hall as [Hr _].
  vm_compute in Hrows. injection Hrows as <- <- _.
  vm_compute in Hr. destruct Hr as [Hr|[_ Hr]]; discriminate.
Qed.

(** ** The order on strings *)

Lemma str_leb_refl (a : str) : str_leb a a = true.
Proof. induction a as [|x a IH]; simpl; [done|]. by rewrite bool_decide_eq_true_2. Qed.

Lemma str_leb_total (a b : str) : str_leb a b = true ∨ str_leb b a = true.
Proof.
  revert b. induction a as [|x a IH]; intros [|y b]; simpl; auto.
  destruct (decide (x = y)) as [->|Hne].
  - rewrite !bool_decide_eq_true_2 by done. apply IH.
  - rewrite (bool_decide_eq_false_2 (x = y)), (bool_decide_eq_false_2 (y = x))
      by congruence.
    destruct (decide (x < y)%N).
    + left. by apply bool_decide_eq_true_2.
    + right. apply bool_decide_eq_true_2. lia.
Qed.

Lemma str_leb_antisym (a b : str) :
  str_leb a b = true → str_leb b a = true → a = b.
Proof.
  revert b. induction a as [|x a IH]; intros [|y b]; simpl; try done.
  destruct (decide (x = y)) as [->|Hne].
  - rewrite !bool_decide_eq_true_2 by done. intros ? ?. f_equal. by apply IH.
  - rewrite (bool_decide_eq_false_2 (x = y)), (bool_decide_eq_false_2 (y = x))
      by congruence.
    intros ?%bool_decide_eq_true ?%bool_decide_eq_true. lia.
Qed.

Lemma str_leb_trans (a b c : str) :
  str_leb a b = true → str_leb b c = true → str_leb a c = true.
Proof.
  revert b c. induction a as [|x a IH]; intros [|y b] [|z c]; simpl; try done.
  destruct (decide (x = y)) as [->|Hxy].
  - rewrite (bool_decide_eq_true_2 (y = y)) by done.
    destruct (decide (y = z)) as [->|Hyz].
    + rewrite !bool_decide_eq_true_2 by done. apply IH.
    + rewrite !(bool_decide_eq_false_2 (y = z)) by done. auto.
  - rewrite (bool_decide_eq_false_2 (x = y)) by done.
    intros Hlt%bool_decide_eq_true.
    destruct (decide (y = z)) as [->|Hyz].
    + rewrite (bool_decide_eq_true_2 (z = z)) by done. intros _.
      rewrite (bool_decide_eq_false_2 (x = z)) by done.
      by apply bool_decide_eq_true_2.
    + rewrite (bool_decide_eq_false_2 (y = z)) by done.
      intros Hlt'%bool_decide_eq_true.
      rewrite (bool_decide_eq_false_2 (x = z)) by lia.
      apply bool_decide_eq_true_2. lia.
Qed.




(** ** The merge and audit pipeline *)

Section master.
Import Master.

(** *** Normalization of the Perfect records *)

(** The two nested loops over indices enumerate
    [itertools.combinations(languages, 2)]. *)
Lemma index_loop_fmap {B} (h : str → B) (full l : list str) (k : nat) :
  (∀ j, j < length l → full !! (k + j) = l !! j) →
  seq k (length l) ≫= (λ j, [h (default [] (full !! j))]) = h <$> l.
Proof.
  revert k. induction l as [|y l IH]; intros k Hfull; [done|].
  cbn [length seq]. rewrite bind_cons, fmap_cons.
  pose proof (Hfull 0) as H0. rewrite Nat.add_0_r in H0.
  rewrite H0 by (simpl; lia). simpl. f_equal.
  apply IH. intros j Hj. specialize (Hfull (S j)).
  rewrite Nat.add_succ_r in Hfull. apply Hfull. simpl. lia.
Qed.

Lemma index_loops_combinations {B} (h : str → str → B)
    (full l : list str) (k n : nat) :
  n = k + length l →
  (∀ j, j < length l → full !! (k + j) = l !! j) →
  seq k (length l) ≫= (λ i,
    seq (i + 1) (n - (i + 1)) ≫= (λ j,
      [h (default [] (full !! i)) (default [] (full !! j))]))
  = (λ p, h p.1 p.2) <$> combinations2 l.
Proof.
  revert k. induction l as [|x l IH]; intros k Hn Hfull; [done|].
  cbn [length seq combinations2]. rewrite bind_cons, fmap_app.
  assert (∀ j, j < length l → full !! (S k + j) = l !! j) as Hfull'.
  { intros j Hj. specialize (Hfull (S j)).
    rewrite Nat.add_succ_r in Hfull. apply Hfull. simpl. lia. }
  f_equal.
  - pose proof (Hfull 0) as H0. rewrite Nat.add_0_r in H0.
    rewrite H0 by (simpl; lia). simpl in Hn |- *.
    replace (n - (k + 1)) with (length l) by lia.
    replace (k + 1) with (S k) by lia.
    rewrite (index_loop_fmap (h x) full l (S k) Hfull').
    by rewrite <-list_fmap_compose.
  - apply IH; [simpl in Hn; lia|done].
Qed.

Lemma length_combinations2 {A} (l : list A) :
  2 * length (combinations2 l) = length l * (length l - 1).
Proof.
  induction l as [|x l IH]; simpl; [done|].
  rewrite length_app, length_fmap, Nat.sub_0_r. nia.
Qed.




Lemma expand_perfect_combinations (r : PerfectDetector.perfect_row) :
  expand_perfect r =
  (λ p, {| Rank := PerfectDetector.Rank r;
           English_Reference := PerfectDetector.English_Meaning r;
           Word_A := PerfectDetector.Word r;
           Word_B := PerfectDetector.Word r;
           Lang_A := strip p.1;
           Lang_B := strip p.2;
           Match_Type := Perfect;
           Similarity_Score := 1 |})
  <$> combinations2 (split comma (PerfectDetector.Languages_Found r)).
Proof.
  unfold expand_perfect.
  set (languages := split comma (PerfectDetector.Languages_Found r)).
  pose proof (index_loops_combinations
    (λ a b, {| Rank := PerfectDetector.Rank r;
               English_Reference := PerfectDetector.English_Meaning r;
               Word_A := PerfectDetector.Word r;
               Word_B := PerfectDetector.Word r;
               Lang_A := strip a;
               Lang_B := strip b;
               Match_Type := Perfect;
               Similarity_Score := 1 |}) languages languages 0
    (length languages) eq_refl (λ j _, eq_refl)) as Hloops.
  exact Hloops.
Qed.





End master.

(** *** Deduplication *)

Section dedup.
Import Master.
Context {A : Type} (key : A → str).

(** The rows kept are the first ones of their key, for the keys not seen
    before. *)
Lemma elem_of_drop_duplicates_from seen (l : list A) x :
  x ∈ drop_duplicates_from key seen l ↔
  ∃ l1 l2, l = l1 ++ x :: l2 ∧ key x ∉ seen ∧ key x ∉ key <$> l1.
Proof.
  revert seen. induction l as [|y l IH]; intros seen; simpl.
  - rewrite elem_of_nil. split; [done|].
    intros (l1 & l2 & Heq & _). by destruct l1.
  - case_bool_decide as Hseen.
    + rewrite IH. split.
      * intros (l1 & l2 & -> & Hx & Hl1). exists (y :: l1), l2.
        split; [done|]. split; [done|]. rewrite fmap_cons, not_elem_of_cons.
        split; [congruence|done].
      * intros (l1 & l2 & Heq & Hx & Hl1). destruct l1 as [|z l1].
        -- simpl in Heq. injection Heq as -> ->. done.
        -- simpl in Heq. injection Heq as -> ->. exists l1, l2.
           rewrite fmap_cons, not_elem_of_cons in Hl1. naive_solver.
    + rewrite elem_of_cons, IH. split.
      * intros [->|(l1 & l2 & -> & Hx & Hl1)].
        -- exists [], l. split; [done|]. split; [done|]. apply not_elem_of_nil.
        -- exists (y :: l1), l2. split; [done|].
           rewrite not_elem_of_union, not_elem_of_singleton in Hx.
           split; [naive_solver|]. rewrite fmap_cons, not_elem_of_cons.
           naive_solver.
      * intros (l1 & l2 & Heq & Hx & Hl1). destruct l1 as [|z l1].
        -- simpl in Heq. injection Heq as -> ->. by left.
        -- simpl in Heq. injection Heq as -> ->. right. exists l1, l2.
           rewrite fmap_cons, not_elem_of_cons in Hl1.
           rewrite not_elem_of_union, not_elem_of_singleton. naive_solver.
Qed.

Lemma drop_duplicates_from_NoDup seen (l : list A) :
  NoDup (key <$> drop_duplicates_from key seen l).
Proof.
  revert seen. induction l as [|y l IH]; intros seen; simpl; [constructor|].
  case_bool_decide; [apply IH|].
  rewrite fmap_cons. apply NoDup_cons. split; [|apply IH].
  intros (x & Hk & Hx)%list_elem_of_fmap.
  apply elem_of_drop_duplicates_from in Hx as (_ & _ & _ & Hseen & _).
  apply Hseen. rewrite Hk. set_solver.
Qed.

Lemma drop_duplicates_from_complete seen (l : list A) x :
  x ∈ l → key x ∉ seen →
  ∃ y, y ∈ drop_duplicates_from key seen l ∧ key y = key x.
Proof.
  revert seen. induction l as [|z l IH]; intros seen; [by rewrite elem_of_nil|].
  rewrite elem_of_cons. intros Hin Hseen. simpl.
  case_bool_decide as Hz.
  - destruct Hin as [->|Hin]; [done|]. by apply IH.
  - destruct (decide (key z = key x)) as [Heq|Hne].
    + exists z. split; [left|done].
    + destruct Hin as [->|Hin]; [done|].
      destruct (IH ({[key z]} ∪ seen) Hin) as (y & Hy & Hk); [set_solver|].
      exists y. split; [by right|done].
Qed.

End dedup.

(** *** The master table *)

Section master_table.
Import Master.
Context `{S : Sort} `{!SortLaws S}.







End master_table.

Example hotel_master_rows :
  fmap (M := list)
       (λ r, (Master.Lang_A (Master.cols r), Master.Lang_B (Master.cols r),
              Master.Match_Type (Master.cols r), Master.Audit_Status r))
    <$> hotel_master
  = Some [ (lit "es", lit "fr", Master.Perfect, Master.OK);
           (lit "en", lit "es", Master.Perfect, Master.OK);
           (lit "en", lit "fr", Master.Perfect, Master.OK) ].
Proof. vm_compute. reflexivity. Qed.

(** * Further properties of the three scripts *)

(** ** Trimming *)

Lemma lstrip_all_space (s : str) : all_space s = true → lstrip s = [].
Proof.
  induction s as [|c s IH]; simpl; [done|].
  intros [Hc Hs]%andb_true_iff. rewrite Hc. by apply IH.
Qed.

Lemma lstrip_nil_all_space (s : str) : lstrip s = [] → all_space s = true.
Proof.
  induction s as [|c s IH]; simpl; [done|].
  destruct (is_space c); [simpl; apply IH|done].
Qed.

Lemma lstrip_app (a b : str) :
  lstrip (a ++ b) = if all_space a then lstrip b else lstrip a ++ b.
Proof.
  induction a as [|c a IH]; simpl; [done|].
  destruct (is_space c); simpl; [apply IH|done].
Qed.

Lemma all_space_reverse (s : str) : all_space (reverse s) = all_space s.
Proof.
  unfold all_space. induction s as [|c s IH]; [done|].
  rewrite reverse_cons, forallb_app, IH. simpl.
  rewrite andb_true_r. apply andb_comm.
Qed.

Lemma rstrip_cons (c : N) (s : str) :
  rstrip (c :: s) = if is_space c && all_space s then [] else c :: rstrip s.
Proof.
  unfold rstrip. rewrite reverse_cons, lstrip_app, all_space_reverse.
  destruct (all_space s) eqn:Hs.
  - rewrite andb_true_r. simpl. destruct (is_space c); [done|].
    rewrite lstrip_all_space by (by rewrite all_space_reverse). done.
  - rewrite andb_false_r, reverse_app. done.
Qed.

Lemma rstrip_all_space (s : str) : all_space s = true → rstrip s = [].
Proof.
  intros Hs. unfold rstrip.
  rewrite lstrip_all_space by (by rewrite all_space_reverse). done.
Qed.

Lemma lstrip_idemp (s : str) : lstrip (lstrip s) = lstrip s.
Proof.
  induction s as [|c s IH]; simpl; [done|].
  destruct (is_space c) eqn:Hc; [done|]. simpl. by rewrite Hc.
Qed.

Lemma rstrip_idemp (s : str) : rstrip (rstrip s) = rstrip s.
Proof. unfold rstrip. by rewrite reverse_involutive, lstrip_idemp. Qed.

Lemma lstrip_rstrip (s : str) : lstrip (rstrip s) = rstrip (lstrip s).
Proof.
  induction s as [|c s IH]; [done|].
  rewrite rstrip_cons. simpl.
  destruct (is_space c) eqn:Hc; simpl.
  - destruct (all_space s) eqn:Hs; simpl.
    + by rewrite lstrip_all_space, rstrip_all_space.
    + by rewrite Hc.
  - by rewrite Hc, rstrip_cons, Hc.
Qed.

Lemma strip_idemp (s : str) : strip (strip s) = strip s.
Proof.
  unfold strip. by rewrite lstrip_rstrip, lstrip_idemp, rstrip_idemp.
Qed.

(** ** Loading the lexicon *)

Section loading.
Import Fuzzy.

Lemma load_row_parse acc row :
  load_row acc row =
  match parse_row row with
  | None => acc
  | Some (lang, r, w) =>
      {| by_lang_rank := <[(lang, r) := w]> (by_lang_rank acc);
         languages := {[lang]} ∪ languages acc;
         max_rank := if bool_decide (max_rank acc < r)%Z then r else max_rank acc |}
  end.
Proof.
  unfold load_row, parse_row. case_bool_decide; [done|].
  destruct (rank row); [|done]. by case_bool_decide.
Qed.

Lemma perfect_load_row_parse acc row :
  PerfectDetector.load_row acc row =
  match parse_row row with
  | None => acc
  | Some (lang, r, w) => <[(lang, r) := w]> acc
  end.
Proof.
  unfold PerfectDetector.load_row, parse_row. case_bool_decide; [done|].
  destruct (rank row); [|done]. by case_bool_decide.
Qed.

Lemma parse_row_clean row lang r w :
  parse_row row = Some (lang, r, w) →
  lang ≠ [] ∧ strip lang = lang ∧ w ≠ [] ∧ strip w = w.
Proof.
  unfold parse_row. case_bool_decide as Hl; [done|].
  destruct (rank row); [|done]. case_bool_decide as Hw; [done|].
  intros [= <- <- <-]. by rewrite !strip_idemp.
Qed.

Lemma load_raw_data_snoc rows row :
  load_raw_data (rows ++ [row]) = load_row (load_raw_data rows) row.
Proof. unfold load_raw_data. by rewrite foldl_app. Qed.

(** X1: after [load_raw_data], the entry of a language and a rank is the
    trimmed word of the last row of the file that is kept for them (a row
    is kept when its language and its word are not blank and its rank is a
    number); there is no entry when no row is kept for them. *)
Theorem load_raw_data_last_wins rows lang r :
  by_lang_rank (load_raw_data rows) !! (lang, r)
  = last (omap (row_for lang r) rows).
Proof.
  induction rows as [|row rows IH] using rev_ind; [done|].
  rewrite load_raw_data_snoc, load_row_parse, omap_app. simpl.
  unfold row_for at 2.
  destruct (parse_row row) as [[[l r'] w]|]; simpl.
  - case_bool_decide as Hkey.
    + destruct Hkey as [-> ->]. by rewrite lookup_insert_eq, last_snoc.
    + rewrite lookup_insert_ne by naive_solver. by rewrite app_nil_r.
  - by rewrite app_nil_r.
Qed.

(** X2: the words of the lexicon are not empty and have no white space at
    either end, and so are its languages; the languages returned are
    exactly those that have an entry. *)
Theorem load_raw_data_clean rows :
  let data := load_raw_data rows in
  (∀ lang r w, by_lang_rank data !! (lang, r) = Some w →
     w ≠ [] ∧ strip w = w ∧ lang ≠ [] ∧ strip lang = lang) ∧
  (∀ lang, lang ∈ languages data ↔
           ∃ r, is_Some (by_lang_rank data !! (lang, r))).
Proof.
  induction rows as [|row rows IH] using rev_ind.
  - simpl. split.
    + intros lang r w Hlk. by rewrite lookup_empty in Hlk.
    + intros lang. split; [set_solver|].
      intros (r & w & Hlk). by rewrite lookup_empty in Hlk.
  - rewrite load_raw_data_snoc, load_row_parse. simpl in IH.
    destruct IH as [IHw IHl].
    destruct (parse_row row) as [[[l r'] w']|] eqn:Hparse; [|done].
    apply parse_row_clean in Hparse as (? & ? & ? & ?). simpl. split.
    + intros lang r w Hlk.
      destruct (decide ((l, r') = (lang, r))) as [[= <- <-]|Hne].
      * rewrite lookup_insert_eq in Hlk. by injection Hlk as <-.
      * rewrite lookup_insert_ne in Hlk by done. by eapply IHw.
    + intros lang. rewrite elem_of_union, elem_of_singleton, IHl. split.
      * intros [->|(r & Hr)].
        -- exists r'. by rewrite lookup_insert_eq.
        -- exists r. destruct (decide ((l, r') = (lang, r))) as [[= <- <-]|Hne].
           ++ by rewrite lookup_insert_eq.
           ++ by rewrite lookup_insert_ne.
      * intros (r & Hr).
        destruct (decide ((l, r') = (lang, r))) as [[= <- <-]|Hne]; [by left|].
        rewrite lookup_insert_ne in Hr by done. right. by exists r.
Qed.

(** X3: a row that is not kept (blank language, rank that is not a number,
    blank word) changes nothing of what [load_raw_data] returns, wherever
    it stands in the file. *)
Theorem load_raw_data_skips rows1 bad rows2 :
  parse_row bad = None →
  load_raw_data (rows1 ++ bad :: rows2) = load_raw_data (rows1 ++ rows2).
Proof.
  intros Hbad. unfold load_raw_data. rewrite !foldl_app. simpl.
  by rewrite load_row_parse, Hbad.
Qed.

(** X4: the two scripts load the same lexicon from the same file. *)
Theorem loaders_agree rows :
  PerfectDetector.load_raw_data rows = by_lang_rank (load_raw_data rows).
Proof.
  induction rows as [|row rows IH] using rev_ind; [done|].
  rewrite load_raw_data_snoc. unfold PerfectDetector.load_raw_data in *.
  rewrite foldl_app. simpl. rewrite IH, perfect_load_row_parse, load_row_parse.
  by destruct (parse_row row) as [[[l r] w]|].
Qed.

End loading.

(** ** The pattern delta, further *)

Section delta_more.
Import Fuzzy.

Lemma is_common_prefix_sym (a b : str) n :
  is_common_prefix a b n → is_common_prefix b a n.
Proof. intros (? & ? & ?). by split; [|split]. Qed.

Lemma is_common_suffix_sym (a b : str) n :
  is_common_suffix a b n → is_common_suffix b a n.
Proof. intros (? & ? & ?). by split; [|split]. Qed.

Lemma longest_common_prefix_sym (a b : str) :
  longest_common_prefix a b = longest_common_prefix b a.
Proof.
  destruct (longest_common_prefix_spec a b) as [Hab Hab'].
  destruct (longest_common_prefix_spec b a) as [Hba Hba'].
  apply Nat.le_antisymm.
  - by apply Hba', is_common_prefix_sym.
  - by apply Hab', is_common_prefix_sym.
Qed.

Lemma longest_common_suffix_sym (a b : str) :
  longest_common_suffix a b = longest_common_suffix b a.
Proof.
  destruct (longest_common_suffix_spec a b) as [Hab Hab'].
  destruct (longest_common_suffix_spec b a) as [Hba Hba'].
  apply Nat.le_antisymm.
  - by apply Hba', is_common_suffix_sym.
  - by apply Hab', is_common_suffix_sym.
Qed.

Lemma delta_lengths_sym (a b : str) : delta_lengths a b = delta_lengths b a.
Proof.
  unfold delta_lengths.
  rewrite (longest_common_prefix_sym a b), (longest_common_suffix_sym a b).
  by rewrite (Nat.min_comm (length a)).
Qed.

(** The outcome of [detect_delta] on two non-empty words, from the two
    lengths that [delta_lengths] returns. *)
Lemma detect_delta_result_middles (a b : str) :
  a ≠ [] → b ≠ [] →
  ∃ p s, delta_lengths a b = (p, s) ∧
         p = longest_common_prefix a b ∧
         p + s ≤ length a `min` length b ∧
         take p a = take p b ∧ is_common_suffix a b s ∧
         ((a = b ∧ middle a p s = [] ∧ middle b p s = [] ∧
           detect_delta_result a b = NoDelta) ∨
          ((middle a p s ≠ [] ∨ middle b p s ≠ []) ∧
           detect_delta_result a b = Delta (middle a p s) (middle b p s))).
Proof.
  intros Ha Hb.
  destruct (delta_lengths_spec a b) as (s & Hlen & _ & Hps & Hsuf).
  destruct (longest_common_prefix_spec a b) as [(_ & _ & Hpre) _].
  set (p := longest_common_prefix a b) in *.
  exists p, s. do 5 (split; [done|]).
  rewrite detect_delta_result_nonempty, Hlen by done. simpl.
  destruct (decide (middle a p s = [])) as [Hma|Hma];
    destruct (decide (middle b p s = [])) as [Hmb|Hmb].
  - left. assert (a = b) as Hab
      by (apply (middles_empty_eq a b p s); [lia|lia|done..]).
    rewrite (bool_decide_eq_true_2 _ Hma), (bool_decide_eq_true_2 _ Hmb).
    rewrite (bool_decide_eq_true_2 _ Hab). done.
  - right. split; [by right|].
    rewrite (bool_decide_eq_false_2 _ Hmb). by rewrite orb_true_r.
  - right. split; [by left|]. by rewrite (bool_decide_eq_false_2 _ Hma).
  - right. split; [by left|]. by rewrite (bool_decide_eq_false_2 _ Hma).
Qed.

(** X5: [detect_delta] returns the empty string exactly when one of the
    two words is empty or the two words are the same. *)
Theorem detect_delta_empty (a b : str) :
  detect_delta a b = [] ↔ a = [] ∨ b = [] ∨ a = b.
Proof.
  unfold detect_delta.
  destruct (decide (a = [])) as [->|Ha]; [by split; [left|]|].
  destruct (decide (b = [])) as [->|Hb].
  { split; [auto|]. intros _. unfold detect_delta_result.
    rewrite (bool_decide_eq_false_2 _ Ha). done. }
  destruct (detect_delta_result_middles a b Ha Hb)
    as (p & s & _ & Hp & Hps & _ & _ & [(Hab & _ & _ & ->)|[Hmid ->]]).
  - split; auto.
  - split; [intros Hnil; vm_compute in Hnil; discriminate|].
    intros [?|[?|Hab]]; [done|done|]. exfalso. subst b.
    assert (p = length a) as Hpa.
    { rewrite Hp.
      destruct (longest_common_prefix_spec a a) as [(Hle & _) Hmax].
      apply Nat.le_antisymm; [done|]. apply Hmax. by split; [|split]. }
    assert (s = 0) as -> by lia.
    rewrite middle_slice in Hmid. unfold slice in Hmid.
    replace (length a - 0 - p) with 0 in Hmid by lia.
    simpl in Hmid. naive_solver.
Qed.

(** X6: exchanging the two words exchanges the two middles: the outcome
    for [(b, a)] is the outcome for [(a, b)] with its two sides swapped. *)
Theorem detect_delta_swap (a b : str) :
  detect_delta_result b a =
  match detect_delta_result a b with
  | NoDelta => NoDelta
  | Delta a_mid b_mid => Delta b_mid a_mid
  | DeltaWhole x y => DeltaWhole y x
  end.
Proof.
  unfold detect_delta_result. rewrite (delta_lengths_sym b a).
  destruct (delta_lengths a b) as [p s].
  destruct (decide (a = [])) as [->|Ha].
  { simpl. by rewrite orb_true_r. }
  rewrite (bool_decide_eq_false_2 _ Ha).
  destruct (decide (b = [])) as [->|Hb]; [done|].
  rewrite (bool_decide_eq_false_2 _ Hb). simpl.
  destruct (decide (middle a p s = [])) as [Hma|Hma];
    destruct (decide (middle b p s = [])) as [Hmb|Hmb].
  - rewrite (bool_decide_eq_true_2 _ Hma), (bool_decide_eq_true_2 _ Hmb). simpl.
    destruct (decide (a = b)) as [->|Hab].
    + by rewrite bool_decide_eq_true_2.
    + rewrite (bool_decide_eq_false_2 _ Hab).
      rewrite (bool_decide_eq_false_2 (b = a)) by congruence. done.
  - rewrite (bool_decide_eq_true_2 _ Hma), (bool_decide_eq_false_2 _ Hmb). done.
  - rewrite (bool_decide_eq_false_2 _ Hma), (bool_decide_eq_true_2 _ Hmb). done.
  - rewrite (bool_decide_eq_false_2 _ Hma), (bool_decide_eq_false_2 _ Hmb). done.
Qed.

Lemma head_middle (w : str) p s :
  head (middle w p s) = if decide (p < length w - s) then w !! p else None.
Proof.
  rewrite middle_slice. unfold slice. rewrite head_lookup.
  case_decide.
  - rewrite lookup_take_lt by lia. rewrite lookup_drop. f_equal. lia.
  - replace (length w - s - p) with 0 by lia. done.
Qed.

(** X7: when [detect_delta] reports two middles, the two words are these
    middles between one and the same prefix and one and the same suffix,
    and the middles do not begin with the same character. *)
Theorem detect_delta_decompose (a b a_mid b_mid : str) :
  detect_delta_result a b = Delta a_mid b_mid →
  ∃ pre suf, a = pre ++ a_mid ++ suf ∧ b = pre ++ b_mid ++ suf ∧
             head a_mid ≠ head b_mid.
Proof.
  intros Hres.
  assert (a ≠ [] ∧ b ≠ []) as [Ha Hb].
  { unfold detect_delta_result in Hres.
    destruct (decide (a = [])) as [->|Ha]; [done|].
    destruct (decide (b = [])) as [->|Hb]; [|done].
    by rewrite (bool_decide_eq_false_2 _ Ha) in Hres. }
  destruct (detect_delta_result_middles a b Ha Hb)
    as (p & s & _ & Hp & Hps & Hpre & Hsuf & [(_ & _ & _ & Hno)|[Hmid Hdelta]]);
    [congruence|].
  rewrite Hdelta in Hres. injection Hres as <- <-.
  exists (take p a), (drop (length a - s) a). split; [|split].
  - apply middle_reconstruct. lia.
  - rewrite Hpre. destruct Hsuf as (_ & _ & ->). apply middle_reconstruct. lia.
  - rewrite !head_middle. intros Hhead.
    destruct (decide (p < length a - s)) as [Hla|Hla];
      destruct (decide (p < length b - s)) as [Hlb|Hlb].
    + destruct (lookup_lt_is_Some_2 a p) as [x Hx]; [lia|].
      destruct (longest_common_prefix_spec a b) as [_ Hmax].
      assert (S p ≤ p); [|lia]. rewrite Hp at 2. apply Hmax.
      split; [lia|]. split; [lia|].
      rewrite (take_S_r a p x Hx), (take_S_r b p x) by congruence.
      by rewrite Hpre.
    + destruct (lookup_lt_is_Some_2 a p) as [x Hx]; [lia|]. congruence.
    + destruct (lookup_lt_is_Some_2 b p) as [x Hx]; [lia|]. congruence.
    + assert (middle a p s = []) as Hma.
      { rewrite middle_slice. unfold slice.
        replace (length a - s - p) with 0 by lia. done. }
      assert (middle b p s = []) as Hmb.
      { rewrite middle_slice. unfold slice.
        replace (length b - s - p) with 0 by lia. done. }
      naive_solver.
Qed.

Lemma detect_delta_decompose_witness :
  ∃ pre suf, lit "nacion" = pre ++ lit "ion" ++ suf ∧
             lit "nacao" = pre ++ lit "ao" ++ suf.
Proof.
  destruct (detect_delta_decompose (lit "nacion") (lit "nacao")
              (lit "ion") (lit "ao")) as (pre & suf & Ha & Hb & _).
  - vm_compute. reflexivity.
  - by exists pre, suf.
Defined.

End delta_more.

(** ** The fuzzy-match detector, further *)

Lemma combinations2_sorted {A} (R : relation A) (l : list A) x y :
  StronglySorted R l → (x, y) ∈ combinations2 l → R x y.
Proof.
  induction l as [|z l IH]; simpl; [by rewrite elem_of_nil|].
  intros [Hall Hs]%StronglySorted_cons.
  rewrite elem_of_app, list_elem_of_fmap.
  intros [(y' & [= -> ->] & Hy)|Hin]; [|by apply IH].
  by apply (proj1 (Forall_forall _ _) Hall).
Qed.

Lemma StronglySorted_filter {A} (R : relation A) (P : A → Prop)
    `{!∀ x, Decision (P x)} (l : list A) :
  StronglySorted R l → StronglySorted R (filter P l).
Proof.
  induction l as [|z l IH]; [done|].
  intros [Hall Hs]%StronglySorted_cons. rewrite filter_cons.
  case_decide; [|by apply IH].
  apply StronglySorted_cons. split; [|by apply IH].
  apply Forall_forall. intros y [_ Hy]%list_elem_of_filter.
  by apply (proj1 (Forall_forall _ _) Hall).
Qed.

Lemma StronglySorted_omap {A B} (R : relation A) (R' : relation B)
    (g : A → option B) (l : list A) :
  (∀ x y x' y', x ∈ l → y ∈ l → R x y →
                g x = Some x' → g y = Some y' → R' x' y') →
  StronglySorted R l → StronglySorted R' (omap g l).
Proof.
  induction l as [|z l IH]; [constructor|].
  intros HR [Hall Hs]%StronglySorted_cons. simpl.
  assert (StronglySorted R' (omap g l)) as Hrest.
  { apply IH; [|done]. intros x y x' y' Hx Hy. apply HR; by right. }
  destruct (g z) as [z'|] eqn:Hz; [|done].
  apply StronglySorted_cons. split; [|done].
  apply Forall_forall. intros y' (y & Hy & Hgy)%list_elem_of_omap.
  apply (HR z y); [by left|by right| |done..].
  by apply (proj1 (Forall_forall _ _) Hall).
Qed.

Lemma combinations2_length {A} (l : list A) p :
  p ∈ combinations2 l → 2 ≤ length l.
Proof.
  destruct l as [|x [|y l]]; simpl; [by rewrite elem_of_nil| |lia].
  by rewrite elem_of_nil.
Qed.

(** The codes in [sorted(languages)] come in strictly increasing order. *)
Lemma sorted_elements_strict (langs : gset str) :
  StronglySorted (λ a b, str_le a b ∧ a ≠ b) (sorted (elements langs)).
Proof.
  assert (StronglySorted str_le (sorted (elements langs))) as Hs.
  { apply StronglySorted_merge_sort.
    - intros a b c. apply str_leb_trans.
    - intros a b. apply str_leb_total. }
  assert (NoDup (sorted (elements langs))) as Hnd.
  { unfold sorted. rewrite merge_sort_Permutation. apply NoDup_elements. }
  induction Hs as [|a l Hl IH Hall]; [constructor|].
  apply NoDup_cons in Hnd as [Ha Hnd].
  apply StronglySorted_cons. split; [|by apply IH].
  rewrite Forall_forall in Hall |- *. intros b Hb.
  split; [by apply Hall|]. intros ->. done.
Qed.

Section fuzzy_more.
Import Fuzzy.
Context `{E : Numeric}.

(** A row of one rank comes from one pair of
    [itertools.combinations(entries, 2)], and each pair that passes the
    guards gives its row. *)
Lemma elem_of_near_rows_at_pair english blr langs thr rank row :
  row ∈ near_rows_at english blr langs thr rank ↔
  let em := english_at english rank in
  em ≠ [] ∧
  ∃ e1 e2,
    (e1, e2) ∈ combinations2
                 (filter (λ e, 4 ≤ length e.2) (collect_entries em blr langs rank)) ∧
    row ∈ compare_pair thr rank em (e1, e2).
Proof.
  unfold near_rows_at. simpl.
  set (em := english_at english rank).
  set (entries := filter _ (collect_entries em blr langs rank)).
  case_bool_decide as Hen.
  { rewrite elem_of_nil. split; [done|]. intros [Hne _].
    destruct em; [done|]. simpl in Hen. lia. }
  assert (em ≠ []) as Hem by (intros Hnil; rewrite Hnil in Hen; simpl in Hen; lia).
  case_bool_decide as Hcnt.
  { rewrite elem_of_nil. split; [done|].
    intros (_ & e1 & e2 & Hpair%combinations2_length & _). lia. }
  rewrite list_elem_of_bind. split.
  - intros ([e1 e2] & Hrow & Hpair). split; [done|]. by exists e1, e2.
  - intros (_ & e1 & e2 & Hpair & Hrow). by exists (e1, e2).
Qed.

Lemma elem_of_lexicon_entries (blr : gmap (str * Z) str) (langs : gset str)
    (rank : Z) (e : str * str) :
  e ∈ omap (λ lang_code,
              let word := strip (default [] (blr !! (lang_code, rank))) in
              if bool_decide (word = []) then None else Some (lang_code, word))
           (sorted (elements langs)) →
  e.1 ∈ langs ∧ e.2 = strip (default [] (blr !! (e.1, rank))).
Proof.
  intros (lang & Hlang & He)%list_elem_of_omap. simpl in He.
  case_bool_decide; [done|]. injection He as <-. simpl. split; [|done].
  unfold sorted in Hlang. rewrite merge_sort_Permutation in Hlang.
  by apply elem_of_elements in Hlang.
Qed.

Lemma collect_entries_sorted (em : str) (blr : gmap (str * Z) str)
    (langs : gset str) (rank : Z) :
  StronglySorted (entry_order em blr langs rank)
    (collect_entries em blr langs rank).
Proof.
  unfold collect_entries. apply StronglySorted_cons. split.
  - apply Forall_forall. intros e He%elem_of_lexicon_entries.
    split; [done|by left].
  - eapply StronglySorted_omap; [|apply sorted_elements_strict].
    intros a b e1 e2 Ha Hb [Hle Hne] He1 He2. simpl in He1, He2.
    repeat case_bool_decide; try done.
    injection He1 as <-. injection He2 as <-. simpl.
    unfold sorted in Ha, Hb. rewrite merge_sort_Permutation in Ha, Hb.
    apply elem_of_elements in Ha, Hb. split; [done|]. right. done.
Qed.

Lemma compare_pair_fields thr rank em (e1 e2 : str * str) row :
  row ∈ compare_pair thr rank em (e1, e2) →
  Rank row = rank ∧ English_Meaning row = em ∧
  (Language_A row, Word_A row) = e1 ∧ (Language_B row, Word_B row) = e2 ∧
  Word_A row ≠ Word_B row ∧ 4 ≤ length (Word_A row) ∧ 4 ≤ length (Word_B row) ∧
  Pattern_Detected row = detect_delta (Word_A row) (Word_B row).
Proof.
  destruct e1 as [la wa], e2 as [lb wb].
  intros (? & ? & ? & _ & _ & ->)%elem_of_compare_pair. simpl. done.
Qed.

(** X8: in every row of the detector, the rank is within the bound and has
    a non-empty reference word, which is the [English_Meaning]; side B is a
    language of the lexicon with its trimmed word at that rank; side A is
    either the reference ("en" with the reference word) or a language of
    the lexicon, with its word, whose code is strictly before the code of
    side B in the order of strings. *)
Theorem near_row_provenance (english : list str) (blr : gmap (str * Z) str)
    (langs : gset str) max_rank_data thr row :
  row ∈ find_near_cognates english blr langs max_rank_data thr →
  (1 ≤ Rank row ≤ Z.of_nat (length english) `min` max_rank_data)%Z ∧
  English_Meaning row = english_at english (Rank row) ∧
  English_Meaning row ≠ [] ∧
  Language_B row ∈ langs ∧
  Word_B row = strip (default [] (blr !! (Language_B row, Rank row))) ∧
  ((Language_A row = lit "en" ∧ Word_A row = English_Meaning row) ∨
   (Language_A row ∈ langs ∧
    Word_A row = strip (default [] (blr !! (Language_A row, Rank row))) ∧
    str_le (Language_A row) (Language_B row) ∧
    Language_A row ≠ Language_B row)).
Proof.
  intros (rank & Hrank & Hrow)%elem_of_find_near_cognates.
  apply elem_of_near_rows_at_pair in Hrow as (Hem & e1 & e2 & Hpair & Hrow).
  apply compare_pair_fields in Hrow as (-> & Hen & He1 & He2 & _).
  assert (entry_order (english_at english rank) blr langs rank e1 e2)
    as [[HB1 HB2] HA].
  { eapply combinations2_sorted; [|exact Hpair].
    apply StronglySorted_filter, collect_entries_sorted. }
  rewrite <-He1, <-He2 in *. simpl in *.
  split; [done|]. split; [done|]. split; [by rewrite Hen|].
  split; [done|]. split; [done|].
  destruct HA as [[= -> ->]|(? & ? & ? & ?)]; [left|right]; by rewrite ?Hen.
Qed.

Lemma bind_ranks_le {A} (rk : A → Z) (ranks : list Z) (g : Z → list A) :
  StronglySorted Z.lt ranks →
  (∀ r row, row ∈ g r → rk row = r) →
  StronglySorted (λ x y, (rk x ≤ rk y)%Z) (ranks ≫= g).
Proof.
  intros Hranks Hrank.
  induction ranks as [|r ranks IH]; [constructor|].
  apply StronglySorted_cons in Hranks as [Hall Hranks].
  change ((r :: ranks) ≫= g) with (g r ++ ranks ≫= g).
  apply StronglySorted_app_2; [| |by apply IH].
  - intros x y Hx (r' & Hy & Hr')%list_elem_of_bind.
    rewrite (Hrank _ _ Hx), (Hrank _ _ Hy).
    apply Z.lt_le_incl. by apply (proj1 (Forall_forall _ _) Hall).
  - assert (∀ l : list A, (∀ x, x ∈ l → rk x = r) →
              StronglySorted (λ x y, (rk x ≤ rk y)%Z) l) as Hsame.
    { intros l. induction l as [|x l IHl]; intros Hl; [constructor|].
      apply StronglySorted_cons. split.
      - apply Forall_forall. intros y Hy.
        rewrite (Hl x), (Hl y); [lia|by right|by left].
      - apply IHl. intros y Hy. apply Hl. by right. }
    apply Hsame. intros x Hx. by apply Hrank.
Qed.

(** X9: the rows of the detector are in ascending order of rank. *)
Theorem near_rows_rank_ascending (english : list str) (blr : gmap (str * Z) str)
    (langs : gset str) max_rank_data thr :
  StronglySorted (λ r1 r2, (Rank r1 ≤ Rank r2)%Z)
    (find_near_cognates english blr langs max_rank_data thr).
Proof.
  unfold find_near_cognates. apply bind_ranks_le; [apply seqZ_sorted|].
  intros r row (_ & e1 & e2 & _ & Hrow)%elem_of_near_rows_at_pair.
  by apply compare_pair_fields in Hrow as (? & _).
Qed.

(** X10: the pattern of every row is a "delta: ..." description of two
    middles that are not both empty: it is never empty and never a
    "delta_whole: ..." description. *)
Theorem near_row_pattern (english : list str) (blr : gmap (str * Z) str)
    (langs : gset str) max_rank_data thr row :
  row ∈ find_near_cognates english blr langs max_rank_data thr →
  ∃ a_mid b_mid,
    (a_mid ≠ [] ∨ b_mid ≠ []) ∧
    detect_delta_result (Word_A row) (Word_B row) = Delta a_mid b_mid ∧
    Pattern_Detected row
      = lit "delta: '" ++ a_mid ++ lit "' vs '" ++ b_mid ++ lit "'".
Proof.
  intros (rank & _ & Hrow)%elem_of_find_near_cognates.
  apply elem_of_near_rows_at_pair in Hrow as (_ & e1 & e2 & _ & Hrow).
  apply compare_pair_fields in Hrow as (_ & _ & _ & _ & Hne & Hla & Hlb & Hpat).
  assert (Word_A row ≠ []) as Ha by (intros Hnil; rewrite Hnil in Hla; simpl in Hla; lia).
  assert (Word_B row ≠ []) as Hb by (intros Hnil; rewrite Hnil in Hlb; simpl in Hlb; lia).
  destruct (detect_delta_result_middles _ _ Ha Hb)
    as (p & s & _ & _ & _ & _ & _ & [(Hab & _)|[Hmid Hres]]); [done|].
  exists (middle (Word_A row) p s), (middle (Word_B row) p s).
  split; [done|]. split; [done|].
  rewrite Hpat. unfold detect_delta. by rewrite Hres.
Qed.

Lemma bind_all_nil {A B} (g : A → list B) (l : list A) :
  (∀ x, x ∈ l → g x = []) → l ≫= g = [].
Proof.
  induction l as [|x l IH]; intros Hg; [done|].
  change ((x :: l) ≫= g) with (g x ++ l ≫= g).
  rewrite (Hg x) by left. apply IH. intros y Hy. apply Hg. by right.
Qed.

(** X11: the detector returns no row when the reference list is empty,
    when the largest rank of the lexicon is not positive, or when the
    lexicon has no language. *)
Theorem near_detector_nothing (english : list str)
    (blr : gmap (str * Z) str) (langs : gset str) max_rank_data thr :
  english = [] ∨ (max_rank_data ≤ 0)%Z ∨ langs = ∅ →
  find_near_cognates english blr langs max_rank_data thr = [].
Proof.
  intros Hcase. unfold find_near_cognates.
  destruct Hcase as [->|[Hmax| ->]].
  - unfold range. by rewrite seqZ_nil by (simpl; lia).
  - unfold range. by rewrite seqZ_nil by lia.
  - apply bind_all_nil. intros rank _. unfold near_rows_at.
    case_bool_decide; [done|].
    unfold collect_entries. rewrite elements_empty.
    change (sorted []) with (@nil str). simpl.
    rewrite filter_cons, filter_nil. by case_decide.
Qed.

Lemma elem_of_combinations2_split {A} (l1 l2 l3 : list A) (x y : A) :
  (x, y) ∈ combinations2 (l1 ++ x :: l2 ++ y :: l3).
Proof.
  induction l1 as [|z l1 IH]; simpl.
  - apply elem_of_app. left. apply list_elem_of_fmap. exists y.
    split; [done|]. apply elem_of_app. right. left.
  - apply elem_of_app. by right.
Qed.

Lemma sorted_split (l : list str) (x y : str) :
  StronglySorted (λ a b, str_le a b ∧ a ≠ b) l →
  x ∈ l → y ∈ l → str_le x y → x ≠ y →
  ∃ l1 l2 l3, l = l1 ++ x :: l2 ++ y :: l3.
Proof.
  intros Hs Hx Hy Hle Hne.
  apply list_elem_of_split in Hx as (l1 & l' & ->).
  apply elem_of_app in Hy as [Hy|Hy].
  - apply StronglySorted_app in Hs as (Hcross & _ & _).
    destruct (Hcross y x Hy) as [Hyx _]; [left|].
    destruct Hne. by apply str_leb_antisym.
  - apply elem_of_cons in Hy as [->|Hy]; [done|].
    apply list_elem_of_split in Hy as (l2 & l3 & ->). by exists l1, l2, l3.
Qed.

(** X12: no qualifying pair is missed.  At a rank within the bound whose
    reference word is not empty, two languages of the lexicon, the first
    strictly before the second in the order of strings, whose trimmed
    words have four characters or more, differ and have a ratio strictly
    between the threshold and 1, give a row with these two sides. *)
Theorem near_pair_reported (english : list str)
    (blr : gmap (str * Z) str) (langs : gset str) max_rank_data thr
    (rank : Z) (la lb : str) :
  (1 ≤ rank ≤ Z.of_nat (length english) `min` max_rank_data)%Z →
  english_at english rank ≠ [] →
  la ∈ langs → lb ∈ langs → str_le la lb → la ≠ lb →
  let wa := strip (default [] (blr !! (la, rank))) in
  let wb := strip (default [] (blr !! (lb, rank))) in
  4 ≤ length wa → 4 ≤ length wb → wa ≠ wb →
  (thr < ratio wa wb)%Q → (ratio wa wb < 1)%Q →
  {| Rank := rank;
     English_Meaning := english_at english rank;
     Language_A := la; Word_A := wa;
     Language_B := lb; Word_B := wb;
     Similarity_Score := format_3f (ratio wa wb) # 1000;
     Pattern_Detected := detect_delta wa wb |}
  ∈ find_near_cognates english blr langs max_rank_data thr.
Proof.
  intros Hrank Hem Hla Hlb Hle Hne wa wb Hwa Hwb Hab Hlo Hhi.
  apply elem_of_find_near_cognates. exists rank. split; [done|].
  apply elem_of_near_rows_at_pair. split; [done|].
  exists (la, wa), (lb, wb). split; [|by apply elem_of_compare_pair].
  destruct (sorted_split (sorted (elements langs)) la lb)
    as (l1 & l2 & l3 & Hsplit); [apply sorted_elements_strict| | |done|done|].
  { unfold sorted. rewrite merge_sort_Permutation. by apply elem_of_elements. }
  { unfold sorted. rewrite merge_sort_Permutation. by apply elem_of_elements. }
  unfold collect_entries. rewrite Hsplit.
  set (g := λ lang_code : str,
              let word := strip (default [] (blr !! (lang_code, rank))) in
              if bool_decide (word = []) then None else Some (lang_code, word)).
  assert (g la = Some (la, wa)) as Hga.
  { unfold g. simpl. fold wa. rewrite bool_decide_eq_false_2; [done|].
    intros Hnil. rewrite Hnil in Hwa. simpl in Hwa. lia. }
  assert (g lb = Some (lb, wb)) as Hgb.
  { unfold g. simpl. fold wb. rewrite bool_decide_eq_false_2; [done|].
    intros Hnil. rewrite Hnil in Hwb. simpl in Hwb. lia. }
  rewrite omap_app. simpl. rewrite Hga, omap_app. simpl. rewrite Hgb.
  rewrite app_comm_cons, filter_app.
  rewrite (filter_cons_True _ (la, wa)) by done.
  rewrite filter_app, (filter_cons_True _ (lb, wb)) by done.
  apply elem_of_combinations2_split.
Qed.

End fuzzy_more.

Lemma near_detector_nothing_witness :
  Fuzzy.find_near_cognates (H := python_numeric) [lit "nation"]
    {[ (lit "es", 1%Z) := lit "nacion" ]} ∅ 1
    Fuzzy.threshold_default = [].
Proof. apply near_detector_nothing. right. right. reflexivity. Defined.

Lemma near_pair_reported_witness :
  ∃ row, row ∈ nation_near_rows ∧
         Fuzzy.Language_A row = lit "es" ∧ Fuzzy.Language_B row = lit "fr".
Proof.
  eexists. split.
  - apply (near_pair_reported (E := python_numeric) nation_english
             (Fuzzy.by_lang_rank nation_data) (Fuzzy.languages nation_data)
             (Fuzzy.max_rank nation_data) Fuzzy.threshold_default 1 (lit "es") (lit "fr")).
    + vm_compute. split; discriminate.
    + vm_compute. discriminate.
    + apply (bool_decide_unpack _). vm_compute. exact I.
    + apply (bool_decide_unpack _). vm_compute. exact I.
    + vm_compute. reflexivity.
    + vm_compute. discriminate.
    + vm_compute. lia.
    + vm_compute. lia.
    + vm_compute. discriminate.
    + vm_compute. reflexivity.
    + vm_compute. reflexivity.
  - split; reflexivity.
Defined.

(** ** The perfect-match detector, further *)

Lemma sorted_strict (l : list str) :
  NoDup l → StronglySorted (λ a b, str_le a b ∧ a ≠ b) (sorted l).
Proof.
  intros Hl.
  assert (StronglySorted str_le (sorted l)) as Hs.
  { apply StronglySorted_merge_sort.
    - intros a b c. apply str_leb_trans.
    - intros a b. apply str_leb_total. }
  assert (NoDup (sorted l)) as Hnd
    by (unfold sorted; by rewrite merge_sort_Permutation).
  induction Hs as [|a k Hk IH Hall]; [constructor|].
  apply NoDup_cons in Hnd as [Ha Hnd].
  apply StronglySorted_cons. split; [|by apply IH].
  rewrite Forall_forall in Hall |- *. intros b Hb.
  split; [by apply Hall|]. intros ->. done.
Qed.

Lemma languages_NoDup : NoDup PerfectDetector.LANGUAGES.*1.
Proof. apply (bool_decide_unpack _). vm_compute. exact I. Qed.

Lemma foldl_ext_in {A B} (f g : A → B → A) (l : list B) (a : A) :
  (∀ x d, x ∈ l → f d x = g d x) → foldl f a l = foldl g a l.
Proof.
  revert a. induction l as [|x l IH]; intros a Hfg; [done|]. simpl.
  rewrite (Hfg x a) by left. apply IH. intros y d Hy. apply Hfg. by right.
Qed.

Section perfect_more.
Import PerfectDetector WordDict.
Variables (english : list str) (blr : gmap (str * Z) str).

(** The codes written in [Languages_Found] are read back by the split. *)
Lemma languages_found_split (codes : list str) :
  codes ≠ [] → codes ⊆ LANGUAGES.*1 →
  split comma (join [comma] (sorted codes)) = sorted codes.
Proof.
  intros Hne Hsub. apply split_join.
  - intros Hnil. destruct codes as [|c codes]; [done|].
    assert (c ∈ sorted (c :: codes)) as Hc
      by (unfold sorted; rewrite merge_sort_Permutation; left).
    rewrite Hnil in Hc. by apply elem_of_nil in Hc.
  - apply Forall_forall. intros c Hc.
    unfold sorted in Hc. rewrite merge_sort_Permutation in Hc.
    apply (proj1 (Forall_forall _ _) languages_comma_free). by apply Hsub.
Qed.

(** A row of the output, from the entry of the dict that gives it. *)
Lemma perfect_row_entry row :
  row ∈ find_universal_perfect_cognates english blr →
  ∃ codes,
    (1 ≤ Rank row ≤ Z.of_nat (length english))%Z ∧
    English_Meaning row = word_at english blr (lit "en") (Rank row) ∧
    English_Meaning row ≠ [] ∧ Word row ≠ [] ∧
    codes = filter (λ c, word_at english blr c (Rank row) = Word row)
                   LANGUAGES.*1 ∧
    2 ≤ length codes ∧ Count row = length codes ∧
    Languages_Found row = join [comma] (sorted codes) ∧
    split comma (Languages_Found row) = sorted codes.
Proof.
  intros (rank & Hrank & Hrow)%elem_of_find_universal_perfect_cognates.
  apply elem_of_perfect_rows_at in Hrow as (Hen & w & codes & Hin & Hlen & ->).
  pose proof (build_word_langs_inv english blr rank Hen) as Hinv.
  destruct (dict_codes _ _ _ Hinv _ _ Hin) as (Hcodes & Hne & Hw).
  exists codes. simpl. do 4 (split; [done|]). split; [done|].
  split; [done|]. split; [done|]. split; [done|].
  apply languages_found_split; [done|].
  intros c Hc. rewrite Hcodes in Hc. by apply list_elem_of_filter in Hc as [_ ?].
Qed.

(** X13: in every record, the rank is within the reference list and has a
    non-empty reference word, which is the [English_Meaning]; the word is
    not empty; the codes of [Languages_Found] are exactly the target
    languages that have this word at this rank, in strictly increasing
    order, and [Count], their number, is at least 2. *)
Theorem perfect_record_sound row :
  row ∈ find_universal_perfect_cognates english blr →
  let codes := split comma (Languages_Found row) in
  (1 ≤ Rank row ≤ Z.of_nat (length english))%Z ∧
  English_Meaning row = word_at english blr (lit "en") (Rank row) ∧
  English_Meaning row ≠ [] ∧ Word row ≠ [] ∧
  Count row = length codes ∧ 2 ≤ Count row ∧
  StronglySorted (λ a b, str_le a b ∧ a ≠ b) codes ∧
  (∀ c, c ∈ codes ↔
        c ∈ LANGUAGES.*1 ∧ word_at english blr c (Rank row) = Word row).
Proof.
  intros (codes & Hrank & Hen & Hne & Hw & Hcodes & Hlen & Hcount & _ & Hsplit)
    %perfect_row_entry.
  simpl. rewrite Hsplit. do 4 (split; [done|]).
  assert (length (sorted codes) = length codes) as Hl
    by (unfold sorted; by rewrite merge_sort_Permutation).
  split; [by rewrite Hl|]. split; [by rewrite Hcount|]. split.
  - apply sorted_strict. rewrite Hcodes. apply NoDup_filter, languages_NoDup.
  - intros c. unfold sorted. rewrite merge_sort_Permutation, Hcodes.
    rewrite list_elem_of_filter. naive_solver.
Qed.

(** The records in the order of the detector (the statement of the order
    within a rank is [emitted_before]). *)
Lemma perfect_rows_emitted_before :
  StronglySorted (emitted_before english blr)
    (find_universal_perfect_cognates english blr).
Proof.
  unfold find_universal_perfect_cognates.
  apply bind_ranks_sorted.
  - apply seqZ_sorted.
  - intros r row (_ & w & codes & _ & _ & ->)%elem_of_perfect_rows_at. done.
  - intros r. unfold perfect_rows_at. rewrite <-(word_at_en english blr). simpl.
    case_bool_decide as Hen; [constructor|].
    pose proof (build_word_langs_inv english blr r Hen) as Hinv.
    pose proof (emit_rows_sorted _ r (word_at english blr (lit "en") r) _
                  (dict_order _ _ _ Hinv)) as Hs.
    eapply StronglySorted_mono; [|exact Hs]. simpl.
    intros r1 r2 Hr1 Hr2 Hfirst. right.
    apply list_elem_of_bind in Hr1 as ([w1 c1] & Hr1 & _).
    apply list_elem_of_bind in Hr2 as ([w2 c2] & Hr2 & _).
    apply elem_of_emit_row in Hr1 as [_ ->].
    apply elem_of_emit_row in Hr2 as [_ ->].
    split; [done|]. exact Hfirst.
  - intros r1 r2 Hlt. by left.
Qed.

Lemma emitted_before_key r1 r2 :
  emitted_before english blr r1 r2 → (Rank r1, Word r1) ≠ (Rank r2, Word r2).
Proof.
  intros [Hlt|(Hrank & i1 & c1 & i2 & c2 & H1 & H2 & Hlt)] [= Hr Hw]; [lia|].
  rewrite Hr, Hw in H1. rewrite H1 in H2. injection H2 as -> _. lia.
Qed.

(** X14: the detector emits at most one record for a rank and a word. *)
Theorem perfect_record_unique :
  NoDup ((λ r, (Rank r, Word r)) <$> find_universal_perfect_cognates english blr).
Proof.
  pose proof perfect_rows_emitted_before as Hs.
  induction Hs as [|r l Hl IH Hall]; [constructor|].
  rewrite fmap_cons. apply NoDup_cons. split; [|done].
  intros (r' & Hkey & Hr')%list_elem_of_fmap.
  apply (emitted_before_key r r'); [|done].
  by apply (proj1 (Forall_forall _ _) Hall).
Qed.

(** X15: the detector reads the lexicon only at the target languages other
    than "en": an entry under "en" or under a code outside [LANGUAGES]
    changes nothing of its output. *)
Theorem perfect_ignores_other_codes (code : str) (r : Z) (w : str) :
  code = lit "en" ∨ code ∉ LANGUAGES.*1 →
  find_universal_perfect_cognates english (<[(code, r) := w]> blr)
  = find_universal_perfect_cognates english blr.
Proof.
  intros Hcode. unfold find_universal_perfect_cognates.
  apply list_bind_ext; [|done]. intros rank.
  unfold perfect_rows_at. simpl. case_bool_decide; [done|].
  f_equal. unfold build_word_langs. apply foldl_ext_in.
  intros [c name] d Hc. unfold add_language.
  case_bool_decide as Hen; [done|].
  rewrite lookup_insert_ne; [done|].
  intros [= -> ->]. destruct Hcode as [?|Hnot]; [done|].
  apply Hnot. apply list_elem_of_fmap. by exists (c, name).
Qed.

(** X16: at one rank, a language is in the languages of at most one
    record. *)
Theorem language_in_one_record r1 r2 (c : str) :
  r1 ∈ find_universal_perfect_cognates english blr →
  r2 ∈ find_universal_perfect_cognates english blr →
  Rank r1 = Rank r2 →
  c ∈ split comma (Languages_Found r1) →
  c ∈ split comma (Languages_Found r2) →
  r1 = r2.
Proof.
  intros (codes1 & _ & Hen1 & _ & _ & Hc1 & _ & Hn1 & Hl1 & Hs1)%perfect_row_entry.
  intros (codes2 & _ & Hen2 & _ & _ & Hc2 & _ & Hn2 & Hl2 & Hs2)%perfect_row_entry.
  intros Hrank. rewrite Hs1, Hs2. unfold sorted.
  rewrite !merge_sort_Permutation, Hc1, Hc2, !list_elem_of_filter.
  intros [Hw1 _] [Hw2 _].
  assert (Word r1 = Word r2) as Hword by (rewrite <-Hw1, <-Hw2, Hrank; done).
  assert (codes1 = codes2) as Hcodes by (rewrite Hc1, Hc2, Hrank, Hword; done).
  destruct r1, r2. simpl in *. subst. done.
Qed.

End perfect_more.

(** ** The master table, further *)

Lemma app_sep_inj (c : N) (x x' s s' : str) :
  c ∉ x → c ∉ x' → x ++ c :: s = x' ++ c :: s' → x = x' ∧ s = s'.
Proof.
  revert x'. induction x as [|y x IH]; intros [|y' x']; simpl.
  - intros _ _ [= ->]. done.
  - rewrite not_elem_of_cons. intros _ [Hne _] [= <- _]. done.
  - rewrite not_elem_of_cons. intros [Hne _] _ [= -> _]. done.
  - rewrite !not_elem_of_cons. intros [_ Hx] [_ Hx'] [= -> Heq].
    destruct (IH x' Hx Hx' Heq) as [-> ->]. done.
Qed.

Lemma NoDup_fmap_eq {A B} (f : A → B) (l : list A) (x y : A) :
  NoDup (f <$> l) → x ∈ l → y ∈ l → f x = f y → x = y.
Proof.
  induction l as [|z l IH]; [by rewrite elem_of_nil|].
  rewrite fmap_cons, NoDup_cons, !elem_of_cons.
  intros [Hz Hnd] [->|Hx] [->|Hy] Heq; auto.
  - destruct Hz. rewrite Heq. by apply list_elem_of_fmap_2.
  - destruct Hz. rewrite <-Heq. by apply list_elem_of_fmap_2.
Qed.

Section master_more.
Import Master.

Lemma expand_perfect_nil (r : PerfectDetector.perfect_row) :
  expand_perfect r = [] ↔
  length (split comma (PerfectDetector.Languages_Found r)) < 2.
Proof.
  rewrite expand_perfect_combinations.
  set (languages := split comma (PerfectDetector.Languages_Found r)).
  pose proof (length_combinations2 languages) as Hlen.
  split.
  - intros Hnil%fmap_nil_inv. rewrite Hnil in Hlen. simpl in Hlen. nia.
  - intros Hlt. destruct (combinations2 languages) as [|p ps] eqn:Hc; [done|].
    simpl in Hlen. nia.
Qed.

Lemma perfect_processed_nil (perfect_df : list PerfectDetector.perfect_row) :
  perfect_processed perfect_df = [] ↔
  ∀ r, r ∈ perfect_df →
       length (split comma (PerfectDetector.Languages_Found r)) < 2.
Proof.
  unfold perfect_processed. split.
  - intros Hnil r Hr. apply expand_perfect_nil.
    destruct (expand_perfect r) as [|x xs] eqn:Hx; [done|].
    assert (x ∈ perfect_df ≫= expand_perfect) as Hin.
    { apply list_elem_of_bind. exists r. split; [rewrite Hx; left|done]. }
    rewrite Hnil in Hin. by apply elem_of_nil in Hin.
  - intros Hall. apply bind_all_nil. intros r Hr.
    apply expand_perfect_nil. by apply Hall.
Qed.

Lemma perfect_processed_rows perfect_df (r : row) :
  r ∈ perfect_processed perfect_df →
  Match_Type r = Perfect ∧ Word_A r = Word_B r ∧ Similarity_Score r = 1%Q ∧
  ∃ record, record ∈ perfect_df ∧ r ∈ expand_perfect record.
Proof.
  intros (record & Hr & Hrec)%list_elem_of_bind.
  split; [|split; [|split; [|by exists record]]];
    rewrite expand_perfect_combinations in Hr;
    apply list_elem_of_fmap in Hr as (p & -> & _); done.
Qed.

Lemma combined_df_rows perfect_df near_df (r : row) :
  r ∈ combined_df perfect_df near_df ↔
  r ∈ perfect_processed perfect_df ∨ ∃ n, n ∈ near_df ∧ r = near_transform n.
Proof.
  unfold combined_df. rewrite elem_of_app, list_elem_of_fmap. naive_solver.
Qed.

Section with_sort.
Context `{S : Sort} `{!SortLaws S}.




End with_sort.
End master_more.

Section master_rows_more.
Import Master.
Context `{S : Sort} `{!SortLaws S}.

End master_rows_more.

Section pair_keys.
Import Master.


End pair_keys.

(** ** The reference list *)

Example english_lines_example :
  english_lines (lit "the" ++ [10%N] ++ lit " of " ++ [13%N; 10%N; 10%N]
                   ++ lit "and" ++ [10%N])
  = [lit "the"; lit "of"; lit "and"].
Proof. vm_compute. reflexivity. Qed.

(** X23: the words that [download_english] returns are not empty and have
    no white space at either end, so that at every rank within the list
    the two detectors find a reference word and skip no rank on its
    account. *)
Theorem english_lines_clean (text : str) (blr : gmap (str * Z) str) (rank : Z) :
  Forall (λ w, w ≠ [] ∧ strip w = w) (english_lines text) ∧
  ((1 ≤ rank ≤ Z.of_nat (length (english_lines text)))%Z →
   ∃ w, english_lines text !! Z.to_nat (rank - 1) = Some w ∧ w ≠ [] ∧
        Fuzzy.english_at (english_lines text) rank = w ∧
        PerfectDetector.word_at (english_lines text) blr (lit "en") rank = w).
Proof.
  assert (Forall (λ w, w ≠ [] ∧ strip w = w) (english_lines text)) as Hclean.
  { unfold english_lines. apply Forall_fmap, Forall_forall.
    intros ln [Hne _]%list_elem_of_filter. simpl. split; [done|].
    apply strip_idemp. }
  split; [done|]. intros Hrank.
  destruct (lookup_lt_is_Some_2 (english_lines text) (Z.to_nat (rank - 1)))
    as [w Hw]; [lia|].
  exists w. split; [done|].
  destruct (proj1 (Forall_forall _ _) Hclean w) as [Hne Hstrip].
  { by eapply list_elem_of_lookup_2. }
  split; [done|]. unfold Fuzzy.english_at, PerfectDetector.word_at.
  rewrite bool_decide_eq_true_2 by done. rewrite Hw. simpl. done.
Qed.

Lemma english_lines_clean_witness :
  ∃ w, english_lines (lit " the ") !! 0 = Some w ∧ w ≠ [].
Proof.
  destruct (english_lines_clean (lit " the ") ∅ 1) as [_ Hrank].
  destruct Hrank as (w & Hw & Hne & _); [vm_compute; split; discriminate|].
  by exists w.
Defined.

(** ** Prefix and suffix lengths *)

(** X24: the length of the longest common suffix is the length of the
    longest common prefix of the reversed words; the prefix length does
    not depend on the order of the two words; and it is the length of the
    first word exactly when the first word is a prefix of the second. *)
Theorem prefix_suffix_lengths (a b : str) :
  Fuzzy.longest_common_suffix a b
    = Fuzzy.longest_common_prefix (reverse a) (reverse b) ∧
  Fuzzy.longest_common_prefix a b = Fuzzy.longest_common_prefix b a ∧
  (Fuzzy.longest_common_prefix a b = length a ↔ a `prefix_of` b).
Proof.
  split; [|split].
  - assert (∀ n, is_common_suffix a b n ↔
                 is_common_prefix (reverse a) (reverse b) n) as Hiff.
    { intros n. unfold is_common_suffix, is_common_prefix.
      rewrite !length_reverse, !take_reverse. split.
      - intros (? & ? & ->). done.
      - intros (? & ? & Heq). split; [done|]. split; [done|].
        by apply (inj reverse). }
    destruct (longest_common_suffix_spec a b) as [Hs Hsmax].
    destruct (longest_common_prefix_spec (reverse a) (reverse b)) as [Hp Hpmax].
    apply Nat.le_antisymm.
    + by apply Hpmax, Hiff.
    + by apply Hsmax, Hiff.
  - apply longest_common_prefix_sym.
  - destruct (longest_common_prefix_spec a b) as [(Hla & Hlb & Htake) Hmax].
    split.
    + intros Hlen. rewrite Hlen in Htake, Hlb.
      rewrite firstn_all in Htake. exists (drop (length a) b).
      rewrite <-(take_drop (length a) b) at 1. by rewrite <-Htake.
    + intros [k ->]. apply Nat.le_antisymm; [done|]. apply Hmax.
      split; [done|]. split; [rewrite length_app; lia|].
      by rewrite take_app_length, firstn_all.
Qed.

(** ** The further properties on concrete inputs *)

Lemma load_raw_data_skips_witness :
  Fuzzy.load_raw_data (nation_rows ++ blank_row :: nation_rows)
  = Fuzzy.load_raw_data (nation_rows ++ nation_rows).
Proof. apply load_raw_data_skips. reflexivity. Defined.

Lemma near_row_provenance_witness :
  ∃ row, row ∈ nation_near_rows ∧ Fuzzy.Language_B row ∈ Fuzzy.languages nation_data.
Proof.
  destruct nation_near_rows as [|row rest] eqn:Hrows;
    [vm_compute in Hrows; discriminate|].
  assert (row ∈ nation_near_rows) as Hin by (rewrite Hrows; left).
  exists row. split; [by rewrite <-Hrows|].
  by destruct (near_row_provenance (E := python_numeric) _ _ _ _ _ _ Hin)
    as (_ & _ & _ & HB & _).
Defined.

Lemma near_row_pattern_witness :
  ∃ row a_mid b_mid,
    row ∈ nation_near_rows ∧
    Fuzzy.Pattern_Detected row
      = lit "delta: '" ++ a_mid ++ lit "' vs '" ++ b_mid ++ lit "'".
Proof.
  destruct nation_near_rows as [|row rest] eqn:Hrows;
    [vm_compute in Hrows; discriminate|].
  assert (row ∈ nation_near_rows) as Hin by (rewrite Hrows; left).
  destruct (near_row_pattern (E := python_numeric) _ _ _ _ _ _ Hin)
    as (a_mid & b_mid & _ & _ & Hpat).
  exists row, a_mid, b_mid. split; [by rewrite <-Hrows|done].
Defined.

Lemma perfect_record_sound_witness :
  ∃ row, row ∈ hotel_perfect_rows_list ∧ 2 ≤ PerfectDetector.Count row.
Proof.
  destruct hotel_perfect_rows_list as [|row rest] eqn:Hrows;
    [vm_compute in Hrows; discriminate|].
  assert (row ∈ hotel_perfect_rows_list) as Hin by (rewrite Hrows; left).
  exists row. split; [by rewrite <-Hrows|].
  by destruct (perfect_record_sound _ _ _ Hin) as (_ & _ & _ & _ & _ & Hc & _).
Defined.

Lemma perfect_ignores_other_codes_witness :
  PerfectDetector.find_universal_perfect_cognates [lit "hotel"]
    (<[(lit "en", 1%Z) := lit "hostel"]> hotel_lexicon)
  = PerfectDetector.find_universal_perfect_cognates [lit "hotel"] hotel_lexicon.
Proof. apply perfect_ignores_other_codes. by left. Defined.

Lemma language_in_one_record_witness :
  hotel_record ∈ hotel_perfect_rows_list ∧
  lit "es" ∈ split comma (PerfectDetector.Languages_Found hotel_record) ∧
  hotel_record = hotel_record.
Proof.
  assert (hotel_record ∈ hotel_perfect_rows_list) as Hin by (vm_compute; left).
  assert (lit "es" ∈ split comma (PerfectDetector.Languages_Found hotel_record))
    as Hes by (vm_compute; right; left).
  split; [done|]. split; [done|].
  by apply (language_in_one_record [lit "hotel"] hotel_lexicon
              hotel_record hotel_record (lit "es")).
Defined.




(** * The pipeline on the two files *)

(** ** The pipeline on the two files *)

Section frame_steps.
Import Frame.

Lemma for_each_Ok {A B} (f : A → result B) (l : list A) (ys : list B) :
  for_each f l = Ok ys ↔ Forall2 (λ x y, f x = Ok y) l ys.
Proof.
  revert ys. induction l as [|x l IH]; intros ys; simpl.
  - split; [intros [= <-]; constructor|by intros ->%Forall2_nil_inv_l].
  - destruct (f x) as [y|e] eqn:Hx; simpl.
    + destruct (for_each f l) as [ys'|e] eqn:Hl; simpl.
      * split.
        -- intros [= <-]. constructor; [done|]. by apply IH.
        -- intros (y' & ys'' & Hy & Hys & ->)%Forall2_cons_inv_l.
           apply IH in Hys. congruence.
      * split; [done|].
        intros (y' & ys'' & _ & Hys & ->)%Forall2_cons_inv_l.
        apply IH in Hys. done.
    + split; [done|].
      intros (y' & ys'' & Hy & _ & ->)%Forall2_cons_inv_l. congruence.
Qed.

Lemma for_each_Raise {A B} (f : A → result B) (l : list A) e :
  for_each f l = Raise e → ∃ x, x ∈ l ∧ f x = Raise e.
Proof.
  induction l as [|x l IH]; simpl; [done|].
  destruct (f x) as [y|e'] eqn:Hx; simpl.
  - destruct (for_each f l) as [ys'|e'] eqn:Hl; simpl; [done|].
    intros [= ->]. destruct IH as (x' & Hin & Hx'); [done|].
    exists x'. split; [by right|done].
  - intros [= ->]. exists x. split; [left|done].
Qed.

Context `{V : Values} `{S : Sort} `{!SortLaws S}.

Lemma frame_by_match_type_desc_total x y :
  by_match_type_desc x y = true ∨ by_match_type_desc y x = true.
Proof.
  unfold by_match_type_desc.
  destruct (Match_Type (cols (keyed x))), (Match_Type (cols (keyed y)));
    vm_compute; auto.
Qed.

Lemma frame_by_match_type_desc_trans x y z :
  by_match_type_desc x y = true → by_match_type_desc y z = true →
  by_match_type_desc x z = true.
Proof.
  unfold by_match_type_desc.
  destruct (Match_Type (cols (keyed x))), (Match_Type (cols (keyed y))),
    (Match_Type (cols (keyed z))); vm_compute; auto.
Qed.

Lemma frame_by_match_type_desc_perfect x y :
  by_match_type_desc x y = true → Match_Type (cols (keyed y)) = Perfect →
  Match_Type (cols (keyed x)) = Perfect.
Proof.
  unfold by_match_type_desc. intros Hle Hy. rewrite Hy in Hle.
  destruct (Match_Type (cols (keyed x))); [done|]. vm_compute in Hle.
  discriminate.
Qed.

Lemma elem_of_keyed_rows combined statuses keys x :
  Forall2 (λ r s, audit_logic r = Ok s) combined statuses →
  Forall2 (λ r k, Pair_Key r = Ok k) combined keys →
  x ∈ keyed_rows combined statuses keys ↔
  cols (keyed x) ∈ combined ∧
  audit_logic (cols (keyed x)) = Ok (Audit_Status (keyed x)) ∧
  Pair_Key (cols (keyed x)) = Ok (key x).
Proof.
  intros Hs Hk. unfold keyed_rows. split.
  - intros (i & Hi)%list_elem_of_lookup_1.
    apply lookup_zip_with_Some in Hi as (m & k & -> & Hm & Hki).
    apply lookup_zip_with_Some in Hm as (r & s & -> & Hr & Hsi). simpl.
    split; [by eapply list_elem_of_lookup_2|].
    split.
    + by eapply (Forall2_lookup_lr _ _ _ _ _ _ Hs).
    + by eapply (Forall2_lookup_lr _ _ _ _ _ _ Hk).
  - destruct x as [[r s] k]. simpl.
    intros ((i & Hi)%list_elem_of_lookup_1 & Ha & Hp).
    destruct (Forall2_lookup_l _ _ _ _ _ Hs Hi) as (s' & Hsi & Hs').
    destruct (Forall2_lookup_l _ _ _ _ _ Hk Hi) as (k' & Hki & Hk').
    assert (s' = s) as -> by congruence.
    assert (k' = k) as -> by congruence.
    apply (list_elem_of_lookup_2 _ i).
    apply lookup_zip_with_Some. eexists _, _. split; [done|]. split; [|done].
    apply lookup_zip_with_Some. eexists _, _. done.
Qed.

(** The steps of [recreate_master_cognate] when it returns. *)
Lemma recreate_master_cognate_Ok perfect_file near_file master :
  recreate_master_cognate perfect_file near_file = Ok master →
  ∃ combined statuses keys,
    combined_df perfect_file near_file = Ok combined ∧
    Forall2 (λ r s, audit_logic r = Ok s) combined statuses ∧
    Forall2 (λ r k, Pair_Key r = Ok k) combined keys ∧
    let by_type :=
      sort_values by_match_type_desc (keyed_rows combined statuses keys) in
    let unique := drop_duplicates key by_type in
    master ≡ₚ keyed <$> unique ∧
    by_type ≡ₚ keyed_rows combined statuses keys ∧
    StronglySorted (λ x y, by_match_type_desc x y = true) by_type.
Proof.
  unfold recreate_master_cognate.
  destruct (combined_df perfect_file near_file) as [combined|e]; [|done].
  simpl.
  destruct (for_each audit_logic combined) as [statuses|e] eqn:Hs; [|done].
  simpl.
  destruct (for_each Pair_Key combined) as [keys|e] eqn:Hk; [|done].
  simpl. fold (keyed_rows combined statuses keys).
  case_match; [|done]. intros [= <-].
  exists combined, statuses, keys.
  split; [done|]. split; [by apply for_each_Ok|].
  split; [by apply for_each_Ok|]. simpl.
  split; [apply sort_values_perm|]. split; [apply sort_values_perm|].
  apply sort_values_sorted;
    [apply frame_by_match_type_desc_total|apply frame_by_match_type_desc_trans].
Qed.

End frame_steps.

Section frame_keys.
Import Frame.
Context `{V : Values} `{S : Sort} `{!SortLaws S}.

Lemma sorted2_either (a b : cell) p :
  sorted2 a b = Some p → p = (a, b) ∨ p = (b, a).
Proof.
  unfold sorted2. destruct (py_lt b a) as [[]|]; simpl; intros [= <-]; auto.
Qed.

Lemma Pair_Key_Ok (r : row) k :
  Pair_Key r = Ok k ↔
  ∃ a b c, pair_key r = Some (a, b, c) ∧
           k = a ++ [hyphen] ++ b ++ [hyphen] ++ c.
Proof.
  unfold Pair_Key, pair_key.
  destruct (sorted2 (Lang_A r) (Lang_B r)) as [[l0 l1]|]; simpl.
  - split; [intros [= <-]; by eexists _, _, _|].
    intros (a & b & c & [= <- <- <-] & ->). done.
  - split; [done|]. by intros (a & b & c & ? & _).
Qed.

(** With no hyphen in the codes, the text [Pair_Key] stands for one pair
    key only. *)
Lemma Pair_Key_inj (r1 r2 : row) k :
  hyphen_free r1 → hyphen_free r2 →
  Pair_Key r1 = Ok k → Pair_Key r2 = Ok k → pair_key r1 = pair_key r2.
Proof.
  intros [Ha1 Hb1] [Ha2 Hb2].
  intros (a1 & b1 & c1 & Hk1 & ->)%Pair_Key_Ok
         (a2 & b2 & c2 & Hk2 & Heq)%Pair_Key_Ok.
  rewrite Hk1, Hk2.
  assert (hyphen ∉ a1 ∧ hyphen ∉ b1) as [Hfa1 Hfb1].
  { unfold pair_key in Hk1.
    destruct (sorted2 (Lang_A r1) (Lang_B r1)) as [p|] eqn:Hs; [|done].
    simpl in Hk1. injection Hk1 as <- <- <-.
    destruct (sorted2_either _ _ _ Hs) as [->| ->]; done. }
  assert (hyphen ∉ a2 ∧ hyphen ∉ b2) as [Hfa2 Hfb2].
  { unfold pair_key in Hk2.
    destruct (sorted2 (Lang_A r2) (Lang_B r2)) as [p|] eqn:Hs; [|done].
    simpl in Hk2. injection Hk2 as <- <- <-.
    destruct (sorted2_either _ _ _ Hs) as [->| ->]; done. }
  simpl in Heq.
  destruct (app_sep_inj hyphen a1 a2 _ _ Hfa1 Hfa2 Heq) as [-> Heq'].
  destruct (app_sep_inj hyphen b1 b2 _ _ Hfb1 Hfb2 Heq') as [-> ->]. done.
Qed.

Lemma pair_key_Pair_Key (r1 r2 : row) k :
  pair_key r1 = pair_key r2 → Pair_Key r1 = Ok k → Pair_Key r2 = Ok k.
Proof.
  intros Heq (a & b & c & Hk & ->)%Pair_Key_Ok.
  apply Pair_Key_Ok. exists a, b, c. by rewrite <-Heq.
Qed.

(** X25: when no language code of the combined frame has a hyphen, every pair
    key of the combined frame has exactly one row in the master table, and
    this row is a Perfect row when the frame has a Perfect row with this
    pair key. *)
Theorem master_one_row_per_pair_key perfect_file near_file combined master :
  combined_df perfect_file near_file = Ok combined →
  recreate_master_cognate perfect_file near_file = Ok master →
  (∀ c, c ∈ combined → hyphen_free c) →
  ∀ c, c ∈ combined →
    ∃ r, r ∈ master ∧ pair_key (cols r) = pair_key c ∧
         (∀ r', r' ∈ master → pair_key (cols r') = pair_key c → r' = r) ∧
         (∀ p, p ∈ combined → Match_Type p = Perfect →
               pair_key p = pair_key c → Match_Type (cols r) = Perfect).
Proof.
  intros Hcombined Hrun Hfree c Hc.
  destruct (recreate_master_cognate_Ok _ _ _ Hrun)
    as (combined' & statuses & keys & Hcombined' & Hs & Hk
        & Hperm & Hperm' & Hsorted).
  assert (combined' = combined) as -> by congruence. simpl in *.
  set (rows := keyed_rows combined statuses keys) in *.
  set (by_type := sort_values by_match_type_desc rows) in *.
  set (unique := drop_duplicates key by_type) in *.
  assert (∀ x, x ∈ by_type ↔
               cols (keyed x) ∈ combined ∧
               audit_logic (cols (keyed x)) = Ok (Audit_Status (keyed x)) ∧
               Pair_Key (cols (keyed x)) = Ok (key x)) as Hrows.
  { intros x. rewrite Hperm'. by apply elem_of_keyed_rows. }
  assert (∀ p, p ∈ combined → ∃ x, x ∈ by_type ∧ cols (keyed x) = p) as Hall.
  { intros p (i & Hi)%list_elem_of_lookup_1.
    destruct (Forall2_lookup_l _ _ _ _ _ Hs Hi) as (s & _ & Hs').
    destruct (Forall2_lookup_l _ _ _ _ _ Hk Hi) as (k & _ & Hk').
    exists {| keyed := {| cols := p; Audit_Status := s |}; key := k |}.
    split; [|done]. apply Hrows. simpl.
    split; [by eapply list_elem_of_lookup_2|done]. }
  assert (∀ y, y ∈ unique → y ∈ by_type) as Hsub.
  { intros y (l1 & l2 & -> & _)%elem_of_drop_duplicates_from.
    set_solver. }
  destruct (Hall c Hc) as (x & Hx & Hxc).
  destruct (drop_duplicates_from_complete key ∅ by_type x)
    as (y & Hy & Hky); [done|set_solver|].
  pose proof (proj1 (Hrows x) Hx) as (_ & _ & Hkx).
  pose proof (proj1 (Hrows y) (Hsub y Hy)) as (Hyc & _ & Hkyy).
  rewrite Hxc in Hkx. rewrite Hky in Hkyy.
  exists (keyed y). split; [|split; [|split]].
  - rewrite Hperm. by apply list_elem_of_fmap_2.
  - by apply (Pair_Key_inj _ _ (key x)); auto.
  - intros r'. rewrite Hperm.
    intros (y' & -> & Hy')%list_elem_of_fmap Hkey. f_equal.
    apply (NoDup_fmap_eq key unique); [apply drop_duplicates_from_NoDup|done..|].
    pose proof (proj1 (Hrows y') (Hsub y' Hy')) as (_ & _ & Hky').
    apply (pair_key_Pair_Key _ c) in Hky'; [|done]. congruence.
  - intros p Hp Hperfect Hkey.
    destruct (Hall p Hp) as (xp & Hxp & Hxpc).
    pose proof (proj1 (Hrows xp) Hxp) as (_ & _ & Hkp).
    rewrite Hxpc in Hkp. apply (pair_key_Pair_Key _ c) in Hkp; [|done].
    assert (key xp = key y) as Hsame by congruence.
    apply elem_of_drop_duplicates_from in Hy as (l1 & l2 & Hsplit & _ & Hfirst).
    fold by_type in Hsplit. rewrite Hsplit in Hxp, Hsorted.
    apply elem_of_app in Hxp as [Hin|Hin].
    { destruct Hfirst. rewrite <-Hsame. by apply list_elem_of_fmap_2. }
    apply elem_of_cons in Hin as [<-|Hin]; [by rewrite Hxpc|].
    apply StronglySorted_app_1_r in Hsorted.
    apply StronglySorted_cons in Hsorted as [Hle _].
    apply (frame_by_match_type_desc_perfect y xp); [|by rewrite Hxpc].
    by apply (proj1 (Forall_forall _ _) Hle).
Qed.

End frame_keys.

Section frame_rows.
Import Frame.
Context `{V : Values} `{!ValuesLaws V} `{S : Sort} `{!SortLaws S}.

Lemma expand_perfect_text (r : perfect_record) languages_found :
  perfect_Languages_Found r = Text languages_found →
  expand_perfect r
  = Ok (perfect_pair_row r <$> combinations2 (split comma languages_found)).
Proof.
  intros Htext. unfold expand_perfect. rewrite Htext. f_equal.
  set (languages := split comma languages_found).
  pose proof (index_loops_combinations
    (λ a b, perfect_pair_row r (a, b)) languages languages 0
    (length languages) eq_refl (λ j _, eq_refl)) as Hloops.
  etransitivity; [exact Hloops|]. apply list_fmap_ext. by intros _ [a b] _.
Qed.

Lemma expand_perfect_Raise (r : perfect_record) e :
  expand_perfect r = Raise e ↔
  e = AttributeError ∧ is_text (perfect_Languages_Found r) = false.
Proof.
  unfold expand_perfect.
  destruct (perfect_Languages_Found r); simpl; naive_solver.
Qed.

(** [perfect_processed]: the exception of the first record whose languages
    are no text, and otherwise the rows of all the records. *)
Lemma perfect_processed_Raise (perfect_df : list perfect_record) e :
  perfect_processed perfect_df = Raise e ↔
  e = AttributeError ∧
  ∃ r, r ∈ perfect_df ∧ is_text (perfect_Languages_Found r) = false.
Proof.
  unfold perfect_processed. split.
  - destruct (for_each expand_perfect perfect_df) as [ls|e'] eqn:Hl; [done|].
    intros [= ->]. apply for_each_Raise in Hl as (r & Hr & He).
    apply expand_perfect_Raise in He as [-> Hno]. split; [done|]. by exists r.
  - intros [-> (r & Hr & Hno)].
    induction perfect_df as [|x l IH]; [by apply elem_of_nil in Hr|].
    simpl. destruct (expand_perfect x) as [y|e] eqn:Hx; simpl.
    + apply elem_of_cons in Hr as [->|Hr].
      { unfold expand_perfect in Hx.
        by destruct (perfect_Languages_Found x). }
      specialize (IH Hr).
      destruct (for_each expand_perfect l); [done|]. simpl in *. congruence.
    + by apply expand_perfect_Raise in Hx as [-> _].
Qed.

Lemma perfect_processed_Ok (perfect_df : list perfect_record) rows :
  perfect_processed perfect_df = Ok rows →
  ∀ row, row ∈ rows ↔
    ∃ r languages_found p,
      r ∈ perfect_df ∧ perfect_Languages_Found r = Text languages_found ∧
      p ∈ combinations2 (split comma languages_found) ∧
      row = perfect_pair_row r p.
Proof.
  unfold perfect_processed.
  destruct (for_each expand_perfect perfect_df) as [ls|e] eqn:Hl; [|done].
  intros [= <-] row. apply for_each_Ok in Hl.
  rewrite list_elem_of_join. split.
  - intros (l & Hrow & (i & Hi)%list_elem_of_lookup_1).
    destruct (Forall2_lookup_r _ _ _ _ _ Hl Hi) as (r & Hr & Hx).
    destruct (perfect_Languages_Found r) as [s| | |] eqn:Ht;
      try (unfold expand_perfect in Hx; by rewrite Ht in Hx).
    rewrite (expand_perfect_text _ _ Ht) in Hx. injection Hx as <-.
    apply list_elem_of_fmap in Hrow as (p & -> & Hp).
    exists r, s, p. split; [by eapply list_elem_of_lookup_2|done].
  - intros (r & s & p & (i & Hi)%list_elem_of_lookup_1 & Ht & Hp & ->).
    destruct (Forall2_lookup_l _ _ _ _ _ Hl Hi) as (l & Hli & Hx).
    rewrite (expand_perfect_text _ _ Ht) in Hx. injection Hx as <-.
    eexists. split; [|by eapply list_elem_of_lookup_2].
    by apply list_elem_of_fmap_2.
Qed.

Lemma cast_of_refl c : cast_of c c.
Proof. by left. Qed.

Lemma at_row_cast (f : row → cell) (p n : list row) i r :
  (p ++ n) !! i = Some r →
  cast_of (f r) (at_row (concat_column (f <$> p) (f <$> n)) i).
Proof.
  intros Hi. pose proof (concat_column_cast (f <$> p) (f <$> n)) as Hcast.
  rewrite <-fmap_app in Hcast.
  destruct (Forall2_lookup_l _ _ _ i (f r) Hcast) as (c & Hc & Hfc).
  { by rewrite list_lookup_fmap, Hi. }
  unfold at_row. by rewrite Hc.
Qed.

Lemma concat_frames_lookup (p n : list row) i r' :
  concat_frames p n !! i = Some r' ↔
  ∃ r, (p ++ n) !! i = Some r ∧ cast_row r r' ∧
       r' = {| Rank := at_row (concat_column (Rank <$> p) (Rank <$> n)) i;
               English_Reference :=
                 at_row (concat_column (English_Reference <$> p)
                           (English_Reference <$> n)) i;
               Word_A := at_row (concat_column (Word_A <$> p) (Word_A <$> n)) i;
               Word_B := at_row (concat_column (Word_B <$> p) (Word_B <$> n)) i;
               Lang_A := at_row (concat_column (Lang_A <$> p) (Lang_A <$> n)) i;
               Lang_B := at_row (concat_column (Lang_B <$> p) (Lang_B <$> n)) i;
               Match_Type := Match_Type r;
               Similarity_Score :=
                 at_row (concat_column (Similarity_Score <$> p)
                           (Similarity_Score <$> n)) i |}.
Proof.
  unfold concat_frames. rewrite list_lookup_imap.
  destruct ((p ++ n) !! i) as [r|] eqn:Hi; simpl.
  - split.
    + intros [= <-]. exists r. split; [done|]. split; [|done].
      repeat split; simpl; by apply at_row_cast.
    + intros (r0 & [= <-] & _ & ->). done.
  - split; [done|]. by intros (r0 & ? & _).
Qed.

Lemma elem_of_concat_frames (p n : list row) r' :
  r' ∈ concat_frames p n → ∃ r, r ∈ p ++ n ∧ cast_row r r'.
Proof.
  intros (i & Hi)%list_elem_of_lookup_1.
  apply concat_frames_lookup in Hi as (r & Hr & Hcast & _).
  exists r. split; [by eapply list_elem_of_lookup_2|done].
Qed.

Lemma combined_df_Ok perfect_file near_file combined :
  combined_df perfect_file near_file = Ok combined ↔
  ∃ processed,
    perfect_processed (read_perfect perfect_file) = Ok processed ∧
    processed ≠ [] ∧
    combined = concat_frames processed (near_transformed near_file).
Proof.
  unfold combined_df.
  destruct (perfect_processed (read_perfect perfect_file)) as [[|x l]|e];
    simpl; naive_solver.
Qed.

(** A cast leaves every value but an integer as it is. *)
Lemma cast_of_not_int c c' : cast_of c c' → is_int c = false → c' = c.
Proof. intros [->|(z & -> & _)]; done. Qed.

(** The rows of the master table are rows of the combined frame with the
    status of the audit. *)
Lemma master_rows_combined perfect_file near_file master r :
  recreate_master_cognate perfect_file near_file = Ok master →
  r ∈ master →
  ∃ combined,
    combined_df perfect_file near_file = Ok combined ∧
    cols r ∈ combined ∧ audit_logic (cols r) = Ok (Audit_Status r).
Proof.
  intros Hrun Hr.
  destruct (recreate_master_cognate_Ok _ _ _ Hrun)
    as (combined & statuses & keys & Hcombined & Hs & Hk & Hperm & Hperm' & _).
  simpl in *. exists combined. split; [done|].
  rewrite Hperm in Hr. apply list_elem_of_fmap in Hr as (y & -> & Hy).
  apply elem_of_drop_duplicates_from in Hy as (l1 & l2 & Hsplit & _).
  assert (y ∈ keyed_rows combined statuses keys) as Hin.
  { rewrite <-Hperm', Hsplit. set_solver. }
  apply (elem_of_keyed_rows _ _ _ _ Hs Hk) in Hin as (? & ? & _). done.
Qed.

(** X20: where the rows of the master table come from.  A Perfect row comes
    from one record of the Perfect file and one pair of its languages: it
    has the two codes, as texts, the score 1.0, the status [OK], and the
    word of the record on both sides.  A Near row comes from one row of
    the Near file.  The values are those that [read_csv] gave, up to the
    integers that [pd.concat] has made floats. *)
Theorem master_row_origin perfect_file near_file master r :
  recreate_master_cognate perfect_file near_file = Ok master →
  r ∈ master →
  (Match_Type (cols r) = Perfect ∧ Audit_Status r = OK ∧
   Similarity_Score (cols r) = Float (Finite 1) ∧
   ∃ record languages_found p,
     record ∈ read_perfect perfect_file ∧
     perfect_Languages_Found record = Text languages_found ∧
     p ∈ combinations2 (split comma languages_found) ∧
     Lang_A (cols r) = Text (strip p.1) ∧ Lang_B (cols r) = Text (strip p.2) ∧
     cast_of (perfect_Word record) (Word_A (cols r)) ∧
     cast_of (perfect_Word record) (Word_B (cols r)) ∧
     cast_of (perfect_Rank record) (Rank (cols r)) ∧
     cast_of (perfect_English_Meaning record) (English_Reference (cols r)))
  ∨
  (Match_Type (cols r) = Near ∧
   audit_logic (cols r) = Ok (Audit_Status r) ∧
   ∃ n, n ∈ near_transformed near_file ∧ cast_row n (cols r)).
Proof.
  intros Hrun Hr.
  destruct (master_rows_combined _ _ _ _ Hrun Hr) as (combined & Hc & Hin & Ha).
  apply combined_df_Ok in Hc as (processed & Hp & _ & ->).
  apply elem_of_concat_frames in Hin as (r0 & Hr0 & Hcast).
  apply elem_of_app in Hr0 as [Hr0|Hr0].
  - left. apply (perfect_processed_Ok _ _ Hp) in Hr0
      as (record & s & p & Hrec & Ht & Hpair & ->).
    destruct Hcast as (Hty & Hrank & Href & Hwa & Hwb & Hla & Hlb & Hscore).
    simpl in *.
    split; [done|]. split.
    { unfold audit_logic in Ha. rewrite Hty in Ha. congruence. }
    split; [by apply cast_of_not_int in Hscore|].
    exists record, s, p. repeat (split; [done|]).
    split; [by apply cast_of_not_int in Hla|].
    split; [by apply cast_of_not_int in Hlb|]. done.
  - right.
    assert (Match_Type r0 = Near) as Hnear.
    { unfold near_transformed in Hr0.
      apply list_elem_of_fmap in Hr0 as (i & -> & _). done. }
    destruct Hcast as (Hty & Hrest). split; [congruence|]. split; [done|].
    exists r0. split; [done|]. split; done.
Qed.

(** X17: the exceptions of the first step.  The script ends on [AttributeError]
    exactly when a value of [Languages_Found] is no text, a missing value
    for instance, and on [KeyError] exactly when every record has a text
    that lists fewer than two languages, the file with no record
    included. *)
Theorem recreate_master_cognate_raises perfect_file near_file :
  (recreate_master_cognate perfect_file near_file = Raise AttributeError ↔
   ∃ r, r ∈ read_perfect perfect_file ∧
        is_text (perfect_Languages_Found r) = false) ∧
  (recreate_master_cognate perfect_file near_file = Raise KeyError ↔
   ∀ r, r ∈ read_perfect perfect_file →
        ∃ languages_found,
          perfect_Languages_Found r = Text languages_found ∧
          length (split comma languages_found) < 2).
Proof.
  assert (∀ combined e,
    bind (for_each audit_logic combined) (λ statuses,
    bind (for_each Pair_Key combined) (λ keys,
      let by_type :=
        sort_values by_match_type_desc (keyed_rows combined statuses keys) in
      let unique := keyed <$> drop_duplicates key by_type in
      if sortable (Rank ∘ cols <$> unique)
      then Ok (sort_values by_rank unique)
      else Raise TypeError)) = Raise e →
    e = ValueError ∨ e = TypeError) as Hlater.
  { intros combined e.
    destruct (for_each audit_logic combined) as [statuses|e'] eqn:Hs; simpl.
    - destruct (for_each Pair_Key combined) as [keys|e'] eqn:Hk; simpl.
      + case_match; [done|]. intros [= <-]. by right.
      + intros [= ->]. apply for_each_Raise in Hk as (x & _ & Hx).
        unfold Pair_Key in Hx.
        destruct (sorted2 (Lang_A x) (Lang_B x)); simpl in Hx; [done|].
        right. congruence.
    - intros [= ->]. apply for_each_Raise in Hs as (x & _ & Hx).
      unfold audit_logic in Hx. destruct (Match_Type x); [done|].
      destruct (py_float (Similarity_Score x)); simpl in Hx.
      + by case_match.
      + left. congruence. }
  unfold recreate_master_cognate, combined_df.
  destruct (perfect_processed (read_perfect perfect_file))
    as [processed|e] eqn:Hp; cbn [bind].
  - pose proof (perfect_processed_Ok _ _ Hp) as Hrows.
    assert (∀ r, r ∈ read_perfect perfect_file →
                 is_text (perfect_Languages_Found r) = true) as Htext.
    { intros r Hr. destruct (is_text (perfect_Languages_Found r)) eqn:Ht; [done|].
      assert (perfect_processed (read_perfect perfect_file)
              = Raise AttributeError) as Hraise.
      { apply perfect_processed_Raise. split; [done|]. by exists r. }
      congruence. }
    destruct processed as [|row processed]; cbn [bind].
    + split.
      * split; [done|]. intros (r & Hr & Hno). rewrite Htext in Hno; done.
      * split; [|done]. intros _ r Hr. specialize (Htext r Hr).
        destruct (perfect_Languages_Found r) as [s| | |] eqn:Ht; try done.
        exists s. split; [done|].
        pose proof (length_combinations2 (split comma s)) as Hlen.
        destruct (combinations2 (split comma s)) as [|p ps] eqn:Hc.
        { simpl in Hlen. nia. }
        exfalso. apply (elem_of_nil (perfect_pair_row r p)).
        apply Hrows. exists r, s, p. rewrite Hc. split; [done|].
        split; [done|]. split; [left|done].
    + split.
      * split.
        -- intros He. apply Hlater in He as [?|?]; done.
        -- intros (r & Hr & Hno). rewrite Htext in Hno; done.
      * split.
        -- intros He. apply Hlater in He as [?|?]; done.
        -- intros Hall. exfalso.
           assert (row ∈ row :: processed) as Hin by left.
           apply Hrows in Hin as (r & s & p & Hr & Ht & Hpair & _).
           destruct (Hall r Hr) as (s' & Ht' & Hlen).
           assert (s' = s) as -> by congruence.
           pose proof (length_combinations2 (split comma s)) as Hlen'.
           destruct (combinations2 (split comma s)); [by apply elem_of_nil in Hpair|].
           simpl in Hlen'. nia.
  - apply perfect_processed_Raise in Hp as [-> (r & Hr & Hno)].
    split.
    + split; [by exists r|done].
    + split; [done|]. intros Hall. destruct (Hall r Hr) as (s & Hs & _).
      rewrite Hs in Hno. done.
Qed.

End frame_rows.

(** ** The reference implementation of the values meets the laws *)

Section reference_values.
Import pandas.

Lemma and_then_Done v a column :
  and_then v a = Done column ↔ ∃ column', a = Done column' ∧ column = v :: column'.
Proof. destruct a; simpl; naive_solver. Qed.

Lemma typed_column_cons s fields v column :
  is_text v = false → typed_column fields column →
  typed_column (s :: fields) (v :: column).
Proof.
  intros Hv [Hlen Hall]. split; [simpl; by rewrite Hlen|by constructor].
Qed.

Lemma try_int64_Done fields column :
  try_int64 fields = Done column → typed_column fields column.
Proof.
  revert column. induction fields as [|s fields IH]; intros column; simpl.
  - intros [= <-]. by split.
  - destruct (is_na s).
    + intros (column' & Ha & ->)%and_then_Done.
      apply typed_column_cons; [done|by apply IH].
    + destruct (scan_int INT64_MIN INT64_MAX s); try done.
      intros (column' & Ha & ->)%and_then_Done.
      apply typed_column_cons; [done|by apply IH].
Qed.

Lemma try_uint64_Done fields column :
  try_uint64 fields = Done column → typed_column fields column.
Proof.
  revert column. induction fields as [|s fields IH]; intros column; simpl.
  - intros [= <-]. by split.
  - destruct (is_na s).
    + intros (column' & Ha & ->)%and_then_Done.
      apply typed_column_cons; [done|by apply IH].
    + destruct (is_signed s).
      { intros (column' & Ha & ->)%and_then_Done.
        apply typed_column_cons; [done|by apply IH]. }
      destruct (scan_int 0 UINT64_MAX s); try done.
      intros (column' & Ha & ->)%and_then_Done.
      apply typed_column_cons; [done|by apply IH].
Qed.

Lemma try_with_Done {A} (read : str → option A) (value : A → cell)
    fields column :
  (∀ x, is_text (value x) = false) →
  try_with read value fields = Done column → typed_column fields column.
Proof.
  intros Hvalue. revert column.
  induction fields as [|s fields IH]; intros column; simpl.
  - intros [= <-]. by split.
  - destruct (is_na s).
    + intros (column' & Ha & ->)%and_then_Done.
      apply typed_column_cons; [done|by apply IH].
    + destruct (read s); try done.
      intros (column' & Ha & ->)%and_then_Done.
      apply typed_column_cons; [done|by apply IH].
Qed.

(** The column of [read_column] is a typed column or the texts of the
    fields. *)
Lemma read_column_cases fields :
  typed_column fields (read_column fields) ∨
  ∃ na_filter, read_column fields = as_text na_filter fields.
Proof.
  assert (typed_column fields (read_other fields) ∨
          ∃ na_filter, read_other fields = as_text na_filter fields) as Hother.
  { unfold read_other.
    destruct (try_with read_float Float fields) eqn:Hf;
      [left; exact (try_with_Done read_float Float _ _ (λ _, eq_refl) Hf)|..];
      (destruct (try_with read_bool Bool fields) eqn:Hb;
       [left; exact (try_with_Done read_bool Bool _ _ (λ _, eq_refl) Hb)
       |right; by eexists..]). }
  unfold read_column.
  destruct (try_int64 fields) as [column| |] eqn:Hi; [|done|].
  - left. apply try_int64_Done in Hi as [Hlen Hall]. unfold upcast.
    case_match; [|by split]. split; [by rewrite length_fmap|].
    apply Forall_fmap. eapply Forall_impl; [exact Hall|].
    by intros [].
  - destruct (try_uint64 fields) as [column| |] eqn:Hu; [|done|].
    + repeat case_match; try (right; by eexists).
      left. by apply try_uint64_Done.
    + right. by eexists.
Qed.

Lemma pandas_read_column_length fields :
  length (read_column fields) = length fields.
Proof.
  destruct (read_column_cases fields) as [[Hlen _]|[na_filter ->]]; [done|].
  unfold as_text. by rewrite length_fmap.
Qed.

Lemma pandas_read_column_text fields i s :
  read_column fields !! i = Some (Text s) → fields !! i = Some s.
Proof.
  destruct (read_column_cases fields) as [[_ Hall]|[na_filter ->]].
  - intros Hi. by apply (Forall_lookup_1 _ _ _ _ Hall) in Hi.
  - unfold as_text. rewrite list_lookup_fmap.
    destruct (fields !! i) as [t|]; [|done]. simpl.
    case_match; [done|]. by intros [= ->].
Qed.

Lemma float64_eqb_eq x y : float64_eqb x y = true → x = y.
Proof.
  destruct x as [[a1 a2]| | |], y as [[b1 b2]| | |]; simpl; try done.
  - intros [->%Z.eqb_eq ->%Pos.eqb_eq]%andb_true_iff. done.
  - by intros ->%bool_decide_eq_true.
Qed.

Lemma three_decimals_all : forallb three_decimals_ok (seqZ 0 1001) = true.
Proof. vm_compute. reflexivity. Qed.

Lemma three_decimals k :
  (0 ≤ k ≤ 1000)%Z →
  is_na (format_3f_text k) = false ∧
  scan_int INT64_MIN INT64_MAX (format_3f_text k) = NoInt ∧
  read_float (format_3f_text k) = Some (round_double (k # 1000)).
Proof.
  intros Hk. pose proof three_decimals_all as Hall.
  rewrite forallb_forall in Hall. specialize (Hall k).
  unfold three_decimals_ok in Hall.
  rewrite <-list_elem_of_In, elem_of_seqZ in Hall.
  specialize (Hall ltac:(lia)).
  apply andb_true_iff in Hall as [[Hna Hint]%andb_true_iff Hfloat].
  split; [by apply negb_true_iff|]. split.
  - by destruct (scan_int INT64_MIN INT64_MAX (format_3f_text k)).
  - destruct (read_float (format_3f_text k)); [|done].
    by apply float64_eqb_eq in Hfloat as ->.
Qed.

Lemma pandas_read_column_3f ks :
  Forall (λ k, 0 ≤ k ≤ 1000)%Z ks →
  read_column (format_3f_text <$> ks)
  = (λ k, Float (round_double (k # 1000))) <$> ks.
Proof.
  intros Hks.
  assert (try_with read_float Float (format_3f_text <$> ks)
          = Done ((λ k, Float (round_double (k # 1000))) <$> ks)) as Hfloat.
  { induction Hks as [|k ks Hk _ IH]; [done|].
    destruct (three_decimals k Hk) as (Hna & _ & Hf).
    rewrite !fmap_cons. simpl. by rewrite Hna, Hf, IH. }
  destruct Hks as [|k ks Hk _]; [done|].
  destruct (three_decimals k Hk) as (Hna & Hint & _).
  unfold read_column. rewrite fmap_cons. simpl try_int64.
  rewrite Hna, Hint. unfold read_other.
  rewrite <-fmap_cons. by rewrite Hfloat.
Qed.

Lemma to_float_cast c : cast_of c (to_float c).
Proof. destruct c; simpl; [by left|right; by eexists|by left..]. Qed.

Lemma pandas_concat_column_cast p n :
  Forall2 cast_of (p ++ n) (concat_column p n).
Proof.
  assert (Forall2 cast_of (p ++ n) (p ++ n)) as Hsame.
  { apply Forall2_same_length_lookup_2; [done|].
    intros i x y Hx Hy. assert (x = y) as -> by congruence. by left. }
  assert (Forall2 cast_of (p ++ n) (to_float <$> (p ++ n))) as Hcast.
  { apply Forall2_fmap_r.
    apply Forall2_same_length_lookup_2; [done|].
    intros i x y Hx Hy. assert (x = y) as -> by congruence.
    apply to_float_cast. }
  unfold concat_column. destruct p, n; try done. by case_match.
Qed.

End reference_values.

Section reference_str.
Import python.

Lemma length_digits_from fuel n acc :
  0 < fuel → length acc < length (digits_from fuel n acc).
Proof.
  revert n acc. induction fuel as [|fuel IH]; intros n acc Hfuel; [lia|].
  simpl. case_match; simpl; [lia|].
  destruct fuel as [|fuel']; simpl; [lia|].
  specialize (IH (n `div` 10)%N ((48 + n `mod` 10)%N :: acc) ltac:(lia)).
  simpl in IH. lia.
Qed.

Lemma length_str_of_N n : 0 < length (str_of_N n).
Proof.
  unfold str_of_N.
  pose proof (length_digits_from (S (N.to_nat (N.log2 n))) n [] ltac:(lia)).
  simpl in *. lia.
Qed.

Lemma length_shortest_digits a : 0 < length (shortest_digits a).1.
Proof.
  unfold shortest_digits. destruct (shortest_from 17 a (Qlog10 a) 1) as [c p].
  simpl. pose proof (length_str_of_N (Z.to_N c)) as Hlen.
  rewrite length_app, length_take. lia.
Qed.

Lemma python_str_of_float_length x : 3 ≤ length (str_of_float x).
Proof.
  unfold str_of_float. case_match; [vm_compute; lia|].
  set (a := if Qle_bool 0 x then x else (- x)%Q).
  pose proof (length_shortest_digits a) as Hds.
  destruct (shortest_digits a) as [ds decpt]. simpl in Hds.
  assert (∀ body : str, 3 ≤ length body →
            3 ≤ length (if Qle_bool 0 x then body else hyphen :: body)) as Hsign.
  { intros body Hbody. case_match; simpl; lia. }
  apply Hsign.
  pose proof (length_str_of_N (Z.to_N (Z.abs (decpt - 1)))) as Hes.
  repeat case_bool_decide;
    rewrite ?length_app, ?length_take, ?length_drop; simpl; try lia.
Qed.

End reference_str.

Lemma python_values_laws : ValuesLaws python_values.
Proof.
  split.
  - apply pandas_read_column_length.
  - apply pandas_read_column_text.
  - apply pandas_read_column_3f.
  - apply pandas_concat_column_cast.
  - apply python_str_of_float_length.
Qed.

Section frame_audit.
Import Frame.
Context `{E : Numeric} `{!NumericLaws E} `{V : Values} `{!ValuesLaws V}
        `{S : Sort} `{!SortLaws S}.

Lemma elem_of_near_transformed (file : list near_line) n :
  n ∈ near_transformed file ↔
  ∃ i line, file !! i = Some line ∧
    n = {| Rank := at_row (read_column (near_Rank <$> file)) i;
           English_Reference :=
             at_row (read_column (near_English_Meaning <$> file)) i;
           Word_A := at_row (read_column (near_Word_A <$> file)) i;
           Word_B := at_row (read_column (near_Word_B <$> file)) i;
           Lang_A := at_row (read_column (near_Language_A <$> file)) i;
           Lang_B := at_row (read_column (near_Language_B <$> file)) i;
           Match_Type := Near;
           Similarity_Score :=
             at_row (read_column (near_Similarity_Score <$> file)) i |}.
Proof.
  unfold near_transformed. rewrite list_elem_of_fmap. split.
  - intros (i & -> & Hi). apply elem_of_seq in Hi.
    destruct (lookup_lt_is_Some_2 file i) as [line Hline]; [lia|].
    by exists i, line.
  - intros (i & line & Hline & ->). exists i. split; [done|].
    apply elem_of_seq. apply lookup_lt_Some in Hline. lia.
Qed.

(** A value that [read_csv] has left as text is the field of the file. *)
Lemma at_row_text (fields : list str) i s :
  at_row (read_column fields) i = Text s → fields !! i = Some s.
Proof.
  unfold at_row. intros Hs. apply read_column_text.
  by destruct (read_column fields !! i) as [c|]; simplify_eq/=.
Qed.

(** The text of a value that is no integer has three characters or
    more, unless it is a text itself. *)
Lemma length_py_str (v : cell) :
  is_int v = false → is_text v = false → 3 ≤ length (py_str v).
Proof.
  destruct v as [s|z|[x| |[]|]|[]]; try done; intros _ _; simpl;
    try (vm_compute; lia). apply str_of_float_length.
Qed.

Lemma Qfloor_thousandths (z : Z) : Qfloor (1000 * (z # 1000)) = z.
Proof.
  unfold Qfloor, Qmult. simpl.
  replace (Z.pos (1000)) with 1000%Z by done.
  change (Z.pos (Qden (1000 * (z # 1000)))) with 1000%Z.
  rewrite Z.mul_comm. apply Z.div_mul. lia.
Qed.

Lemma above_threshold_all : forallb above_threshold (seqZ 700 301) = true.
Proof. vm_compute. reflexivity. Qed.

(** The double nearest to a score of 0.700 or more is not below the
    double of the literal [0.7]. *)
Lemma score_not_below (k : Z) :
  (700 ≤ k ≤ 1000)%Z → float_ltb (round_double (k # 1000)) lit_0_7 = false.
Proof.
  intros Hk. pose proof above_threshold_all as Hall.
  rewrite forallb_forall in Hall. specialize (Hall k).
  rewrite <-list_elem_of_In, elem_of_seqZ in Hall.
  specialize (Hall ltac:(lia)). by apply negb_true_iff in Hall.
Qed.

(** X22: when the pipeline runs on the files that the two detectors have
    written, every row of the master table has the status [OK], provided
    [read_csv] has read no word of the Near file as an integer. *)
Theorem detector_files_pass_audit (english english' : list str)
    (blr blr' : gmap (str * Z) str) (langs : gset str) max_rank_data master :
  let perfect_file :=
    write_perfect
      <$> PerfectDetector.find_universal_perfect_cognates english blr in
  let near_file :=
    write_near
      <$> Fuzzy.find_near_cognates english' blr' langs max_rank_data
            Fuzzy.threshold_default in
  recreate_master_cognate perfect_file near_file = Ok master →
  (∀ n, n ∈ near_transformed near_file →
        is_int (Word_A n) = false ∧ is_int (Word_B n) = false) →
  ∀ r, r ∈ master → Audit_Status r = OK.
Proof.
  intros perfect_file near_file Hrun Hwords r Hr.
  destruct (master_row_origin _ _ _ _ Hrun Hr)
    as [(_ & Hok & _)|(Hnear & Haudit & n & Hn & Hcast)]; [done|].
  destruct (Hwords n Hn) as [Hia Hib].
  destruct Hcast as (_ & _ & _ & Hwa & Hwb & _ & _ & Hscore).
  apply cast_of_not_int in Hwa; [|done].
  apply cast_of_not_int in Hwb; [|done].
  apply elem_of_near_transformed in Hn as (i & line & Hline & ->).
  simpl in *.
  unfold near_file in Hline. rewrite list_lookup_fmap in Hline.
  destruct (Fuzzy.find_near_cognates english' blr' langs max_rank_data
              Fuzzy.threshold_default !! i) as [row|] eqn:Hrow; [|done].
  simpl in Hline. injection Hline as <-.
  destruct (emitted_row_guards _ _ _ _ _ (list_elem_of_lookup_2 _ _ _ Hrow))
    as (_ & Hla & Hlb & Hlo & Hhi & Hsim & _).
  (* the two words *)
  assert (3 ≤ length (py_str (Word_A (cols r)))) as Hlen_a.
  { rewrite Hwa.
    destruct (at_row (read_column (near_Word_A <$> near_file)) i)
      as [s| | |] eqn:Hs;
      [|apply length_py_str; by rewrite ?Hs in Hia..].
    apply at_row_text in Hs. unfold near_file in Hs.
    rewrite <-list_fmap_compose, list_lookup_fmap, Hrow in Hs.
    simpl in Hs. injection Hs as <-. simpl. lia. }
  assert (3 ≤ length (py_str (Word_B (cols r)))) as Hlen_b.
  { rewrite Hwb.
    destruct (at_row (read_column (near_Word_B <$> near_file)) i)
      as [s| | |] eqn:Hs;
      [|apply length_py_str; by rewrite ?Hs in Hib..].
    apply at_row_text in Hs. unfold near_file in Hs.
    rewrite <-list_fmap_compose, list_lookup_fmap, Hrow in Hs.
    simpl in Hs. injection Hs as <-. simpl. lia. }
  (* the score *)
  set (ks := (λ row, Qfloor (1000 * Fuzzy.Similarity_Score row))
               <$> Fuzzy.find_near_cognates english' blr' langs max_rank_data
                     Fuzzy.threshold_default).
  assert (near_Similarity_Score <$> near_file = format_3f_text <$> ks) as Hks.
  { unfold near_file, ks. by rewrite <-!list_fmap_compose. }
  assert (Forall (λ k, 700 ≤ k ≤ 1000)%Z ks) as Hbounds.
  { unfold ks. apply Forall_fmap, Forall_forall. intros row' Hin. cbv beta.
    unfold compose.
    destruct (emitted_row_guards _ _ _ _ _ Hin)
      as (_ & _ & _ & Hlo' & Hhi' & Hsim' & _).
    rewrite Hsim', Qfloor_thousandths.
    destruct (format_3f_bounds _ Hlo' Hhi') as [H1 H2].
    unfold Qle in H1, H2. simpl in H1, H2. lia. }
  assert (∃ k, (700 ≤ k ≤ 1000)%Z ∧
               Similarity_Score (cols r) = Float (round_double (k # 1000)))
    as (k & Hk & Hvalue).
  { exists (Qfloor (1000 * Fuzzy.Similarity_Score row)).
    assert (ks !! i = Some (Qfloor (1000 * Fuzzy.Similarity_Score row))) as Hi.
    { unfold ks. by rewrite list_lookup_fmap, Hrow. }
    split; [by apply (Forall_lookup_1 _ _ _ _ Hbounds Hi)|].
    apply cast_of_not_int in Hscore.
    - rewrite Hscore, Hks, read_column_3f.
      + unfold at_row. by rewrite list_lookup_fmap, Hi.
      + eapply Forall_impl; [exact Hbounds|]. simpl. lia.
    - rewrite Hks, read_column_3f.
      + unfold at_row. by rewrite list_lookup_fmap, Hi.
      + eapply Forall_impl; [exact Hbounds|]. simpl. lia. }
  unfold audit_logic in Haudit. rewrite Hnear, Hvalue in Haudit.
  simpl in Haudit. rewrite (score_not_below k Hk) in Haudit.
  rewrite !bool_decide_eq_false_2 in Haudit by lia.
  simpl in Haudit. congruence.
Qed.

End frame_audit.

Section frame_audit_more.
Import Frame.
Context `{V : Values} `{!ValuesLaws V}.

Lemma length_str_of_N_le (n : N) :
  (length (str_of_N n) ≤ 1 ↔ (n < 10)%N) ∧
  (length (str_of_N n) ≤ 2 ↔ (n < 100)%N).
Proof.
  unfold str_of_N. cbn [digits_from].
  destruct (n `div` 10 =? 0)%N eqn:H10.
  { apply N.eqb_eq in H10. simpl.
    assert (n < 10)%N by (apply N.div_small_iff in H10; lia). lia. }
  apply N.eqb_neq in H10.
  assert (10 ≤ n)%N as Hn.
  { destruct (decide (n < 10)%N) as [Hlt|]; [|lia].
    apply N.div_small in Hlt. lia. }
  assert (3 ≤ N.log2 n)%N as Hlog.
  { change 3%N with (N.log2 10). by apply N.log2_le_mono. }
  destruct (N.to_nat (N.log2 n)) as [|fuel] eqn:Hfuel; [lia|].
  cbn [digits_from].
  destruct (n `div` 10 `div` 10 =? 0)%N eqn:H100.
  { apply N.eqb_eq in H100. simpl.
    assert (n < 100)%N.
    { apply N.div_small_iff in H100; [|lia].
      destruct (decide (n < 100)%N) as [|Hge]; [done|].
      assert (10 ≤ n `div` 10)%N; [|lia].
      change 10%N with (100 `div` 10)%N at 1. apply N.Div0.div_le_mono; lia. }
    lia. }
  apply N.eqb_neq in H100.
  assert (100 ≤ n)%N as Hn'.
  { destruct (decide (n < 100)%N) as [Hlt|]; [|lia].
    assert (n `div` 10 < 10)%N as Hsmall.
    { apply N.Div0.div_lt_upper_bound; lia. }
    apply N.div_small in Hsmall. lia. }
  assert (6 ≤ N.log2 n)%N as Hlog'.
  { change 6%N with (N.log2 100). by apply N.log2_le_mono. }
  pose proof (length_digits_from fuel (n `div` 10 `div` 10)%N
    [(48 + (n `div` 10) `mod` 10)%N; (48 + n `mod` 10)%N] ltac:(lia)) as Hlen.
  simpl in Hlen. lia.
Qed.

Lemma length_py_str_short (v : cell) :
  length (py_str v) ≤ 2 ↔ short_word v.
Proof.
  destruct v as [s|z|x|b]; simpl.
  - done.
  - unfold str_of_Z. destruct (Z.ltb_spec z 0) as [Hneg|Hpos].
    + destruct (length_str_of_N_le (Z.to_N (- z))) as [H1 _]. simpl. lia.
    + destruct (length_str_of_N_le (Z.to_N z)) as [_ H2]. lia.
  - assert (3 ≤ length (py_str (Float x))) as Hlen
      by (by apply length_py_str). simpl in Hlen. lia.
  - assert (3 ≤ length (py_str (Bool b))) as Hlen
      by (by apply length_py_str). simpl in Hlen. lia.
Qed.

(** X26: what the audit answers on a row of the combined frame.  A Perfect
    row is [OK].  On a Near row the script ends on [ValueError] when the
    score is a text that is no number; otherwise the row needs a review
    exactly when one of its two words is a text of two characters at most
    or an integer from -9 to 99, or its score is below [0.7].  A word that
    [read_csv] has read as a missing value, a float or a boolean has a
    text of three characters or more, whatever the field was. *)
Theorem audit_logic_flags (r : row) :
  (Match_Type r = Perfect → audit_logic r = Ok OK) ∧
  (Match_Type r = Near →
   match py_float (Similarity_Score r) with
   | None => audit_logic r = Raise ValueError
   | Some similarity =>
       audit_logic r =
       Ok (if decide (short_word (Word_A r) ∨ short_word (Word_B r)
                      ∨ float_ltb similarity lit_0_7 = true)
           then ManualReviewNeeded else OK)
   end).
Proof.
  unfold audit_logic. split; intros ->; [done|].
  destruct (py_float (Similarity_Score r)) as [x|]; [|done]. simpl.
  pose proof (length_py_str_short (Word_A r)) as Ha.
  pose proof (length_py_str_short (Word_B r)) as Hb.
  destruct (decide _) as [Hflag|Hok].
  - destruct Hflag as [?|[?|Hlt]].
    + rewrite bool_decide_eq_true_2 by tauto. done.
    + rewrite (bool_decide_eq_true_2 (length (py_str (Word_B r)) ≤ 2)) by tauto.
      by rewrite orb_true_r.
    + rewrite Hlt. by rewrite orb_true_r.
  - rewrite !bool_decide_eq_false_2 by tauto.
    destruct (float_ltb x lit_0_7); [tauto|done].
Qed.

End frame_audit_more.

(** ** The pipeline on concrete files *)

Section frame_runs.
Import Frame.
#[local] Existing Instance python_values.
#[local] Existing Instance merge_sort_values.

(** C1: on language codes with a hyphen the text [Pair_Key] stands for
    more than one pair key.  The pairs (a, b-c) and (a-b, c) have the key
    "a-b-c-d" for the reference "d"; each has a Perfect and a Near row in
    the combined frame, and the master table keeps one row for the four:
    the pair (a-b, c) has no row at all. *)
Theorem pair_key_collision :
  combined_df collision_perfect_file collision_near_file
  = Ok [ collision_row "a" "b-c" "word" Perfect 1;
         collision_row "a-b" "c" "word" Perfect 1;
         collision_row "a" "b-c" "ward" Near (3 # 4);
         collision_row "a-b" "c" "ward" Near (3 # 4) ] ∧
  Pair_Key (collision_row "a" "b-c" "word" Perfect 1) = Ok (lit "a-b-c-d") ∧
  Pair_Key (collision_row "a-b" "c" "word" Perfect 1) = Ok (lit "a-b-c-d") ∧
  pair_key (collision_row "a" "b-c" "word" Perfect 1)
  ≠ pair_key (collision_row "a-b" "c" "word" Perfect 1) ∧
  recreate_master_cognate collision_perfect_file collision_near_file
  = Ok [ {| cols := collision_row "a" "b-c" "word" Perfect 1;
            Audit_Status := OK |} ].
Proof. vm_compute. done. Qed.

(** C8: the two-letter word "NA" of a Near file is a missing value for
    [read_csv]; [str] of it is "nan", of three characters, and the audit
    answers [OK] on a row whose [Word_A] has two characters. *)
Theorem audit_misses_the_word_NA :
  near_Word_A <$> na_near_file = [lit "NA"; lit "casa"] ∧
  recreate_master_cognate hotel_perfect_file na_near_file
  = Ok [ {| cols := {| Rank := Int 1;
                       English_Reference := Text (lit "hotel");
                       Word_A := Text (lit "hotel");
                       Word_B := Text (lit "hotel");
                       Lang_A := Text (lit "es");
                       Lang_B := Text (lit "fr");
                       Match_Type := Perfect;
                       Similarity_Score := Float (Finite 1) |};
            Audit_Status := OK |};
         {| cols := {| Rank := Int 2;
                       English_Reference := Text (lit "in the");
                       Word_A := Float NaN;
                       Word_B := Text (lit "nata");
                       Lang_A := Text (lit "pt");
                       Lang_B := Text (lit "gl");
                       Match_Type := Near;
                       Similarity_Score := Float (round_double (9 # 10)) |};
            Audit_Status := OK |};
         {| cols := {| Rank := Int 3;
                       English_Reference := Text (lit "house");
                       Word_A := Text (lit "casa");
                       Word_B := Text (lit "cassa");
                       Lang_A := Text (lit "es");
                       Lang_B := Text (lit "it");
                       Match_Type := Near;
                       Similarity_Score := Float (round_double (889 # 1000)) |};
            Audit_Status := OK |} ].
Proof. vm_compute. done. Qed.

(** C10: the detector emits a row for the words "0001" and "0002", of
    four characters and of ratio 0.75.  [read_csv] reads the two columns
    of words of its file as integers, [str] of the words is "1" and "2",
    and the audit answers [ManualReviewNeeded] on this row of the
    detector. *)
Theorem detector_row_is_flagged :
  numbers_near_rows
  = [ {| Fuzzy.Rank := 2;
         Fuzzy.English_Meaning := lit "zero";
         Fuzzy.Language_A := lit "es";
         Fuzzy.Word_A := lit "0001";
         Fuzzy.Language_B := lit "fr";
         Fuzzy.Word_B := lit "0002";
         Fuzzy.Similarity_Score := 750 # 1000;
         Fuzzy.Pattern_Detected := lit "delta: '1' vs '2'" |} ] ∧
  write_near <$> numbers_near_rows
  = [ {| near_Rank := lit "2";
         near_English_Meaning := lit "zero";
         near_Language_A := lit "es";
         near_Word_A := lit "0001";
         near_Language_B := lit "fr";
         near_Word_B := lit "0002";
         near_Similarity_Score := lit "0.750";
         near_Pattern_Detected := lit "delta: '1' vs '2'" |} ] ∧
  ∃ perfect_rows,
    Forall (λ r, Match_Type (cols r) = Perfect) perfect_rows ∧
    recreate_master_cognate (write_perfect <$> numbers_perfect_rows)
      (write_near <$> numbers_near_rows)
    = Ok (perfect_rows ++
          [ {| cols := integers_row; Audit_Status := ManualReviewNeeded |} ]).
Proof.
  split; [vm_compute; done|]. split; [vm_compute; done|].
  eexists [_; _; _]. split; [|vm_compute; reflexivity].
  repeat constructor.
Qed.

End frame_runs.

(** ** The properties of the pipeline on concrete files *)

Lemma master_one_row_per_pair_key_witness :
  ∃ combined master,
    Frame.combined_df (H := python_values) hotel_perfect_file hotel_near_file
    = Frame.Ok combined ∧
    Frame.recreate_master_cognate (H := python_values) (H0 := merge_sort_values)
      hotel_perfect_file hotel_near_file = Frame.Ok master ∧
    (∀ c, c ∈ combined → Frame.hyphen_free (H := python_values) c) ∧
    ∀ c, c ∈ combined →
      ∃ r, r ∈ master ∧
           Frame.pair_key (H := python_values) (Frame.cols r)
           = Frame.pair_key (H := python_values) c ∧
           Frame.Match_Type (Frame.cols r) = Master.Perfect.
Proof.
  eexists _, _. split; [vm_compute; reflexivity|].
  split; [vm_compute; reflexivity|].
  assert (∀ c, c ∈ [ Frame.perfect_pair_row
                       {| Frame.perfect_Rank := Int 1;
                          Frame.perfect_English_Meaning := Text (lit "hotel");
                          Frame.perfect_Word := Text (lit "hotel");
                          Frame.perfect_Languages_Found := Text (lit "es,fr");
                          Frame.perfect_Count := Int 2 |} (lit "es", lit "fr");
                     {| Frame.Rank := Int 1;
                        Frame.English_Reference := Text (lit "hotel");
                        Frame.Word_A := Text (lit "hostel");
                        Frame.Word_B := Text (lit "hotel");
                        Frame.Lang_A := Text (lit "fr");
                        Frame.Lang_B := Text (lit "es");
                        Frame.Match_Type := Master.Near;
                        Frame.Similarity_Score := Float (round_double (909 # 1000)) |} ]
               → Frame.hyphen_free (H := python_values) c) as Hfree.
  { apply Forall_forall. apply (bool_decide_unpack _). vm_compute. exact I. }
  split; [exact Hfree|]. intros c Hc.
  destruct (master_one_row_per_pair_key
              (V := python_values) (S := merge_sort_values)
              (SortLaws0 := merge_sort_values_laws)
              hotel_perfect_file hotel_near_file _ _
              ltac:(vm_compute; reflexivity) ltac:(vm_compute; reflexivity)
              Hfree c Hc) as (r & Hr & Hkey & _ & Hperfect).
  exists r. split; [exact Hr|]. split; [exact Hkey|].
  apply (Hperfect (Frame.perfect_pair_row
                     {| Frame.perfect_Rank := Int 1;
                        Frame.perfect_English_Meaning := Text (lit "hotel");
                        Frame.perfect_Word := Text (lit "hotel");
                        Frame.perfect_Languages_Found := Text (lit "es,fr");
                        Frame.perfect_Count := Int 2 |} (lit "es", lit "fr"))).
  - left.
  - reflexivity.
  - apply elem_of_cons in Hc as [->|Hc]; [reflexivity|].
    apply elem_of_cons in Hc as [->|Hc]; [vm_compute; reflexivity|].
    by apply elem_of_nil in Hc.
Defined.

Lemma master_row_origin_witness :
  ∃ master,
    Frame.recreate_master_cognate (H := python_values) (H0 := merge_sort_values)
      hotel_perfect_file na_near_file = Frame.Ok master ∧
    length master = 3 ∧
    ∀ r, r ∈ master →
      Frame.Match_Type (Frame.cols r) = Master.Perfect
      ∧ Frame.Audit_Status r = Master.OK
      ∨ Frame.Match_Type (Frame.cols r) = Master.Near
        ∧ ∃ n, n ∈ Frame.near_transformed (H := python_values) na_near_file
               ∧ Frame.cast_row n (Frame.cols r).
Proof.
  eexists. split; [vm_compute; reflexivity|]. split; [reflexivity|].
  intros r Hr.
  destruct (master_row_origin
              (V := python_values) (ValuesLaws0 := python_values_laws)
              (S := merge_sort_values) (SortLaws0 := merge_sort_values_laws)
              hotel_perfect_file na_near_file _ r
              ltac:(vm_compute; reflexivity) Hr)
    as [(Hperfect & Hok & _)|(Hnear & _ & Hn)].
  - left. split; [exact Hperfect|exact Hok].
  - right. split; [exact Hnear|exact Hn].
Defined.

Lemma detector_files_pass_audit_witness :
  ∃ master,
    Frame.recreate_master_cognate (H := python_values) (H0 := merge_sort_values)
      (Frame.write_perfect <$> hotel_perfect_rows_list)
      (Frame.write_near <$> nation_near_rows) = Frame.Ok master ∧
    master ≠ [] ∧
    (∀ n, n ∈ Frame.near_transformed (H := python_values)
                (Frame.write_near <$> nation_near_rows) →
          is_int (Frame.Word_A n) = false ∧ is_int (Frame.Word_B n) = false) ∧
    ∀ r, r ∈ master → Frame.Audit_Status r = Master.OK.
Proof.
  eexists. split; [vm_compute; reflexivity|]. split; [discriminate|].
  assert (∀ n, n ∈ Frame.near_transformed (H := python_values)
                     (Frame.write_near <$> nation_near_rows) →
               is_int (Frame.Word_A n) = false ∧ is_int (Frame.Word_B n) = false)
    as Hwords.
  { apply Forall_forall. vm_compute. repeat constructor. }
  split; [exact Hwords|].
  apply (detector_files_pass_audit
           (E := python_numeric) (NumericLaws0 := python_numeric_laws)
           (V := python_values) (ValuesLaws0 := python_values_laws)
           (S := merge_sort_values) (SortLaws0 := merge_sort_values_laws)
           [lit "hotel"] nation_english hotel_lexicon
           (Fuzzy.by_lang_rank nation_data) (Fuzzy.languages nation_data)
           (Fuzzy.max_rank nation_data)).
  - vm_compute. reflexivity.
  - exact Hwords.
Defined.

Lemma audit_logic_flags_witness :
  Frame.short_word (Frame.Word_A integers_row) ∧
  Frame.audit_logic (H := python_values) integers_row
  = Frame.Ok Master.ManualReviewNeeded.
Proof.
  split; [vm_compute; split; discriminate|].
  destruct (audit_logic_flags
              (V := python_values) (ValuesLaws0 := python_values_laws)
              integers_row) as [_ Hnear].
  exact (Hnear eq_refl).
Defined.
